(** * x-scheduler: the scheduling and publication engine

    A shallow embedding of [app/models/post.py], [app/services/scheduler.py]
    and [app/services/x_api.py].

    - Python objects ([XPost], [XThread]) live in a store indexed by
      references; the registries [self.posts] / [self.threads] and a thread's
      member list hold references, so a mutation made through one alias is
      seen through every other one.
    - A method is a computation in a state-and-exception monad [M]; a Python
      [try ... except Exception] block is [try_except].
    - The collaborators the engine calls but does not own (the X client, the
      media transport, [uuid.uuid4], the trigger construction of the job
      scheduler) are the fields of [Collaborators]; every call of the X
      client, of the media transport and of [time.sleep] is recorded in the
      engine's [trace]. *)

From Stdlib Require Import ZArith String List Permutation Sorted Lia.
From stdpp Require Import base option list sorting gmap strings.

Local Open Scope Z_scope.
Local Open Scope string_scope.
Local Open Scope list_scope.

(** ** Python values

    A [string] stands for a Python [str], one character for one code point;
    a Python [int] is a [Z]. *)

(** A reference to a Python object. *)
Definition loc := nat.

(** A [datetime]: an instant on the scheduler's clock. *)
Definition datetime := Z.

(** Exceptions; all of them are subclasses of [Exception]. *)
Inductive exn : Type :=
| AttributeError (type_name attr : string)
| KeyError (key : string)
| IndexError
| TypeError
| ValueError (msg : string)
| JobLookupError (job_id : string)
| CollaboratorError (msg : string).

Inductive result (A : Type) : Type :=
| Ok (a : A)
| Raise (e : exn).
Arguments Ok {A} a.
Arguments Raise {A} e.

(** Truth value of an [Optional[str]]: [None] and the empty string are falsy. *)
Definition truthy (o : option string) : bool :=
  match o with
  | Some s => negb (String.eqb s "")
  | None => false
  end.

(** ** app/models/post.py *)

Inductive PostStatus : Type := PENDING | SCHEDULED | PUBLISHED | FAILED.

#[global] Instance PostStatus_eq_dec : EqDecision PostStatus.
Proof. solve_decision. Defined.

(** The members of the enumeration, by name. *)
Definition PostStatus_members : list (string * PostStatus) :=
  [("PENDING", PENDING); ("SCHEDULED", SCHEDULED);
   ("PUBLISHED", PUBLISHED); ("FAILED", FAILED)].

Fixpoint assoc_lookup {A : Type} (name : string) (l : list (string * A)) : option A :=
  match l with
  | [] => None
  | (n, a) :: l' => if String.eqb name n then Some a else assoc_lookup name l'
  end.

(** The attribute access [PostStatus.<name>]. *)
Definition PostStatus_getattr (name : string) : result PostStatus :=
  match assoc_lookup name PostStatus_members with
  | Some st => Ok st
  | None => Raise (AttributeError "PostStatus" name)
  end.

(** [XPost.validate_content_length] *)
Definition validate_content_length (v : string) : result string :=
  if (280 <? Z.of_nat (String.length v))%Z
  then Raise (ValueError "Content exceeds 280 characters")
  else Ok v.

Module XPost.

Record t : Type := mk {
  id : option string;
  content : string;
  scheduled_date : datetime;
  timezone : string;
  status : PostStatus;
  thread_id : option string;
  thread_position : option Z;
  thread_title : option string;
  media_urls : option (list string);
  x_post_id : option string;
  created_at : datetime;
  updated_at : datetime
}.

Definition set_id (v : option string) (p : t) : t :=
  mk v (content p) (scheduled_date p) (timezone p) (status p) (thread_id p)
     (thread_position p) (thread_title p) (media_urls p) (x_post_id p)
     (created_at p) (updated_at p).

Definition set_status (v : PostStatus) (p : t) : t :=
  mk (id p) (content p) (scheduled_date p) (timezone p) v (thread_id p)
     (thread_position p) (thread_title p) (media_urls p) (x_post_id p)
     (created_at p) (updated_at p).

Definition set_x_post_id (v : option string) (p : t) : t :=
  mk (id p) (content p) (scheduled_date p) (timezone p) (status p) (thread_id p)
     (thread_position p) (thread_title p) (media_urls p) v
     (created_at p) (updated_at p).

(** [XPost(...)]: the model constructor.  The only validator of the class is
    the one on [content]; the fields left out by the caller take their
    defaults ([status] is [PENDING], [x_post_id] is [None], the two
    timestamps are the construction instant [now]). *)
Definition new (now : datetime) (id : option string) (content : string)
    (scheduled_date : datetime) (timezone : string)
    (thread_id : option string) (thread_position : option Z)
    (thread_title : option string) (media_urls : option (list string)) : result t :=
  match validate_content_length content with
  | Raise e => Raise e
  | Ok v =>
      Ok (mk id v scheduled_date timezone PENDING thread_id thread_position
             thread_title media_urls None now now)
  end.

End XPost.

Module XThread.

Record t : Type := mk {
  id : string;
  title : option string;
  posts : list loc;
  scheduled_date : datetime;
  timezone : string;
  status : PostStatus;
  created_at : datetime;
  updated_at : datetime
}.

Definition set_status (v : PostStatus) (th : t) : t :=
  mk (id th) (title th) (posts th) (scheduled_date th) (timezone th) v
     (created_at th) (updated_at th).

End XThread.

(** ** Python's [sorted(l, key=...)]: a stable ascending sort *)

Fixpoint insert_by {A : Type} (key : A → Z) (x : A) (l : list A) : list A :=
  match l with
  | [] => [x]
  | y :: l' => if (key x <=? key y)%Z then x :: y :: l' else y :: insert_by key x l'
  end.

Fixpoint sorted {A : Type} (key : A → Z) (l : list A) : list A :=
  match l with
  | [] => []
  | x :: l' => insert_by key x (sorted key l')
  end.

(** The order [sorted] sorts by. *)
Definition key_le {A : Type} (key : A → Z) (a b : A) : Prop := (key a ≤ key b)%Z.

(** The sort key of [publish_thread]: [p.thread_position or 0]. *)
Definition position_key (p : XPost.t) : Z :=
  match XPost.thread_position p with
  | Some n => n
  | None => 0
  end.

(** ** Collaborators *)

(** What [client.create_tweet] hands back: a falsy object, an object without
    a [data] attribute, or an object whose [data] is [None] or a dictionary. *)
Inductive Response : Type :=
| RespFalsy
| RespNoData
| RespData (data : option (gmap string string)).

(** [response and hasattr(response, "data") and "id" in response.data],
    followed by [response.data["id"]] when the test holds.  On a [data] that
    is [None] the membership test raises. *)
Definition response_id (r : Response) : result (option string) :=
  match r with
  | RespFalsy => Ok None
  | RespNoData => Ok None
  | RespData None => Raise TypeError
  | RespData (Some d) => Ok (d !! "id")
  end.

Record Collaborators : Type := {
  (** the state of everything outside the process *)
  world : Type;
  (** [str(uuid.uuid4())] *)
  uuid4 : world → string * world;
  (** whether the scheduler can build a date trigger for this run date (the
      localisation of the run date in the configured timezone can fail) *)
  trigger_ok : datetime → bool;
  (** [client.create_tweet(text=, media_ids=, in_reply_to_tweet_id=)] *)
  create_tweet :
    world → string → option (list Z) → option string → result Response * world;
  (** download of a remote media file followed by [api.media_upload] *)
  fetch_and_upload : world → string → result Z * world;
  (** [os.path.exists] *)
  path_exists : world → string → bool;
  (** [api.media_upload] of a local file *)
  media_upload : world → string → result Z * world
}.

(** The calls that leave the process, tagged with the post object they are
    made for. *)
Inductive event : Type :=
| EvSleep (seconds : Z)
| EvMedia (who : loc) (url : string) (outcome : result Z)
| EvTweet (who : loc) (text : string) (media_ids : option (list Z))
    (in_reply_to : option string) (outcome : result Response).

(** The post object an outgoing call is made for. *)
Definition event_who (e : event) : option loc :=
  match e with
  | EvSleep _ => None
  | EvMedia who _ _ => Some who
  | EvTweet who _ _ _ _ => Some who
  end.

(** The remote identifier a call of the X client yields, if any: the call
    raised, or the response has no usable [data["id"]], or it has one. *)
Definition outcome_id (o : result Response) : option string :=
  match o with
  | Ok r => match response_id r with Ok i => i | Raise _ => None end
  | Raise _ => None
  end.

(** The calls of the X client in a trace, in order: for which post object,
    and with which remote identifier as a result. *)
Fixpoint tweets (evs : list event) : list (loc * option string) :=
  match evs with
  | [] => []
  | EvTweet who _ _ _ o :: evs' => (who, outcome_id o) :: tweets evs'
  | _ :: evs' => tweets evs'
  end.

(** The trace of one publication attempt for [post] that ends with the
    remote identifier [o]: every call is made for [post], and the X client
    is called at most once; [o] is what that call yields, and [None] when the
    attempt ends before the call. *)
Definition attempt (post : loc) (o : option string) (evs : list event) : Prop :=
  Forall (λ e, event_who e = Some post) evs
  ∧ ((tweets evs = [] ∧ o = None) ∨ tweets evs = [(post, o)]).

(** Every call of a thread's publication succeeded: [publish_thread] wants a
    non-empty remote identifier from the call for the first member and a
    remote identifier from the call for each reply. *)
Definition calls_succeeded (tw : list (loc * option string)) : Prop :=
  match tw with
  | [] => True
  | (_, o) :: tw' => truthy o = true ∧ Forall (λ t, is_Some t.2) tw'
  end.

(** What [publish_thread] takes as a success of the call made for the
    member [l] of a walk that starts with [first]: a non-empty remote
    identifier for the first member ([if not first_post_id: return False]),
    a remote identifier for a reply ([if response and ... "id" in
    response.data], else [return False]). *)
Definition accepted (first l : loc) (o : option string) : bool :=
  if decide (l = first) then truthy o else bool_decide (is_Some o).

(** ** The job store of the scheduler *)

Inductive job_func : Type := publish_post_job | publish_thread_job.

Record Job : Type := mkJob {
  func : job_func;
  run_date : datetime;
  arg : string
}.

#[global] Instance job_func_eq_dec : EqDecision job_func.
Proof. solve_decision. Defined.

#[global] Instance Job_eq_dec : EqDecision Job.
Proof. solve_decision. Defined.

(** ** The engine state and its monad *)

Section Engine.
Context {C : Collaborators}.

(** [SchedulerService], together with the object store, the outside world
    and the trace of outgoing calls.  [jobs] is the content of the
    scheduler's job store: the pending triggers, by job id. *)
Record SchedulerService : Type := mkService {
  post_objs : loc → XPost.t;
  thread_objs : loc → XThread.t;
  posts : gmap string loc;
  threads : gmap string loc;
  jobs : gmap string Job;
  monthly_post_count : Z;
  max_monthly_posts : Z;
  ext : world C;
  trace : list event
}.

Definition set_post_objs (f : (loc → XPost.t) → loc → XPost.t) (s : SchedulerService) :=
  mkService (f (post_objs s)) (thread_objs s) (posts s) (threads s) (jobs s)
    (monthly_post_count s) (max_monthly_posts s) (ext s) (trace s).

Definition set_thread_objs (f : (loc → XThread.t) → loc → XThread.t) (s : SchedulerService) :=
  mkService (post_objs s) (f (thread_objs s)) (posts s) (threads s) (jobs s)
    (monthly_post_count s) (max_monthly_posts s) (ext s) (trace s).

Definition set_posts (f : gmap string loc → gmap string loc) (s : SchedulerService) :=
  mkService (post_objs s) (thread_objs s) (f (posts s)) (threads s) (jobs s)
    (monthly_post_count s) (max_monthly_posts s) (ext s) (trace s).

Definition set_threads (f : gmap string loc → gmap string loc) (s : SchedulerService) :=
  mkService (post_objs s) (thread_objs s) (posts s) (f (threads s)) (jobs s)
    (monthly_post_count s) (max_monthly_posts s) (ext s) (trace s).

Definition set_jobs (f : gmap string Job → gmap string Job) (s : SchedulerService) :=
  mkService (post_objs s) (thread_objs s) (posts s) (threads s) (f (jobs s))
    (monthly_post_count s) (max_monthly_posts s) (ext s) (trace s).

Definition set_monthly_post_count (f : Z → Z) (s : SchedulerService) :=
  mkService (post_objs s) (thread_objs s) (posts s) (threads s) (jobs s)
    (f (monthly_post_count s)) (max_monthly_posts s) (ext s) (trace s).

Definition set_ext (w : world C) (s : SchedulerService) :=
  mkService (post_objs s) (thread_objs s) (posts s) (threads s) (jobs s)
    (monthly_post_count s) (max_monthly_posts s) w (trace s).

Definition log (e : event) (s : SchedulerService) :=
  mkService (post_objs s) (thread_objs s) (posts s) (threads s) (jobs s)
    (monthly_post_count s) (max_monthly_posts s) (ext s) (trace s ++ [e]).

(** Assignment through a reference. *)
Definition upd {A : Type} (l : loc) (f : A → A) (h : loc → A) : loc → A :=
  λ l', if decide (l' = l) then f (h l') else h l'.

(** A computation ends with a value or with a raised exception; the state
    reached is kept in both cases. *)
Definition M (A : Type) : Type := SchedulerService → result A * SchedulerService.

#[global] Instance M_ret : MRet M := λ A a s, (Ok a, s).

#[global] Instance M_bind : MBind M := λ A B k m s,
  match m s with
  | (Ok a, s') => k a s'
  | (Raise e, s') => (Raise e, s')
  end.

Definition get : M SchedulerService := λ s, (Ok s, s).

Definition modify (f : SchedulerService → SchedulerService) : M unit :=
  λ s, (Ok tt, f s).

Definition raise {A : Type} (e : exn) : M A := λ s, (Raise e, s).

Definition lift {A : Type} (r : result A) : M A := λ s, (r, s).

(** [try: body except Exception as e: handler e] *)
Definition try_except {A : Type} (body : M A) (handler : exn → M A) : M A :=
  λ s,
  match body s with
  | (Ok a, s') => (Ok a, s')
  | (Raise e, s') => handler e s'
  end.

Definition read_post (l : loc) : M XPost.t := λ s, (Ok (post_objs s l), s).

Definition read_thread (l : loc) : M XThread.t := λ s, (Ok (thread_objs s l), s).

(** [post.status = PostStatus.<name>]: the right-hand side is evaluated
    first. *)
Definition assign_post_status (l : loc) (name : string) : M unit :=
  st ← lift (PostStatus_getattr name);
  modify (set_post_objs (upd l (XPost.set_status st))).

Definition assign_thread_status (l : loc) (name : string) : M unit :=
  st ← lift (PostStatus_getattr name);
  modify (set_thread_objs (upd l (XThread.set_status st))).

(** ** The job scheduler, as far as the engine uses it

    The scheduler is the APScheduler library, whose code is not in the
    repository; the three operations below follow the contract of the
    Clock/Trigger Store in section 4.3 of the specification. *)

(** Modelled from the spec: [scheduler.add_job(f, "date", run_date=,
    args=[arg], id=job_id, replace_existing=True)], the specification's
    [scheduleAt], "books or replaces a trigger"; admission depends on
    "trigger booking succeeds" (section 4.4), so the booking can fail, and it
    raises then. *)
Definition add_job (f : job_func) (date : datetime) (a job_id : string) : M unit :=
  if trigger_ok C date
  then modify (set_jobs (insert job_id (mkJob f date a)))
  else raise (ValueError "run date cannot be localised").

(** Modelled from the spec: [scheduler.remove_job(job_id)], the
    specification's [cancel], which removes a pending trigger and reports
    when there is none ("already fired, or never existed"); the library
    reports it by raising [JobLookupError]. *)
Definition remove_job (job_id : string) : M unit :=
  s ← get;
  match jobs s !! job_id with
  | Some _ => modify (set_jobs (delete job_id))
  | None => raise (JobLookupError job_id)
  end.

(** ** app/services/x_api.py *)

Definition sleep (seconds : Z) : M unit := modify (log (EvSleep seconds)).

Definition call_fetch_and_upload (who : loc) (url : string) : M Z :=
  λ s,
  let '(r, w) := fetch_and_upload C (ext s) url in
  (r, set_ext w (log (EvMedia who url r) s)).

Definition call_media_upload (who : loc) (path : string) : M Z :=
  λ s,
  let '(r, w) := media_upload C (ext s) path in
  (r, set_ext w (log (EvMedia who path r) s)).

Definition call_create_tweet (who : loc) (text : string)
    (media_ids : option (list Z)) (in_reply_to : option string) : M Response :=
  λ s,
  let '(r, w) := create_tweet C (ext s) text media_ids in_reply_to in
  (r, set_ext w (log (EvTweet who text media_ids in_reply_to r) s)).

(** [media_url.startswith(("http://", "https://"))] *)
Definition is_remote (media_url : string) : bool :=
  String.prefix "http://" media_url || String.prefix "https://" media_url.

(** The loop [for media_url in post.media_urls], written twice in the source
    (in [publish_post] and in the reply loop of [publish_thread]). *)
Fixpoint upload_each (who : loc) (urls : list string) (media_ids : list Z) : M (list Z) :=
  match urls with
  | [] => mret media_ids
  | media_url :: rest =>
      if is_remote media_url then
        m ← call_fetch_and_upload who media_url;
        upload_each who rest (media_ids ++ [m])
      else
        s ← get;
        if path_exists C (ext s) media_url then
          m ← call_media_upload who media_url;
          upload_each who rest (media_ids ++ [m])
        else upload_each who rest media_ids
  end.

(** [media_ids = []], then the loop when [post.media_urls] is a non-empty
    list. *)
Definition handle_media (post : loc) : M (list Z) :=
  p ← read_post post;
  match XPost.media_urls p with
  | Some (u :: us) => upload_each post (u :: us) []
  | _ => mret []
  end.

(** [media_ids if media_ids else None] *)
Definition media_arg (media_ids : list Z) : option (list Z) :=
  match media_ids with
  | [] => None
  | _ => Some media_ids
  end.

(** From the media handling to the test of the response, written twice in
    the source (in [publish_post], and in the reply loop of [publish_thread]
    with [in_reply_to_tweet_id]): the result is [response.data["id"]] when
    the test [response and hasattr(response, "data") and "id" in
    response.data] holds, and [None] when it fails. *)
Definition send_tweet (post : loc) (in_reply_to : option string) : M (option string) :=
  media_ids ← handle_media post;
  p ← read_post post;
  response ← call_create_tweet post (XPost.content p) (media_arg media_ids) in_reply_to;
  lift (response_id response).

Definition publish_post (post : loc) : M (option string) :=
  try_except
    (found ← send_tweet post None;
     match found with
     | Some post_id => mret (Some post_id)
     | None => mret None
     end)
    (λ e, mret None).

(** One turn of the loop [for post in posts[1:]] of [publish_thread], from
    [time.sleep(2)] on.  [Some post_id] is the end of the turn, where the
    loop goes on with [prev_post_id = post_id]; [None] is [return False]. *)
Definition publish_reply (prev_post_id : string) (post : loc) : M (option string) :=
  _ ← sleep 2;
  try_except
    (found ← send_tweet post (Some prev_post_id);
     match found with
     | Some post_id =>
         _ ← modify (set_post_objs (upd post (XPost.set_x_post_id (Some post_id))));
         _ ← assign_post_status post "PUBLISHED";
         mret (Some post_id)
     | None => mret None
     end)
    (λ e, mret None).

Fixpoint publish_replies (prev_post_id : string) (rest : list loc) : M bool :=
  match rest with
  | [] => mret true
  | post :: rest' =>
      r ← publish_reply prev_post_id post;
      match r with
      | Some post_id => publish_replies post_id rest'
      | None => mret false
      end
  end.

Definition publish_thread (thread : loc) : M bool :=
  th ← read_thread thread;
  match XThread.posts th with
  | [] => mret false
  | _ :: _ =>
      try_except
        (s ← get;
         match sorted (λ p, position_key (post_objs s p)) (XThread.posts th) with
         | [] => raise IndexError
         | first_post :: rest =>
             first_post_id ← publish_post first_post;
             if negb (truthy first_post_id) then mret false
             else
               _ ← modify (set_post_objs (upd first_post (XPost.set_x_post_id first_post_id)));
               _ ← assign_post_status first_post "PUBLISHED";
               publish_replies (default "" first_post_id) rest
         end)
        (λ e, mret false)
  end.

(** ** app/services/scheduler.py *)

(** [post.id = str(uuid.uuid4())], returning the new [post.id]. *)
Definition assign_fresh_id (post : loc) : M string :=
  λ s,
  let '(u, w) := uuid4 C (ext s) in
  (Ok u, set_ext w (set_post_objs (upd post (XPost.set_id (Some u))) s)).

(** [if not post.id: post.id = str(uuid.uuid4())], returning [post.id]. *)
Definition ensure_id (post : loc) : M string :=
  p ← read_post post;
  if truthy (XPost.id p) then mret (default "" (XPost.id p))
  else assign_fresh_id post.

Definition schedule_post (post : loc) : M bool :=
  s ← get;
  if (max_monthly_posts s <=? monthly_post_count s)%Z then mret false
  else
    try_except
      (post_id ← ensure_id post;
       _ ← modify (set_posts (insert post_id post));
       p ← read_post post;
       _ ← add_job publish_post_job (XPost.scheduled_date p) post_id ("post_" +:+ post_id);
       _ ← assign_post_status post "SCHEDULED";
       _ ← modify (set_monthly_post_count (λ n, n + 1)%Z);
       mret true)
      (λ e, mret false).

Definition schedule_thread (thread : loc) : M bool :=
  th ← read_thread thread;
  match XThread.posts th with
  | [] => mret false
  | _ :: _ =>
      s ← get;
      if (max_monthly_posts s <? monthly_post_count s + Z.of_nat (length (XThread.posts th)))%Z
      then mret false
      else
        try_except
          (_ ← modify (set_threads (insert (XThread.id th) thread));
           _ ← add_job publish_thread_job (XThread.scheduled_date th) (XThread.id th)
                 ("thread_" +:+ XThread.id th);
           _ ← assign_thread_status thread "SCHEDULED";
           th' ← read_thread thread;
           _ ← modify (set_monthly_post_count
                         (λ n, n + Z.of_nat (length (XThread.posts th')))%Z);
           mret true)
          (λ e, mret false)
  end.

Definition _publish_post_job (post_id : string) : M unit :=
  try_except
    (s ← get;
     match posts s !! post_id with
     | None => mret tt
     | Some post =>
         x_post_id ← publish_post post;
         if truthy x_post_id then
           _ ← modify (set_post_objs (upd post (XPost.set_x_post_id x_post_id)));
           assign_post_status post "PUBLISHED"
         else assign_post_status post "FAILED"
     end)
    (λ e,
     s ← get;
     match posts s !! post_id with
     | Some post => assign_post_status post "FAILED"
     | None => mret tt
     end).

Definition _publish_thread_job (thread_id : string) : M unit :=
  try_except
    (s ← get;
     match threads s !! thread_id with
     | None => mret tt
     | Some thread =>
         success ← publish_thread thread;
         if success : bool then assign_thread_status thread "PUBLISHED"
         else assign_thread_status thread "FAILED"
     end)
    (λ e,
     s ← get;
     match threads s !! thread_id with
     | Some thread => assign_thread_status thread "FAILED"
     | None => mret tt
     end).

Definition get_post (post_id : string) : M (option loc) :=
  s ← get; mret (posts s !! post_id).

Definition get_thread (thread_id : string) : M (option loc) :=
  s ← get; mret (threads s !! thread_id).

(** [self.posts[post_id]] *)
Definition posts_getitem (post_id : string) : M loc :=
  s ← get;
  match posts s !! post_id with
  | Some post => mret post
  | None => raise (KeyError post_id)
  end.

Definition threads_getitem (thread_id : string) : M loc :=
  s ← get;
  match threads s !! thread_id with
  | Some thread => mret thread
  | None => raise (KeyError thread_id)
  end.

Definition cancel_post (post_id : string) : M bool :=
  s ← get;
  match posts s !! post_id with
  | None => mret false
  | Some _ =>
      try_except
        (_ ← remove_job ("post_" +:+ post_id);
         post ← posts_getitem post_id;
         _ ← assign_post_status post "CANCELLED";
         _ ← modify (set_monthly_post_count (λ n, n - 1)%Z);
         mret true)
        (λ e, mret false)
  end.

Definition cancel_thread (thread_id : string) : M bool :=
  s ← get;
  match threads s !! thread_id with
  | None => mret false
  | Some _ =>
      try_except
        (_ ← remove_job ("thread_" +:+ thread_id);
         thread ← threads_getitem thread_id;
         _ ← assign_thread_status thread "CANCELLED";
         th ← read_thread thread;
         _ ← modify (set_monthly_post_count
                       (λ n, n - Z.of_nat (length (XThread.posts th)))%Z);
         mret true)
        (λ e, mret false)
  end.

(** ** The dispatcher *)

Definition run_job (j : Job) : M unit :=
  match func j with
  | publish_post_job => _publish_post_job (arg j)
  | publish_thread_job => _publish_thread_job (arg j)
  end.

(** Modelled from the spec: what the dispatcher of the scheduler does with
    the job id [job_id] at the instant [now].  Section 4.3: it "finds due
    triggers (fire-instant <= now) and invokes each callback exactly once"; a
    fired trigger is no longer pending, and nothing happens to a trigger that
    is not due or to a job id without trigger. *)
Definition dispatch (job_id : string) (now : datetime) : M unit :=
  s ← get;
  match jobs s !! job_id with
  | Some j =>
      if (run_date j <=? now)%Z then
        _ ← modify (set_jobs (delete job_id));
        run_job j
      else mret tt
  | None => mret tt
  end.

(** The operations on the engine. *)
Inductive call : Type :=
| SchedulePost (post : loc)
| ScheduleThread (thread : loc)
| CancelPost (post_id : string)
| CancelThread (thread_id : string)
| PublishPostJob (post_id : string)
| PublishThreadJob (thread_id : string)
| Dispatch (job_id : string) (now : datetime).

(** The state an operation leaves (the returned value is dropped). *)
Definition run_call (c : call) (s : SchedulerService) : SchedulerService :=
  match c with
  | SchedulePost post => (schedule_post post s).2
  | ScheduleThread thread => (schedule_thread thread s).2
  | CancelPost post_id => (cancel_post post_id s).2
  | CancelThread thread_id => (cancel_thread thread_id s).2
  | PublishPostJob post_id => (_publish_post_job post_id s).2
  | PublishThreadJob thread_id => (_publish_thread_job thread_id s).2
  | Dispatch job_id now => (dispatch job_id now s).2
  end.

Definition run_calls (cs : list call) (s : SchedulerService) : SchedulerService :=
  fold_left (λ s c, run_call c s) cs s.

(** [SchedulerService.__init__]: empty registries, a started scheduler with
    an empty job store, a zero counter and the configured ceiling. *)
Definition init (post_store : loc → XPost.t) (thread_store : loc → XThread.t)
    (MAX_MONTHLY_POSTS : Z) (w : world C) : SchedulerService :=
  mkService post_store thread_store ∅ ∅ ∅ 0 MAX_MONTHLY_POSTS w [].

(** ** Observations used in the statements *)

(** The state [schedule_post] leaves when the trigger is booked, from the
    state [s1] in which the post has its identifier [pid]. *)
Definition admitted_post (post : loc) (pid : string) (s1 : SchedulerService) :=
  set_monthly_post_count (λ n, n + 1)%Z
    (set_post_objs (upd post (XPost.set_status SCHEDULED))
       (set_jobs
          (insert ("post_" +:+ pid)
             (mkJob publish_post_job (XPost.scheduled_date (post_objs s1 post)) pid))
          (set_posts (insert pid post) s1))).

(** The state [schedule_thread] leaves when the trigger is booked. *)
Definition admitted_thread (thread : loc) (s : SchedulerService) :=
  let th := thread_objs s thread in
  set_monthly_post_count (λ n, n + Z.of_nat (length (XThread.posts th)))%Z
    (set_thread_objs (upd thread (XThread.set_status SCHEDULED))
       (set_jobs
          (insert ("thread_" +:+ XThread.id th)
             (mkJob publish_thread_job (XThread.scheduled_date th) (XThread.id th)))
          (set_threads (insert (XThread.id th) thread) s))).

(** "No partial state" after a refused admission (section 4.4 of the
    specification), for one call of [schedule_post] and for one call of
    [schedule_thread]. *)
Definition post_refusal_leaves_no_state (s : SchedulerService) (post : loc) : Prop :=
  (schedule_post post s).1 = Ok false →
  posts (schedule_post post s).2 = posts s
  ∧ threads (schedule_post post s).2 = threads s
  ∧ monthly_post_count (schedule_post post s).2 = monthly_post_count s.

Definition thread_refusal_leaves_no_state (s : SchedulerService) (thread : loc) : Prop :=
  (schedule_thread thread s).1 = Ok false →
  posts (schedule_thread thread s).2 = posts s
  ∧ threads (schedule_thread thread s).2 = threads s
  ∧ monthly_post_count (schedule_thread thread s).2 = monthly_post_count s.


(** What the publication code has no business with: the thread objects, the
    two registries, the job store, the quota counter and its ceiling. *)
Definition books (s : SchedulerService) :=
  (thread_objs s, posts s, threads s, jobs s, monthly_post_count s, max_monthly_posts s).

(** The engine's own bookkeeping. *)
Definition ledger (s : SchedulerService) :=
  (posts s, threads s, jobs s, monthly_post_count s, max_monthly_posts s).

(** A computation leaves the observation [obs] of the state as it was. *)
Definition keeps {A B : Type} (obs : SchedulerService → B) (m : M A) : Prop :=
  ∀ s, obs (m s).2 = obs s.

(** [evs] is what the run from [s] to [s1] appended to the trace. *)
Definition emitted (s s1 : SchedulerService) (evs : list event) : Prop :=
  trace s1 = trace s ++ evs.

(** Only media transfers for [who]. *)
Definition media_only (who : loc) (evs : list event) : Prop :=
  Forall (λ e, ∃ u o, e = EvMedia who u o) evs.

End Engine.

Arguments SchedulerService : clear implicits.
Arguments M : clear implicits.

(** ** Sample data *)

(** A scripted outside world: the X client answers with the next entry of the
    script and fails once the script is exhausted; there is no media
    transport; run dates before the epoch cannot be localised. *)
Definition scripted : Collaborators := {|
  world := list (result Response);
  uuid4 := λ w, ("9f1c2d3e-0000-4000-8000-000000000001", w);
  trigger_ok := λ d, (0 <=? d)%Z;
  create_tweet := λ w _ _ _,
    match w with
    | r :: w' => (r, w')
    | [] => (Raise (CollaboratorError "connection refused"), [])
    end;
  fetch_and_upload := λ w _, (Raise (CollaboratorError "connection refused"), w);
  path_exists := λ _ _, false;
  media_upload := λ w _, (Raise (CollaboratorError "no such file"), w)
|}.

Definition tweeted (remote_id : string) : result Response :=
  Ok (RespData (Some {[ "id" := remote_id ]})).

Definition sample_post (i : string) (text : string) (date : datetime)
    (position : option Z) : XPost.t :=
  XPost.mk (Some i) text date "UTC" PENDING None position None None None 0 0.

(** Three members at positions 3, 1 and 2, in this order. *)
Definition sample_thread : XThread.t :=
  XThread.mk "t" None [3; 4; 5]%nat 50 "UTC" PENDING 0 0.

Definition sample_posts (l : loc) : XPost.t :=
  match l with
  | 1%nat => sample_post "a" "hello" 100 None
  | 2%nat => sample_post "a" "hello again" 200 None
  | 3%nat => sample_post "m3" "third" 50 (Some 3)
  | 4%nat => sample_post "m1" "first" 50 (Some 1)
  | 5%nat => sample_post "m2" "second" 50 (Some 2)
  | 6%nat => sample_post "late" "before the epoch" (-1) None
  | _ => sample_post "" "" 0 None
  end.

Definition sample_threads (l : loc) : XThread.t :=
  match l with
  | 1%nat => sample_thread
  | 2%nat => XThread.mk "early" None [3; 4]%nat (-1) "UTC" PENDING 0 0
  | _ => XThread.mk "" None [] 0 "UTC" PENDING 0 0
  end.

Definition sample_init (script : list (result Response)) : SchedulerService scripted :=
  @init scripted sample_posts sample_threads 500 script.

(** The engine after the admission of post 1 (and of thread 1). *)
Definition sample_scheduled_post (script : list (result Response)) :
    SchedulerService scripted :=
  (schedule_post 1%nat (sample_init script)).2.

Definition sample_scheduled_thread (script : list (result Response)) :
    SchedulerService scripted :=
  (schedule_thread 1%nat (sample_init script)).2.

Definition sample_scheduled (script : list (result Response)) :
    SchedulerService scripted :=
  (schedule_thread 1%nat (sample_scheduled_post script)).2.

Fixpoint repeat_string (n : nat) (x : string) : string :=
  match n with
  | O => ""
  | S n' => x +:+ repeat_string n' x
  end.

(** 281 characters. *)
Definition over_length_content : string := repeat_string 281 "x".

(** * The rest of the code

    What the trace says about the requests, the HTTP endpoints of
    [app/api/endpoints/scheduler.py], the scheduling loops of
    [process_csv_file] in [app/api/endpoints/uploads.py], the grouping of
    [CSVProcessor.process_csv] in [app/services/csv_processor.py] and the
    figures of the view [dashboard] in [app/views/dashboard.py]. *)

(** ** More readings of the trace *)

(** The requests sent to the X client, in order: for which post object, with
    which text, media identifiers and [in_reply_to_tweet_id]. *)
Fixpoint requests (evs : list event)
    : list (loc * string * option (list Z) * option string) :=
  match evs with
  | [] => []
  | EvTweet who text media_ids in_reply_to _ :: evs' =>
      (who, text, media_ids, in_reply_to) :: requests evs'
  | _ :: evs' => requests evs'
  end.

(** The identifiers of the media transfers that went through, in order. *)
Fixpoint uploaded (evs : list event) : list Z :=
  match evs with
  | [] => []
  | EvMedia _ _ (Ok m) :: evs' => m :: uploaded evs'
  | _ :: evs' => uploaded evs'
  end.

(** A media transfer raised. *)
Definition media_failed (evs : list event) : Prop :=
  Exists (λ e, ∃ who url x, e = EvMedia who url (Raise x)) evs.

(** The durations of the calls of [time.sleep], in order. *)
Fixpoint sleeps (evs : list event) : list Z :=
  match evs with
  | [] => []
  | EvSleep seconds :: evs' => seconds :: sleeps evs'
  | _ :: evs' => sleeps evs'
  end.

(** Whether the process has slept since the last request to the X client,
    after [evs], when [rested] says so before [evs]. *)
Fixpoint rested_after (rested : bool) (evs : list event) : bool :=
  match evs with
  | [] => rested
  | EvSleep _ :: evs' => rested_after true evs'
  | EvTweet _ _ _ _ _ :: evs' => rested_after false evs'
  | EvMedia _ _ _ :: evs' => rested_after rested evs'
  end.

(** Every request to the X client in [evs] comes after a sleep that no other
    request has used ([rested]: whether there was one before [evs]). *)
Fixpoint paced (rested : bool) (evs : list event) : bool :=
  match evs with
  | [] => true
  | EvSleep _ :: evs' => paced true evs'
  | EvTweet _ _ _ _ _ :: evs' => rested && paced false evs'
  | EvMedia _ _ _ :: evs' => paced rested evs'
  end.

(** ** app/api/endpoints/scheduler.py *)

(** How a handler ends: with the value it returns, or with [raise
    HTTPException(status_code=, detail=)], which the web framework turns into
    the response. *)
Inductive http (A : Type) : Type :=
| Returned (a : A)
| HTTPException (status_code : Z) (detail : string).
Arguments Returned {A} a.
Arguments HTTPException {A} status_code detail.

Module Api.
Section Endpoints.
Context {C : Collaborators}.

Definition get_post (post_id : string) : M C (http loc) :=
  post ← get_post post_id;
  match post with
  | None => mret (HTTPException 404 "Post not found")
  | Some p => mret (Returned p)
  end.

Definition get_thread (thread_id : string) : M C (http loc) :=
  thread ← get_thread thread_id;
  match thread with
  | None => mret (HTTPException 404 "Thread not found")
  | Some th => mret (Returned th)
  end.

(** The returned dictionary: [success] and [message]. *)
Definition cancel_post (post_id : string) : M C (http (bool * string)) :=
  success ← cancel_post post_id;
  if negb success
  then mret (HTTPException 404 "Post not found or could not be cancelled")
  else mret (Returned (true, "Post " +:+ post_id +:+ " cancelled")).

Definition cancel_thread (thread_id : string) : M C (http (bool * string)) :=
  success ← cancel_thread thread_id;
  if negb success
  then mret (HTTPException 404 "Thread not found or could not be cancelled")
  else mret (Returned (true, "Thread " +:+ thread_id +:+ " cancelled")).

End Endpoints.
End Api.

(** ** app/api/endpoints/uploads.py *)

(** The dictionary [process_csv_file] returns, without its [message] (a
    rendering of the two counts, or of the exception). *)
Record UploadReport : Type := mkReport {
  success : bool;
  posts_scheduled : Z;
  threads_scheduled : Z
}.

Section Uploads.
Context {C : Collaborators}.

(** [for post in posts: if scheduler.schedule_post(post): posts_scheduled += 1] *)
Fixpoint schedule_posts (posts : list loc) (posts_scheduled : Z) : M C Z :=
  match posts with
  | [] => mret posts_scheduled
  | post :: rest =>
      admitted ← schedule_post post;
      schedule_posts rest (if admitted : bool then posts_scheduled + 1 else posts_scheduled)%Z
  end.

(** [for thread_id, thread in threads.items(): if
    scheduler.schedule_thread(thread): threads_scheduled += 1] *)
Fixpoint schedule_threads (threads : list loc) (threads_scheduled : Z) : M C Z :=
  match threads with
  | [] => mret threads_scheduled
  | thread :: rest =>
      admitted ← schedule_thread thread;
      schedule_threads rest
        (if admitted : bool then threads_scheduled + 1 else threads_scheduled)%Z
  end.

(** [process_csv_file], from the result [(posts, threads)] of
    [processor.process_csv()] on: [posts] in list order, the values of
    [threads] in the order of the dictionary.  The removal of the uploaded
    file in the [finally] block touches nothing of the engine. *)
Definition process_csv_file (posts threads : list loc) : M C UploadReport :=
  try_except
    (posts_scheduled ← schedule_posts posts 0;
     threads_scheduled ← schedule_threads threads 0;
     mret (mkReport true posts_scheduled threads_scheduled))
    (λ e, mret (mkReport false 0 0)).

(** The members of the threads of [threads] that [admitted] holds, counted. *)
Definition units_of (s : SchedulerService C) (admitted : list loc) : Z :=
  foldr (λ thread n, Z.of_nat (length (XThread.posts (thread_objs s thread))) + n)%Z
    0%Z admitted.

End Uploads.

(** ** app/services/csv_processor.py *)

Module CSVProcessor.

(** [threads[tid].posts.append(post)] on a dictionary kept in insertion
    order. *)
Definition append_member (post : loc) (th : XThread.t) : XThread.t :=
  XThread.mk (XThread.id th) (XThread.title th) (XThread.posts th ++ [post])
    (XThread.scheduled_date th) (XThread.timezone th) (XThread.status th)
    (XThread.created_at th) (XThread.updated_at th).

Fixpoint append_to (tid : string) (post : loc) (threads : list (string * XThread.t))
    : list (string * XThread.t) :=
  match threads with
  | [] => []
  | (k, th) :: rest =>
      if String.eqb tid k then (k, append_member post th) :: rest
      else (k, th) :: append_to tid post rest
  end.

(** [thread.posts.sort(key=lambda p: p.thread_position or 0)] *)
Definition sort_members (h : loc → XPost.t) (th : XThread.t) : XThread.t :=
  XThread.mk (XThread.id th) (XThread.title th)
    (sorted (λ p, position_key (h p)) (XThread.posts th))
    (XThread.scheduled_date th) (XThread.timezone th) (XThread.status th)
    (XThread.created_at th) (XThread.updated_at th).

(** The body of the loop over the rows, after [post =
    self._create_post_from_row(row)]: [post] joins its thread, created on its
    first row with the title, run date and timezone of that row, or the list
    of standalone posts.  [h] holds the post objects, [now] is the instant at
    which the thread with a given identifier is constructed. *)
Definition file_row (h : loc → XPost.t) (now : string → datetime) (post : loc)
    (acc : list loc * list (string * XThread.t)) : list loc * list (string * XThread.t) :=
  let p := h post in
  if truthy (XPost.thread_id p) then
    let tid := default "" (XPost.thread_id p) in
    let threads :=
      match assoc_lookup tid acc.2 with
      | Some _ => acc.2
      | None =>
          acc.2 ++ [(tid, XThread.mk tid (XPost.thread_title p) []
                            (XPost.scheduled_date p) (XPost.timezone p) PENDING
                            (now tid) (now tid))]
      end in
    (acc.1, append_to tid post threads)
  else (acc.1 ++ [post], acc.2).

(** The loop over the rows.  [created] is what reading and converting each
    row gives, in the order of the file: the new post object, or the
    exception raised. *)
Fixpoint read_rows (h : loc → XPost.t) (now : string → datetime)
    (created : list (result loc)) (acc : list loc * list (string * XThread.t))
    : result (list loc * list (string * XThread.t)) :=
  match created with
  | [] => Ok acc
  | Raise e :: _ => Raise e
  | Ok post :: rest => read_rows h now rest (file_row h now post acc)
  end.

(** [process_csv]: nothing when the file does not exist, nothing when a row
    raises, and else the standalone posts and the threads by identifier, each
    with its members sorted by position. *)
Definition process_csv (h : loc → XPost.t) (now : string → datetime)
    (file_exists : bool) (created : list (result loc))
    : list loc * list (string * XThread.t) :=
  if negb file_exists then ([], [])
  else
    match read_rows h now created ([], []) with
    | Ok (posts, threads) => (posts, map (λ kt, (kt.1, sort_members h kt.2)) threads)
    | Raise e => ([], [])
    end.

End CSVProcessor.

(** ** Observations on [process_csv] *)

(** The rows that name the thread [tid], and the rows that name no thread,
    in the order of the file. *)
Definition members_of (h : loc → XPost.t) (tid : string) (rows : list loc) : list loc :=
  filter (λ post, XPost.thread_id (h post) = Some tid) rows.

Definition standalone_of (h : loc → XPost.t) (rows : list loc) : list loc :=
  filter (λ post, truthy (XPost.thread_id (h post)) = false) rows.

(** What the dictionary of threads holds under [tid] once the rows [seen]
    are read, the members being put in order by [sort]. *)
Definition entry (h : loc → XPost.t) (now : string → datetime)
    (sort : list loc → list loc) (seen : list loc) (tid : string)
    (o : option XThread.t) : Prop :=
  match o with
  | Some th =>
      tid ≠ ""
      ∧ ∃ first rest, members_of h tid seen = first :: rest
          ∧ th = XThread.mk tid (XPost.thread_title (h first)) (sort (first :: rest))
                   (XPost.scheduled_date (h first)) (XPost.timezone (h first)) PENDING
                   (now tid) (now tid)
  | None => tid = "" ∨ members_of h tid seen = []
  end.

(** The invariant of the loop over the rows. *)
Definition grouped (h : loc → XPost.t) (now : string → datetime) (seen : list loc)
    (acc : list loc * list (string * XThread.t)) : Prop :=
  acc.1 = standalone_of h seen
  ∧ NoDup acc.2.*1
  ∧ ∀ tid, entry h now id seen tid (assoc_lookup tid acc.2).


(** ** app/views/dashboard.py *)

(** The figures of the dashboard, without [percent_used] (the rounding of a
    floating-point quotient). *)
Record Stats : Type := mkStats { scheduled : Z; published : Z; failed : Z }.

(** [sum(f(a) for a in l)] *)
Definition sum_of {A : Type} (f : A → Z) (l : list A) : Z :=
  foldr (λ a n, f a + n)%Z 0%Z l.

Section Dashboard.
Context {C : Collaborators}.

(** [SchedulerService.get_scheduled_posts] and [get_scheduled_threads]:
    [list(self.posts.values())].  The registries are finite maps here, so the
    values come in the order of the map and not in the order of insertion of
    the dictionary; the figures computed from them do not depend on it. *)
Definition get_scheduled_posts : M C (list loc) :=
  s ← get; mret (map_to_list (posts s)).*2.

Definition get_scheduled_threads : M C (list loc) :=
  s ← get; mret (map_to_list (threads s)).*2.

(** The statistics of the view [dashboard]. *)
Definition dashboard : M C Stats :=
  posts ← get_scheduled_posts;
  threads ← get_scheduled_threads;
  s ← get;
  mret (mkStats
    (Z.of_nat (length posts)
     + sum_of (λ thread, Z.of_nat (length (XThread.posts (thread_objs s thread)))) threads)
    (sum_of (λ _, 1) (filter (λ post, XPost.status (post_objs s post) = PUBLISHED) posts)
     + sum_of (λ _, 1)
         (filter (λ thread, XThread.status (thread_objs s thread) = PUBLISHED) threads))
    (sum_of (λ _, 1) (filter (λ post, XPost.status (post_objs s post) = FAILED) posts)
     + sum_of (λ _, 1)
         (filter (λ thread, XThread.status (thread_objs s thread) = FAILED) threads)))%Z.

(** Every registered thread has members. *)
Definition rosters_filled (s : SchedulerService C) : Prop :=
  ∀ tid thread, threads s !! tid = Some thread → XThread.posts (thread_objs s thread) ≠ [].

End Dashboard.

(** ** More sample data *)

(** An outside world with a media transport: one remote file cannot be
    fetched, one local file exists. *)
Definition with_media : Collaborators := {|
  world := list (result Response);
  uuid4 := λ w, ("9f1c2d3e-0000-4000-8000-000000000002", w);
  trigger_ok := λ d, (0 <=? d)%Z;
  create_tweet := λ w _ _ _,
    match w with
    | r :: w' => (r, w')
    | [] => (Raise (CollaboratorError "connection refused"), [])
    end;
  fetch_and_upload := λ w url,
    (if String.eqb url "https://example.org/broken.png"
     then Raise (CollaboratorError "404 Not Found")
     else Ok 7%Z, w);
  path_exists := λ _ url, String.eqb url "/tmp/cat.png";
  media_upload := λ w _, (Ok 9%Z, w)
|}.

Definition media_post (i : string) (text : string) (urls : list string) : XPost.t :=
  XPost.mk (Some i) text 100 "UTC" PENDING None None None (Some urls) None 0 0.

Definition media_posts (l : loc) : XPost.t :=
  match l with
  | 1%nat => media_post "p1" "look"
               ["https://example.org/a.png"; "/tmp/missing.png"; "/tmp/cat.png"]
  | _ => media_post "p2" "see" ["https://example.org/broken.png"]
  end.

Definition media_init (script : list (result Response)) : SchedulerService with_media :=
  @init with_media media_posts sample_threads 500 script.

(** The rows of a file: a standalone post, two members of thread ["t"] given
    in the order 2, 1, and a row with an empty thread identifier. *)
Definition csv_row (text : string) (thread_id : option string) (position : option Z)
    : XPost.t :=
  XPost.mk (Some text) text 10 "UTC" PENDING thread_id position (Some "A thread") None
    None 0 0.

Definition csv_rows (l : loc) : XPost.t :=
  match l with
  | 1%nat => csv_row "solo" None None
  | 2%nat => csv_row "second" (Some "t") (Some 2)
  | 3%nat => csv_row "first" (Some "t") (Some 1)
  | _ => csv_row "blank" (Some "") None
  end.

(** * Properties *)

Ltac unfold_monad :=
  unfold mbind, M_bind, mret, M_ret, get, modify, raise, lift, try_except,
    read_post, read_thread in *.

(** ** [sorted] is a stable ascending sort *)

Section Sorted.
Context {A : Type} (key : A → Z).

Lemma insert_by_perm x l : insert_by key x l ≡ₚ x :: l.
Proof.
  induction l as [|y l IH]; cbn; [done|].
  destruct (key x <=? key y)%Z; [done|].
  rewrite IH. apply perm_swap.
Qed.

Lemma sorted_perm l : sorted key l ≡ₚ l.
Proof.
  induction l as [|x l IH]; cbn; [done|].
  by rewrite insert_by_perm, IH.
Qed.

Lemma sorted_length l : length (sorted key l) = length l.
Proof. apply Permutation_length, sorted_perm. Qed.

Lemma insert_by_ascending x l :
  StronglySorted (key_le key) l → StronglySorted (key_le key) (insert_by key x l).
Proof.
  induction 1 as [|y l Hl IH Hy]; cbn; [by repeat constructor|].
  destruct (Z.leb_spec (key x) (key y)) as [Hle|Hgt].
  - constructor; [by constructor|].
    constructor; [done|].
    eapply Forall_impl; [exact Hy|]. unfold key_le. intros z Hz. lia.
  - constructor; [done|].
    rewrite insert_by_perm. constructor; [unfold key_le; lia|done].
Qed.

Lemma sorted_ascending l : StronglySorted (key_le key) (sorted key l).
Proof.
  induction l as [|x l IH]; cbn; [constructor|]. by apply insert_by_ascending.
Qed.

Lemma insert_by_stable v x l :
  filter (λ a, key a = v) (insert_by key x l) = filter (λ a, key a = v) (x :: l).
Proof.
  induction l as [|y l IH]; cbn; [done|].
  destruct (Z.leb_spec (key x) (key y)) as [Hle|Hgt]; [done|].
  rewrite !filter_cons, IH, !filter_cons.
  repeat case_decide; try done; lia.
Qed.

Lemma sorted_stable v l :
  filter (λ a, key a = v) (sorted key l) = filter (λ a, key a = v) l.
Proof.
  induction l as [|x l IH]; cbn; [done|].
  by rewrite insert_by_stable, !filter_cons, IH.
Qed.

Lemma sorted_input_order l l' :
  l ≡ₚ l' → NoDup (key <$> l) → sorted key l = sorted key l'.
Proof.
  intros Hp Hnd.
  apply (StronglySorted_unique_strong (key_le key)); try apply sorted_ascending.
  - intros x1 x2 H1 H2 Hle Hge. unfold key_le in *.
    rewrite sorted_perm in H1. rewrite sorted_perm, <- Hp in H2.
    assert (Hk : key x1 = key x2) by lia.
    apply list_elem_of_lookup in H1 as [i1 H1], H2 as [i2 H2].
    assert (i1 = i2) as ->; [|congruence].
    eapply NoDup_lookup; [exact Hnd| |]; rewrite list_lookup_fmap.
    + by rewrite H1.
    + rewrite H2. cbn. by rewrite Hk.
  - by rewrite !sorted_perm.
Qed.

Lemma sorted_nil_inv l : sorted key l = [] → l = [].
Proof.
  intros H. apply length_zero_iff_nil. by rewrite <- sorted_length, H.
Qed.

End Sorted.

Section EngineFacts.
Context {C : Collaborators}.
Implicit Types (s : SchedulerService C).

(** ** Cancellation *)

Lemma service_eta s :
  mkService (post_objs s) (thread_objs s) (posts s) (threads s) (jobs s)
    (monthly_post_count s) (max_monthly_posts s) (ext s) (trace s) = s.
Proof. by destruct s. Qed.

Lemma set_jobs_delete_absent s job_id :
  jobs s !! job_id = None → set_jobs (delete job_id) s = s.
Proof.
  intros Hnone. unfold set_jobs.
  rewrite (delete_id _ _ Hnone). apply service_eta.
Qed.

Lemma cancel_post_unknown s post_id :
  posts s !! post_id = None → cancel_post post_id s = (Ok false, s).
Proof. intros H. unfold cancel_post. unfold_monad. by rewrite H. Qed.

Lemma cancel_thread_unknown s thread_id :
  threads s !! thread_id = None → cancel_thread thread_id s = (Ok false, s).
Proof. intros H. unfold cancel_thread. unfold_monad. by rewrite H. Qed.

Lemma cancel_post_known s post_id :
  is_Some (posts s !! post_id) →
  cancel_post post_id s = (Ok false, set_jobs (delete ("post_" +:+ post_id)) s).
Proof.
  intros [l Hl]. unfold cancel_post, remove_job, posts_getitem, assign_post_status.
  unfold_monad. rewrite Hl.
  destruct (jobs s !! ("post_" +:+ post_id)) as [j|] eqn:Hj.
  - cbn. by rewrite Hl.
  - by rewrite set_jobs_delete_absent.
Qed.

Lemma cancel_thread_known s thread_id :
  is_Some (threads s !! thread_id) →
  cancel_thread thread_id s = (Ok false, set_jobs (delete ("thread_" +:+ thread_id)) s).
Proof.
  intros [l Hl]. unfold cancel_thread, remove_job, threads_getitem, assign_thread_status.
  unfold_monad. rewrite Hl.
  destruct (jobs s !! ("thread_" +:+ thread_id)) as [j|] eqn:Hj.
  - cbn. by rewrite Hl.
  - by rewrite set_jobs_delete_absent.
Qed.

(** C6.  For an identifier present in the posts registry [cancel_post]
    returns [False], and so does [cancel_thread] for an identifier present in
    the threads registry: [PostStatus] has no member [CANCELLED], the
    attribute access raises and the handler of the method catches it.  The
    pending trigger of the entity, if there was one, has been removed by
    then; every object (so every status), both registries and the quota
    counter are as they were. *)
Theorem cancel_registered_returns_false s (entity_id : string) :
  (is_Some (posts s !! entity_id) →
   let s' := (cancel_post entity_id s).2 in
   PostStatus_getattr "CANCELLED" = Raise (AttributeError "PostStatus" "CANCELLED")
   ∧ (cancel_post entity_id s).1 = Ok false
   ∧ jobs s' = delete ("post_" +:+ entity_id) (jobs s)
   ∧ post_objs s' = post_objs s ∧ thread_objs s' = thread_objs s
   ∧ posts s' = posts s ∧ threads s' = threads s
   ∧ monthly_post_count s' = monthly_post_count s)
  ∧ (is_Some (threads s !! entity_id) →
     let s' := (cancel_thread entity_id s).2 in
     PostStatus_getattr "CANCELLED" = Raise (AttributeError "PostStatus" "CANCELLED")
     ∧ (cancel_thread entity_id s).1 = Ok false
     ∧ jobs s' = delete ("thread_" +:+ entity_id) (jobs s)
     ∧ post_objs s' = post_objs s ∧ thread_objs s' = thread_objs s
     ∧ posts s' = posts s ∧ threads s' = threads s
     ∧ monthly_post_count s' = monthly_post_count s).
Proof.
  split; intros Hreg s'; subst s'.
  - rewrite (cancel_post_known _ _ Hreg). cbn. by repeat split.
  - rewrite (cancel_thread_known _ _ Hreg). cbn. by repeat split.
Qed.

(** ** Frame properties of the publication code *)

Lemma keeps_ret {A B} (obs : SchedulerService C → B) (a : A) : keeps obs (mret a).
Proof. by intros s. Qed.

Lemma keeps_bind {A A' B} (obs : SchedulerService C → B) (m : M C A) (k : A → M C A') :
  keeps obs m → (∀ a, keeps obs (k a)) → keeps obs (m ≫= k).
Proof.
  intros Hm Hk s. unfold mbind, M_bind. specialize (Hm s).
  destruct (m s) as [[a|e] s1]; cbn in *; [|done].
  by rewrite Hk.
Qed.

Lemma keeps_try {A B} (obs : SchedulerService C → B) (m : M C A) (h : exn → M C A) :
  keeps obs m → (∀ e, keeps obs (h e)) → keeps obs (try_except m h).
Proof.
  intros Hm Hh s. unfold try_except. specialize (Hm s).
  destruct (m s) as [[a|e] s1]; cbn in *; [done|].
  by rewrite Hh.
Qed.

Lemma keeps_modify {B} (obs : SchedulerService C → B) f :
  (∀ s, obs (f s) = obs s) → keeps obs (modify f).
Proof. intros H s. apply H. Qed.

Lemma keeps_lift {A B} (obs : SchedulerService C → B) (r : result A) : keeps obs (lift r).
Proof. by intros s. Qed.

Lemma keeps_get {B} (obs : SchedulerService C → B) : keeps obs get.
Proof. by intros s. Qed.

Lemma keeps_raise {A B} (obs : SchedulerService C → B) e : keeps obs (raise (A:=A) e).
Proof. by intros s. Qed.

Lemma keeps_read_post {B} (obs : SchedulerService C → B) l : keeps obs (read_post l).
Proof. by intros s. Qed.

Lemma keeps_read_thread {B} (obs : SchedulerService C → B) l : keeps obs (read_thread l).
Proof. by intros s. Qed.

Lemma keeps_if {A B} (obs : SchedulerService C → B) (b : bool) (m1 m2 : M C A) :
  keeps obs m1 → keeps obs m2 → keeps obs (if b then m1 else m2).
Proof. by destruct b. Qed.

Ltac keeps_step :=
  first
    [ apply keeps_ret | apply keeps_get | apply keeps_lift | apply keeps_raise
    | apply keeps_read_post | apply keeps_read_thread
    | apply keeps_bind; [|intros ?] | apply keeps_try; [|intros ?]
    | apply keeps_if
    | apply keeps_modify; by intros [] ].

Lemma keeps_books_assign_post_status l name : keeps books (assign_post_status (C:=C) l name).
Proof. unfold assign_post_status. repeat keeps_step. Qed.

Lemma keeps_books_call_create_tweet who text media reply :
  keeps books (call_create_tweet (C:=C) who text media reply).
Proof. intros s. unfold call_create_tweet. by destruct (create_tweet _ _ _ _ _). Qed.

Lemma keeps_books_call_fetch_and_upload who url :
  keeps books (call_fetch_and_upload (C:=C) who url).
Proof. intros s. unfold call_fetch_and_upload. by destruct (fetch_and_upload _ _ _). Qed.

Lemma keeps_books_call_media_upload who url :
  keeps books (call_media_upload (C:=C) who url).
Proof. intros s. unfold call_media_upload. by destruct (media_upload _ _ _). Qed.

Lemma keeps_books_upload_each who urls acc : keeps books (upload_each (C:=C) who urls acc).
Proof.
  revert acc. induction urls as [|u urls IH]; intros acc; cbn [upload_each].
  - keeps_step.
  - apply keeps_if.
    + apply keeps_bind; [apply keeps_books_call_fetch_and_upload|intros; apply IH].
    + apply keeps_bind; [keeps_step|intros s0]. apply keeps_if; [|apply IH].
      apply keeps_bind; [apply keeps_books_call_media_upload|intros; apply IH].
Qed.

Lemma keeps_books_handle_media post : keeps books (handle_media (C:=C) post).
Proof.
  unfold handle_media. apply keeps_bind; [keeps_step|intros p].
  destruct (XPost.media_urls p) as [[|u us]|];
    [keeps_step|apply keeps_books_upload_each|keeps_step].
Qed.

Lemma keeps_books_send_tweet post reply : keeps books (send_tweet (C:=C) post reply).
Proof.
  unfold send_tweet.
  apply keeps_bind; [apply keeps_books_handle_media|intros ids].
  apply keeps_bind; [keeps_step|intros p].
  apply keeps_bind; [apply keeps_books_call_create_tweet|intros r]. keeps_step.
Qed.

Lemma keeps_books_publish_post post : keeps books (publish_post (C:=C) post).
Proof.
  unfold publish_post. apply keeps_try; [|intros; keeps_step].
  apply keeps_bind; [apply keeps_books_send_tweet|intros [i|]]; keeps_step.
Qed.

Lemma keeps_books_publish_reply prev post : keeps books (publish_reply (C:=C) prev post).
Proof.
  unfold publish_reply, sleep. apply keeps_bind; [keeps_step|intros _].
  apply keeps_try; [|intros; keeps_step].
  apply keeps_bind; [apply keeps_books_send_tweet|intros [i|]]; [|keeps_step].
  apply keeps_bind; [keeps_step|intros _].
  apply keeps_bind; [apply keeps_books_assign_post_status|intros _]. keeps_step.
Qed.

Lemma keeps_books_publish_replies prev rest : keeps books (publish_replies (C:=C) prev rest).
Proof.
  revert prev. induction rest as [|l rest IH]; intros prev; cbn [publish_replies].
  - keeps_step.
  - apply keeps_bind; [apply keeps_books_publish_reply|intros [i|]]; [apply IH|keeps_step].
Qed.

(** ** What the publication code does to the post objects and to the trace *)

Lemma tweets_app evs1 evs2 : tweets (evs1 ++ evs2) = tweets evs1 ++ tweets evs2.
Proof.
  induction evs1 as [|e evs1 IH]; [done|].
  destruct e; cbn; by rewrite ?IH.
Qed.

Lemma emitted_refl s : emitted s s [].
Proof. unfold emitted. by rewrite app_nil_r. Qed.

Lemma emitted_trans s s1 s2 evs1 evs2 :
  emitted s s1 evs1 → emitted s1 s2 evs2 → emitted s s2 (evs1 ++ evs2).
Proof. unfold emitted. intros H1 H2. by rewrite H2, H1, app_assoc. Qed.

Lemma emitted_inj s s1 evs evs' : emitted s s1 evs → emitted s s1 evs' → evs = evs'.
Proof. unfold emitted. intros H1 H2. rewrite H1 in H2. by apply app_inv_head in H2. Qed.

Lemma media_only_tweets who evs : media_only who evs → tweets evs = [].
Proof.
  induction 1 as [|e evs (u & o & ->) _ IH]; [done|]. by cbn.
Qed.

Lemma media_only_who who evs :
  media_only who evs → Forall (λ e, event_who e = Some who) evs.
Proof. intros H. eapply Forall_impl; [exact H|]. by intros e (u & o & ->). Qed.

Lemma bind_inv {A B} (m : M C A) (k : A → M C B) s r s' :
  (m ≫= k) s = (r, s') →
  (∃ a s1, m s = (Ok a, s1) ∧ k a s1 = (r, s'))
  ∨ (∃ e, m s = (Raise e, s') ∧ r = Raise e).
Proof.
  unfold mbind, M_bind. destruct (m s) as [[a|e] s1]; intros H.
  - left. by exists a, s1.
  - right. exists e. by inversion H.
Qed.

Lemma try_inv {A} (m : M C A) (h : exn → M C A) s r s' :
  try_except m h s = (r, s') →
  (∃ a, m s = (Ok a, s') ∧ r = Ok a)
  ∨ (∃ e s1, m s = (Raise e, s1) ∧ h e s1 = (r, s')).
Proof.
  unfold try_except. destruct (m s) as [[a|e] s1]; intros H.
  - left. exists a. by inversion H.
  - right. by exists e, s1.
Qed.

Lemma call_fetch_and_upload_spec who url s r s1 :
  call_fetch_and_upload who url s = (r, s1) →
  emitted s s1 [EvMedia who url r] ∧ post_objs s1 = post_objs s.
Proof.
  unfold call_fetch_and_upload. destruct (fetch_and_upload _ _ _) as [r' w].
  by intros [= <- <-].
Qed.

Lemma call_media_upload_spec who url s r s1 :
  call_media_upload who url s = (r, s1) →
  emitted s s1 [EvMedia who url r] ∧ post_objs s1 = post_objs s.
Proof.
  unfold call_media_upload. destruct (media_upload _ _ _) as [r' w].
  by intros [= <- <-].
Qed.

Lemma call_create_tweet_spec who text media reply s r s1 :
  call_create_tweet who text media reply s = (r, s1) →
  emitted s s1 [EvTweet who text media reply r] ∧ post_objs s1 = post_objs s.
Proof.
  unfold call_create_tweet. destruct (create_tweet _ _ _ _ _) as [r' w].
  by intros [= <- <-].
Qed.

Lemma media_only_cons who url o evs :
  media_only who evs → media_only who (EvMedia who url o :: evs).
Proof. intros H. constructor; [by eauto|done]. Qed.

Lemma upload_each_spec who urls acc s r s1 :
  upload_each who urls acc s = (r, s1) →
  ∃ evs, emitted s s1 evs ∧ media_only who evs ∧ post_objs s1 = post_objs s.
Proof.
  revert acc s. induction urls as [|u urls IH]; intros acc s; cbn [upload_each].
  - intros [= <- <-]. exists []. split; [apply emitted_refl|]. by split; [constructor|].
  - destruct (is_remote u).
    + intros [(m & s0 & Hc & Hk)|(e & Hc & ->)]%bind_inv;
        apply call_fetch_and_upload_spec in Hc as [Hem Hobj].
      * apply IH in Hk as (evs & Hem' & Hmo & Hobj').
        exists ([EvMedia who u (Ok m)] ++ evs). split; [by eapply emitted_trans|].
        split; [by apply media_only_cons|congruence].
      * exists [EvMedia who u (Raise e)]. split; [done|].
        split; [apply media_only_cons; constructor|done].
    + intros [(s0' & s0 & [= <- <-] & Hk)|(e & [=] & _)]%bind_inv.
      destruct (path_exists C (ext s) u); [|by eapply IH].
      apply bind_inv in Hk as [(m & s0 & Hc & Hk)|(e & Hc & ->)];
        apply call_media_upload_spec in Hc as [Hem Hobj].
      * apply IH in Hk as (evs & Hem' & Hmo & Hobj').
        exists ([EvMedia who u (Ok m)] ++ evs). split; [by eapply emitted_trans|].
        split; [by apply media_only_cons|congruence].
      * exists [EvMedia who u (Raise e)]. split; [done|].
        split; [apply media_only_cons; constructor|done].
Qed.

Lemma handle_media_spec post s r s1 :
  handle_media post s = (r, s1) →
  ∃ evs, emitted s s1 evs ∧ media_only post evs ∧ post_objs s1 = post_objs s.
Proof.
  unfold handle_media.
  intros [(p & s0 & [= <- <-] & Hk)|(e & [=] & _)]%bind_inv.
  destruct (XPost.media_urls (post_objs s post)) as [[|u us]|].
  - injection Hk as <- <-. exists []. split; [apply emitted_refl|]. by split; [constructor|].
  - by eapply upload_each_spec.
  - injection Hk as <- <-. exists []. split; [apply emitted_refl|]. by split; [constructor|].
Qed.

Lemma attempt_media_only post evs : media_only post evs → attempt post None evs.
Proof.
  intros H. split; [by apply media_only_who|]. left. by rewrite (media_only_tweets _ _ H).
Qed.

Lemma attempt_tweet post evs text media reply r :
  media_only post evs →
  attempt post (outcome_id r) (evs ++ [EvTweet post text media reply r]).
Proof.
  intros H. split.
  - apply Forall_app. split; [by apply media_only_who|]. by repeat constructor.
  - right. by rewrite tweets_app, (media_only_tweets _ _ H).
Qed.

Lemma send_tweet_spec post reply s r s1 :
  send_tweet post reply s = (r, s1) →
  ∃ evs, emitted s s1 evs ∧ post_objs s1 = post_objs s
         ∧ match r with
           | Ok found => attempt post found evs ∧ tweets evs = [(post, found)]
           | Raise _ => attempt post None evs
           end.
Proof.
  unfold send_tweet.
  intros [(ids & s0 & Hm & Hk)|(e & Hm & ->)]%bind_inv;
    apply handle_media_spec in Hm as (evs0 & Hem0 & Hmo & Hobj0).
  2: { exists evs0. split; [done|]. split; [done|]. by apply attempt_media_only. }
  apply bind_inv in Hk as [(p & s2 & Hp & Hk)|(e & Hp & _)]; [|done].
  injection Hp as <- <-.
  apply bind_inv in Hk as [(resp & s2 & Hc & Hk)|(e & Hc & ->)];
    apply call_create_tweet_spec in Hc as [Hem Hobj].
  - unfold lift in Hk. injection Hk as <- <-.
    eexists. split; [by eapply emitted_trans|]. split; [congruence|].
    pose proof (attempt_tweet post evs0 (XPost.content (post_objs s0 post))
                  (media_arg ids) reply (Ok resp) Hmo) as Hat.
    unfold outcome_id in Hat. destruct (response_id resp) as [found|e] eqn:Hr; [|done].
    split; [done|].
    rewrite tweets_app, (media_only_tweets _ _ Hmo). cbn. by rewrite Hr.
  - eexists. split; [by eapply emitted_trans|]. split; [congruence|].
    by apply (attempt_tweet post evs0 _ _ reply (Raise e)).
Qed.

Lemma publish_post_spec post s r s1 :
  publish_post post s = (r, s1) →
  ∃ o evs, r = Ok o ∧ emitted s s1 evs ∧ post_objs s1 = post_objs s ∧ attempt post o evs.
Proof.
  unfold publish_post.
  intros [(o & Hb & ->)|(e & s0 & Hb & [= <- <-])]%try_inv.
  - apply bind_inv in Hb as [(found & s0 & Hs & Hk)|(e & Hs & [=])].
    apply send_tweet_spec in Hs as (evs & Hem & Hobj & Hat & _).
    assert (o = found ∧ s1 = s0) as [-> ->] by (destruct found; by injection Hk).
    by exists found, evs.
  - apply bind_inv in Hb as [(found & s2 & Hs & Hk)|(e' & Hs & _)];
      [destruct found; by injection Hk|].
    apply send_tweet_spec in Hs as (evs & Hem & Hobj & Hat).
    by exists None, evs.
Qed.

Lemma assign_post_status_member l name st s :
  PostStatus_getattr name = Ok st →
  assign_post_status l name s = (Ok tt, set_post_objs (upd l (XPost.set_status st)) s).
Proof. intros H. unfold assign_post_status. unfold_monad. by rewrite H. Qed.

Lemma assign_thread_status_member l name st s :
  PostStatus_getattr name = Ok st →
  assign_thread_status l name s = (Ok tt, set_thread_objs (upd l (XThread.set_status st)) s).
Proof. intros H. unfold assign_thread_status. unfold_monad. by rewrite H. Qed.

Lemma upd_same {A} l (f : A → A) h : upd l f h l = f (h l).
Proof. unfold upd. by rewrite decide_True. Qed.

Lemma upd_other {A} l l' (f : A → A) h : l' ≠ l → upd l f h l' = h l'.
Proof. intros H. unfold upd. by rewrite decide_False. Qed.

Lemma publish_reply_spec prev post s r s1 :
  publish_reply prev post s = (r, s1) →
  ∃ o evs, r = Ok o ∧ emitted s s1 (EvSleep 2 :: evs) ∧ attempt post o evs
    ∧ post_objs s1 =
        match o with
        | Some i => upd post (XPost.set_status PUBLISHED)
                      (upd post (XPost.set_x_post_id (Some i)) (post_objs s))
        | None => post_objs s
        end.
Proof.
  unfold publish_reply, sleep.
  intros [([] & s0 & [= <-] & Hk)|(e & [=] & _)]%bind_inv.
  assert (Hshift : ∀ s' evs, emitted (log (EvSleep 2) s) s' evs →
                             emitted s s' (EvSleep 2 :: evs)).
  { intros s' evs. unfold emitted. cbn. intros ->. by rewrite <- app_assoc. }
  apply try_inv in Hk as [(o & Hb & ->)|(e & s2 & Hb & [= <- <-])].
  - apply bind_inv in Hb as [(found & s2 & Hs & Hk)|(e & Hs & [=])].
    apply send_tweet_spec in Hs as (evs & Hem & Hobj & Hat & _).
    destruct found as [i|]; cbn in Hk.
    + unfold_monad. rewrite (assign_post_status_member _ _ PUBLISHED) in Hk by done.
      injection Hk as <- <-. exists (Some i), evs. repeat split; try done.
      * apply Hshift. exact Hem.
      * apply Hat.
      * apply Hat.
      * cbn. by rewrite Hobj.
    + injection Hk as <- <-. exists None, evs. repeat split; try done.
      * by apply Hshift.
      * apply Hat.
      * apply Hat.
  - exists None.
    apply bind_inv in Hb as [(found & s3 & Hs & Hk)|(e' & Hs & _)].
    + destruct found as [i|]; cbn in Hk; [|done].
      unfold_monad. by rewrite (assign_post_status_member _ _ PUBLISHED) in Hk.
    + apply send_tweet_spec in Hs as (evs & Hem & Hobj & Hat).
      exists evs. repeat split; try done; try apply Hat. by apply Hshift.
Qed.

Lemma publish_replies_spec rest prev s r s1 :
  publish_replies prev rest s = (r, s1) →
  ∃ b evs, r = Ok b ∧ emitted s s1 evs
    ∧ Forall (λ e, ∀ l, event_who e = Some l → l ∈ rest) evs
    ∧ (tweets evs).*1 `prefix_of` rest
    ∧ (b = true ↔ (tweets evs).*1 = rest ∧ Forall (λ t, is_Some t.2) (tweets evs))
    ∧ (∀ l, l ∉ rest → post_objs s1 l = post_objs s l).
Proof.
  revert prev s r s1.
  induction rest as [|post rest IH]; intros prev s r s1; cbn [publish_replies].
  - intros [= <- <-]. exists true, []. repeat split; try done; try constructor.
    apply emitted_refl.
  - intros [(o & s0 & Hr & Hk)|(e & Hr & ->)]%bind_inv;
      apply publish_reply_spec in Hr as (o' & evs0 & [=] & Hem0 & [Hwho Htw] & Hobj0).
    subst o'.
    assert (Hwho0 : Forall (λ e, ∀ l, event_who e = Some l → l ∈ post :: rest)
                      (EvSleep 2 :: evs0)).
    { constructor; [done|]. eapply Forall_impl; [exact Hwho|].
      intros e He l Hl. rewrite He in Hl. injection Hl as <-. left. }
    destruct o as [i|].
    + destruct Htw as [[_ [=]]|Htw].
      apply IH in Hk as (b & evs & -> & Hem & Hwho' & Hpre & Hiff & Hobj).
      exists b, ((EvSleep 2 :: evs0) ++ evs).
      split; [done|]. split; [by eapply emitted_trans|].
      split; [|split; [|split]].
      * apply Forall_app. split; [done|]. eapply Forall_impl; [exact Hwho'|].
        intros e He l Hl. right. by apply He.
      * rewrite tweets_app. cbn [tweets]. rewrite Htw. cbn. by apply prefix_cons.
      * rewrite tweets_app. cbn [tweets]. rewrite Htw. cbn. rewrite Hiff.
        split.
        -- intros [-> HF]. split; [done|]. constructor; [by eauto|done].
        -- intros [[= ->] HF]. split; [done|]. by inversion HF.
      * intros l Hl. rewrite Hobj, Hobj0.
        -- rewrite !upd_other; [done|..]; intros ->; apply Hl; left.
        -- intros Hin. apply Hl. by right.
    + injection Hk as <- <-. exists false, (EvSleep 2 :: evs0).
      split; [done|]. split; [done|]. split; [done|].
      cbn [tweets]. destruct Htw as [[-> _] | ->]; cbn.
      * split; [apply prefix_nil|]. split; [|by rewrite Hobj0]. by split; [|intros [[=] _]].
      * split; [apply prefix_cons, prefix_nil|]. split; [|by rewrite Hobj0].
        split; [done|]. intros [_ HF]. by apply Forall_inv in HF as [? [=]].
Qed.

Lemma publish_thread_spec thread s r s1 :
  publish_thread thread s = (r, s1) →
  let members :=
    sorted (λ p, position_key (post_objs s p)) (XThread.posts (thread_objs s thread)) in
  ∃ b evs, r = Ok b ∧ emitted s s1 evs
    ∧ Forall (λ e, ∀ l, event_who e = Some l → l ∈ members) evs
    ∧ (tweets evs).*1 `prefix_of` members
    ∧ (b = true ↔
       members ≠ [] ∧ (tweets evs).*1 = members ∧ calls_succeeded (tweets evs))
    ∧ (∀ l, l ∉ members → post_objs s1 l = post_objs s l).
Proof.
  intros Hrun members. unfold publish_thread in Hrun.
  apply bind_inv in Hrun as [(th & ? & [= <- <-] & Hk)|(e & [=] & _)].
  destruct (XThread.posts (thread_objs s thread)) as [|l0 ls] eqn:Hposts.
  { injection Hk as <- <-. exists false, []. subst members. cbn.
    repeat split; try done; try constructor; try apply emitted_refl. by intros [? _]. }
  assert (Hfalse : ∀ s', emitted s s' [] → post_objs s' = post_objs s →
            ∃ b evs, Ok false = Ok b ∧ emitted s s' evs
              ∧ Forall (λ e, ∀ l, event_who e = Some l → l ∈ members) evs
              ∧ (tweets evs).*1 `prefix_of` members
              ∧ (b = true ↔
                 members ≠ [] ∧ (tweets evs).*1 = members ∧ calls_succeeded (tweets evs))
              ∧ (∀ l, l ∉ members → post_objs s' l = post_objs s l)).
  { intros s' Hem Hobj. exists false, []. repeat split; try done; try constructor.
    - apply prefix_nil.
    - intros (Hne & Heq & _). exfalso. apply Hne. symmetry. exact Heq.
    - by rewrite Hobj. }
  apply try_inv in Hk as [(b & Hb & ->)|(e & s2 & Hb & [= <- <-])].
  - apply bind_inv in Hb as [(? & ? & [= <- <-] & Hk)|(e & [=] & _)].
    fold members in Hk. destruct members as [|first_post rest] eqn:Hmem; [done|].
    apply bind_inv in Hk as [(o & s0 & Hp & Hk)|(e & Hp & [=])].
    apply publish_post_spec in Hp as (o' & evs0 & [= <-] & Hem0 & Hobj0 & Hwho & Htw).
    assert (Hwho0 : Forall (λ e, ∀ l, event_who e = Some l → l ∈ first_post :: rest) evs0).
    { eapply Forall_impl; [exact Hwho|].
      intros e He l Hl. rewrite He in Hl. injection Hl as <-. left. }
    destruct (truthy o) eqn:Htruthy; cbn [negb] in Hk.
    + destruct Htw as [[_ ->]|Htw]; [done|].
      apply bind_inv in Hk as [([] & ? & [= <-] & Hk)|(e & [=] & _)].
      apply bind_inv in Hk as [([] & s3 & Ha & Hk)|(e & Ha & [=])].
      rewrite (assign_post_status_member _ _ PUBLISHED) in Ha by done.
      injection Ha as <-.
      apply publish_replies_spec in Hk as (b' & evs & [= <-] & Hem & Hwho' & Hpre & Hiff & Hobj).
      exists b, (evs0 ++ evs). split; [done|]. split.
      { eapply emitted_trans; [exact Hem0|]. exact Hem. }
      split; [|split; [|split]].
      * apply Forall_app. split; [done|]. eapply Forall_impl; [exact Hwho'|].
        intros e He l Hl. right. by apply He.
      * rewrite tweets_app, Htw. cbn. by apply prefix_cons.
      * rewrite tweets_app, Htw. cbn. rewrite Hiff. split.
        -- intros [-> HF]. by repeat split.
        -- intros (_ & [= ->] & _ & HF). by split.
      * intros l Hl. rewrite Hobj.
        -- cbn. rewrite !upd_other, Hobj0; [done|..]; intros ->; apply Hl; left.
        -- intros Hin. apply Hl. by right.
    + injection Hk as <- <-. exists false, evs0.
      split; [done|]. split; [done|]. split; [done|].
      destruct Htw as [[-> _] | ->]; cbn.
      * split; [apply prefix_nil|]. split; [|by rewrite Hobj0].
        split; [done|]. by intros (_ & [=] & _).
      * split; [apply prefix_cons, prefix_nil|]. split; [|by rewrite Hobj0].
        split; [done|]. intros (_ & _ & Ht & _). by rewrite Htruthy in Ht.
  - apply bind_inv in Hb as [(? & ? & [= <- <-] & Hk)|(e' & [=] & _)].
    fold members in Hk. destruct members as [|first_post rest] eqn:Hmem.
    { injection Hk as _ <-. apply Hfalse; [apply emitted_refl|done]. }
    apply bind_inv in Hk as [(o & s0 & Hp & Hk)|(e' & Hp & _)].
    2: { by apply publish_post_spec in Hp as (? & ? & [=] & _). }
    destruct (negb (truthy o)); [done|].
    apply bind_inv in Hk as [([] & ? & [= <-] & Hk)|(e' & [=] & _)].
    apply bind_inv in Hk as [([] & s3 & Ha & Hk)|(e' & Ha & _)].
    2: { by rewrite (assign_post_status_member _ _ PUBLISHED) in Ha. }
    by apply publish_replies_spec in Hk as (? & ? & [=] & _).
Qed.

Lemma keeps_books_publish_thread thread : keeps books (publish_thread (C:=C) thread).
Proof.
  unfold publish_thread. apply keeps_bind; [keeps_step|intros th].
  destruct (XThread.posts th) as [|l0 ls]; [keeps_step|].
  apply keeps_try; [|intros; keeps_step].
  apply keeps_bind; [keeps_step|intros s0].
  destruct (sorted _ _) as [|first_post rest]; [keeps_step|].
  apply keeps_bind; [apply keeps_books_publish_post|intros i].
  apply keeps_if; [keeps_step|].
  apply keeps_bind; [keeps_step|intros _].
  apply keeps_bind; [apply keeps_books_assign_post_status|intros _].
  apply keeps_books_publish_replies.
Qed.

(** ** Admission *)

Lemma ensure_id_cases post s :
  ∃ pid s1, ensure_id post s = (Ok pid, s1)
    ∧ XPost.id (post_objs s1 post) = Some pid
    ∧ ((truthy (XPost.id (post_objs s post)) = true
        ∧ XPost.id (post_objs s post) = Some pid ∧ s1 = s)
       ∨ (truthy (XPost.id (post_objs s post)) = false
          ∧ pid = (uuid4 C (ext s)).1
          ∧ s1 = set_ext (uuid4 C (ext s)).2
                   (set_post_objs (upd post (XPost.set_id (Some pid))) s))).
Proof.
  unfold ensure_id, assign_fresh_id. unfold_monad.
  destruct (truthy (XPost.id (post_objs s post))) eqn:Htruthy.
  - destruct (XPost.id (post_objs s post)) as [i|] eqn:Hid; [|done].
    exists i, s. cbn. split; [done|]. split; [done|]. by left.
  - destruct (uuid4 C (ext s)) as [u w] eqn:Hu.
    eexists u, _. split; [done|]. cbn. rewrite upd_same. split; [done|]. by right.
Qed.

Lemma ensure_id_frame post s pid s1 :
  ensure_id post s = (Ok pid, s1) →
  books s1 = books s ∧ trace s1 = trace s
  ∧ (∀ l, XPost.content (post_objs s1 l) = XPost.content (post_objs s l)
          ∧ XPost.scheduled_date (post_objs s1 l) = XPost.scheduled_date (post_objs s l)
          ∧ XPost.status (post_objs s1 l) = XPost.status (post_objs s l)).
Proof.
  intros Hrun. destruct (ensure_id_cases post s) as (pid' & s1' & Heq & _ & Hcases).
  rewrite Hrun in Heq. injection Heq as <- <-.
  destruct Hcases as [(_ & _ & ->)|(_ & _ & ->)]; [done|].
  split; [done|]. split; [done|]. intros l. cbn. unfold upd. by case_decide.
Qed.

Lemma schedule_post_unfold post s :
  schedule_post post s =
  if (max_monthly_posts s <=? monthly_post_count s)%Z then (Ok false, s)
  else
    match ensure_id post s with
    | (Ok pid, s1) =>
        if trigger_ok C (XPost.scheduled_date (post_objs s1 post))
        then (Ok true, admitted_post post pid s1)
        else (Ok false, set_posts (insert pid post) s1)
    | (Raise e, s1) => (Ok false, s1)
    end.
Proof.
  unfold schedule_post, add_job. unfold_monad.
  destruct (max_monthly_posts s <=? monthly_post_count s)%Z; [done|].
  destruct (ensure_id post s) as [[pid|e] s1]; [|done]. cbn.
  destruct (trigger_ok C (XPost.scheduled_date (post_objs s1 post))); [|done].
  by rewrite (assign_post_status_member _ _ SCHEDULED).
Qed.

Lemma schedule_post_cases post s :
  ((max_monthly_posts s ≤ monthly_post_count s)%Z
   ∧ schedule_post post s = (Ok false, s))
  ∨ ((monthly_post_count s < max_monthly_posts s)%Z
     ∧ ∃ pid s1, ensure_id post s = (Ok pid, s1)
         ∧ ((trigger_ok C (XPost.scheduled_date (post_objs s post)) = false
             ∧ schedule_post post s = (Ok false, set_posts (insert pid post) s1))
            ∨ (trigger_ok C (XPost.scheduled_date (post_objs s post)) = true
               ∧ schedule_post post s = (Ok true, admitted_post post pid s1)))).
Proof.
  rewrite schedule_post_unfold.
  destruct (Z.leb_spec (max_monthly_posts s) (monthly_post_count s)) as [Hfull|Hroom].
  { left. by split. }
  right. split; [done|].
  destruct (ensure_id_cases post s) as (pid & s1 & Hid & _ & _).
  destruct (ensure_id_frame _ _ _ _ Hid) as (_ & _ & Hsame).
  destruct (Hsame post) as (_ & Hdate & _).
  exists pid, s1. split; [done|]. rewrite Hid, Hdate.
  destruct (trigger_ok C (XPost.scheduled_date (post_objs s post))); [right|left]; done.
Qed.

Lemma schedule_thread_unfold thread s :
  schedule_thread thread s =
  let th := thread_objs s thread in
  match XThread.posts th with
  | [] => (Ok false, s)
  | _ :: _ =>
      if (max_monthly_posts s
          <? monthly_post_count s + Z.of_nat (length (XThread.posts th)))%Z
      then (Ok false, s)
      else if trigger_ok C (XThread.scheduled_date th)
           then (Ok true, admitted_thread thread s)
           else (Ok false, set_threads (insert (XThread.id th) thread) s)
  end.
Proof.
  unfold schedule_thread, add_job. unfold_monad. cbn zeta.
  destruct (XThread.posts (thread_objs s thread)) as [|m ms] eqn:Hposts; [done|].
  destruct (_ <? _)%Z; [done|].
  destruct (trigger_ok C (XThread.scheduled_date (thread_objs s thread))); [|done].
  rewrite (assign_thread_status_member _ _ SCHEDULED) by done.
  unfold admitted_thread, set_monthly_post_count. cbn. by rewrite upd_same.
Qed.

Lemma schedule_thread_cases thread s :
  let th := thread_objs s thread in
  let units := Z.of_nat (length (XThread.posts th)) in
  ((XThread.posts th = [] ∨ (max_monthly_posts s < monthly_post_count s + units)%Z)
   ∧ schedule_thread thread s = (Ok false, s))
  ∨ (XThread.posts th ≠ []
     ∧ (monthly_post_count s + units ≤ max_monthly_posts s)%Z
     ∧ ((trigger_ok C (XThread.scheduled_date th) = false
         ∧ schedule_thread thread s
           = (Ok false, set_threads (insert (XThread.id th) thread) s))
        ∨ (trigger_ok C (XThread.scheduled_date th) = true
           ∧ schedule_thread thread s = (Ok true, admitted_thread thread s)))).
Proof.
  intros th units. rewrite schedule_thread_unfold. cbn zeta. fold th. subst units.
  destruct (XThread.posts th) as [|m ms] eqn:Hposts.
  { left. split; [by left|done]. }
  destruct (Z.ltb_spec (max_monthly_posts s)
              (monthly_post_count s + Z.of_nat (length (m :: ms)))) as [Hfull|Hroom].
  { left. split; [by right|done]. }
  right. split; [done|]. split; [done|].
  destruct (trigger_ok C (XThread.scheduled_date th)); [right|left]; done.
Qed.

(** C2, as the code has it.  When [schedule_post] or [schedule_thread]
    returns [False] the quota counter, its ceiling and the job store are as
    they were.  A refusal by the quota check or by the empty-thread check
    leaves the whole state as it was.  Otherwise the refusal comes from the
    booking of the trigger, and the entity has been stored in its registry
    under its identifier by then and stays there, its status unchanged. *)
Theorem refused_admission_state s :
  (∀ post, (schedule_post post s).1 = Ok false →
     let s' := (schedule_post post s).2 in
     monthly_post_count s' = monthly_post_count s
     ∧ max_monthly_posts s' = max_monthly_posts s
     ∧ jobs s' = jobs s ∧ threads s' = threads s ∧ thread_objs s' = thread_objs s
     ∧ ((max_monthly_posts s ≤ monthly_post_count s)%Z → s' = s)
     ∧ ((monthly_post_count s < max_monthly_posts s)%Z →
        trigger_ok C (XPost.scheduled_date (post_objs s post)) = false
        ∧ XPost.status (post_objs s' post) = XPost.status (post_objs s post)
        ∧ ∃ pid, XPost.id (post_objs s' post) = Some pid
                 ∧ posts s' = <[pid := post]> (posts s)))
  ∧ (∀ thread, (schedule_thread thread s).1 = Ok false →
       let s' := (schedule_thread thread s).2 in
       let th := thread_objs s thread in
       let units := Z.of_nat (length (XThread.posts th)) in
       monthly_post_count s' = monthly_post_count s
       ∧ max_monthly_posts s' = max_monthly_posts s
       ∧ jobs s' = jobs s ∧ posts s' = posts s
       ∧ post_objs s' = post_objs s ∧ thread_objs s' = thread_objs s
       ∧ (XThread.posts th = [] ∨ (max_monthly_posts s < monthly_post_count s + units)%Z →
          s' = s)
       ∧ (XThread.posts th ≠ [] ∧ (monthly_post_count s + units ≤ max_monthly_posts s)%Z →
          trigger_ok C (XThread.scheduled_date th) = false
          ∧ threads s' = <[XThread.id th := thread]> (threads s))).
Proof.
  split.
  - intros post Hfalse s'. subst s'.
    destruct (schedule_post_cases post s)
      as [[Hfull ->]|(Hroom & pid & s1 & Hid & [[Hno ->]|[_ Hrun]])];
      [| |by rewrite Hrun in Hfalse].
    + cbn. do 5 (split; [done|]). split; [done|]. intros. exfalso. lia.
    + destruct (ensure_id_frame _ _ _ _ Hid) as (Hbooks & _ & Hsame).
      destruct (ensure_id_cases post s) as (pid' & s1' & Hid' & Hpid & _).
      rewrite Hid in Hid'. injection Hid' as <- <-.
      unfold books in Hbooks. injection Hbooks as Ht Hp Hth Hj Hc Hm. cbn.
      do 5 (split; [done|]). split; [intros; exfalso; lia|]. intros _.
      split; [done|]. split; [apply Hsame|]. exists pid. by rewrite Hp.
  - intros thread Hfalse s' th units. subst s' th units.
    destruct (schedule_thread_cases thread s)
      as [[Hwhy ->]|(Hne & Hroom & [[Hno ->]|[_ Hrun]])];
      [| |by rewrite Hrun in Hfalse].
    + cbn. do 6 (split; [done|]). split; [done|]. intros [? ?].
      destruct Hwhy; [done|exfalso; lia].
    + cbn. do 6 (split; [done|]). split; [|done]. intros [?|?]; [done|exfalso; lia].
Qed.

(** ** The firing callbacks *)

Lemma keeps_books_ledger {A} (m : M C A) : keeps books m → keeps ledger m.
Proof. intros H s. specialize (H s). unfold books, ledger in *. congruence. Qed.

Lemma publish_post_job_unknown post_id s :
  posts s !! post_id = None → _publish_post_job post_id s = (Ok tt, s).
Proof. intros H. unfold _publish_post_job. unfold_monad. by rewrite H. Qed.

Lemma publish_thread_job_unknown thread_id s :
  threads s !! thread_id = None → _publish_thread_job thread_id s = (Ok tt, s).
Proof. intros H. unfold _publish_thread_job. unfold_monad. by rewrite H. Qed.

Lemma publish_post_job_known post_id post s :
  posts s !! post_id = Some post →
  ∃ o s0 evs,
    publish_post post s = (Ok o, s0) ∧ emitted s s0 evs ∧ attempt post o evs
    ∧ post_objs s0 = post_objs s
    ∧ _publish_post_job post_id s =
        (Ok tt,
         if truthy o
         then set_post_objs (upd post (XPost.set_status PUBLISHED))
                (set_post_objs (upd post (XPost.set_x_post_id o)) s0)
         else set_post_objs (upd post (XPost.set_status FAILED)) s0).
Proof.
  intros Hreg. destruct (publish_post post s) as [r s0] eqn:Hp.
  destruct (publish_post_spec _ _ _ _ Hp) as (o & evs & -> & Hem & Hobj & Hat).
  exists o, s0, evs. repeat split; try done; try apply Hat.
  unfold _publish_post_job. unfold_monad. rewrite Hreg, Hp.
  destruct (truthy o).
  - by rewrite (assign_post_status_member _ _ PUBLISHED).
  - by rewrite (assign_post_status_member _ _ FAILED).
Qed.

Lemma publish_thread_job_known thread_id thread s :
  threads s !! thread_id = Some thread →
  ∃ b s0,
    publish_thread thread s = (Ok b, s0)
    ∧ _publish_thread_job thread_id s =
        (Ok tt,
         set_thread_objs
           (upd thread (XThread.set_status (if b then PUBLISHED else FAILED))) s0).
Proof.
  intros Hreg. destruct (publish_thread thread s) as [r s0] eqn:Hp.
  destruct (publish_thread_spec _ _ _ _ Hp) as (b & evs & -> & _).
  exists b, s0. split; [done|].
  unfold _publish_thread_job. unfold_monad. rewrite Hreg, Hp.
  destruct b.
  - by rewrite (assign_thread_status_member _ _ PUBLISHED).
  - by rewrite (assign_thread_status_member _ _ FAILED).
Qed.



Lemma keeps_ledger_publish_post_job post_id : keeps ledger (_publish_post_job (C:=C) post_id).
Proof.
  intros s. destruct (posts s !! post_id) as [post|] eqn:Hreg.
  - destruct (publish_post_job_known _ _ _ Hreg) as (o & s0 & ? & Hp & _ & _ & _ & ->).
    pose proof (keeps_books_ledger _ (keeps_books_publish_post post) s) as Hk.
    rewrite Hp in Hk. cbn in Hk. rewrite <- Hk. by destruct (truthy o).
  - by rewrite publish_post_job_unknown.
Qed.

Lemma keeps_ledger_publish_thread_job thread_id :
  keeps ledger (_publish_thread_job (C:=C) thread_id).
Proof.
  intros s. destruct (threads s !! thread_id) as [thread|] eqn:Hreg.
  - destruct (publish_thread_job_known _ _ _ Hreg) as (b & s0 & Hp & ->).
    pose proof (keeps_books_ledger _ (keeps_books_publish_thread thread) s) as Hk.
    rewrite Hp in Hk. cbn in Hk. by rewrite <- Hk.
  - by rewrite publish_thread_job_unknown.
Qed.


(** ** The quota counter *)

Lemma run_call_ceiling c s : max_monthly_posts (run_call c s) = max_monthly_posts s.
Proof.
  destruct c as [post|thread|post_id|thread_id|post_id|thread_id|job_id now]; cbn.
  - destruct (schedule_post_cases post s)
      as [[_ ->]|(_ & pid & s1 & Hid & [[_ ->]|[_ ->]])]; [done|..];
      destruct (ensure_id_frame _ _ _ _ Hid) as (Hbooks & _); cbn;
      unfold books in Hbooks; congruence.
  - destruct (schedule_thread_cases thread s)
      as [[_ ->]|(_ & _ & [[_ ->]|[_ ->]])]; done.
  - destruct (posts s !! post_id) eqn:Hreg.
    + by rewrite cancel_post_known.
    + by rewrite cancel_post_unknown.
  - destruct (threads s !! thread_id) eqn:Hreg.
    + by rewrite cancel_thread_known.
    + by rewrite cancel_thread_unknown.
  - pose proof (keeps_ledger_publish_post_job post_id s) as H.
    unfold ledger in H. congruence.
  - pose proof (keeps_ledger_publish_thread_job thread_id s) as H.
    unfold ledger in H. congruence.
  - unfold dispatch. unfold_monad.
    destruct (jobs s !! job_id) as [j|]; [|done].
    destruct (run_date j <=? now)%Z; [|done].
    unfold run_job. destruct (func j).
    + pose proof (keeps_ledger_publish_post_job (arg j) (set_jobs (delete job_id) s)) as H.
      unfold ledger in H. cbn in H. congruence.
    + pose proof (keeps_ledger_publish_thread_job (arg j) (set_jobs (delete job_id) s)) as H.
      unfold ledger in H. cbn in H. congruence.
Qed.

Lemma run_call_counter c s :
  (monthly_post_count (run_call c s) ≤ monthly_post_count s)%Z
  ∨ (monthly_post_count (run_call c s) ≤ max_monthly_posts s)%Z.
Proof.
  destruct c as [post|thread|post_id|thread_id|post_id|thread_id|job_id now]; cbn.
  - destruct (schedule_post_cases post s)
      as [[_ ->]|(Hroom & pid & s1 & Hid & [[_ ->]|[_ ->]])]; [left; done|..];
      destruct (ensure_id_frame _ _ _ _ Hid) as (Hbooks & _); cbn;
      unfold books in Hbooks; injection Hbooks as _ _ _ _ Hc _; rewrite Hc; lia.
  - destruct (schedule_thread_cases thread s)
      as [[_ ->]|(_ & Hroom & [[_ ->]|[_ ->]])]; cbn in *; lia.
  - left. destruct (posts s !! post_id) eqn:Hreg.
    + by rewrite cancel_post_known.
    + by rewrite cancel_post_unknown.
  - left. destruct (threads s !! thread_id) eqn:Hreg.
    + by rewrite cancel_thread_known.
    + by rewrite cancel_thread_unknown.
  - left. pose proof (keeps_ledger_publish_post_job post_id s) as H.
    unfold ledger in H. injection H as _ _ _ H _. by rewrite H.
  - left. pose proof (keeps_ledger_publish_thread_job thread_id s) as H.
    unfold ledger in H. injection H as _ _ _ H _. by rewrite H.
  - left. unfold dispatch. unfold_monad.
    destruct (jobs s !! job_id) as [j|]; [|done].
    destruct (run_date j <=? now)%Z; [|done].
    unfold run_job. destruct (func j).
    + pose proof (keeps_ledger_publish_post_job (arg j) (set_jobs (delete job_id) s)) as H.
      unfold ledger in H. injection H as _ _ _ H _. by rewrite H.
    + pose proof (keeps_ledger_publish_thread_job (arg j) (set_jobs (delete job_id) s)) as H.
      unfold ledger in H. injection H as _ _ _ H _. by rewrite H.
Qed.

Lemma run_calls_within_ceiling cs s :
  (monthly_post_count s ≤ max_monthly_posts s)%Z →
  (monthly_post_count (run_calls cs s) ≤ max_monthly_posts s)%Z
  ∧ max_monthly_posts (run_calls cs s) = max_monthly_posts s.
Proof.
  revert s. induction cs as [|c cs IH]; intros s Hinv; [done|].
  change (run_calls (c :: cs) s) with (run_calls cs (run_call c s)).
  pose proof (run_call_ceiling c s) as Hmax.
  destruct (IH (run_call c s)) as [Hle Heq].
  - rewrite Hmax. destruct (run_call_counter c s); lia.
  - split; [lia|congruence].
Qed.

(** C3.  The quota counter never exceeds the ceiling.  [schedule_post]
    admits only with room for one more unit and then adds exactly one;
    [schedule_thread] admits only with room for all the members and then adds
    their number; no operation changes the ceiling, and an operation that
    leaves the counter higher than it found it leaves it within the ceiling.
    So from a counter within the ceiling, and in particular from the initial
    state of an engine with a non-negative ceiling, every sequence of
    operations keeps the counter within the ceiling. *)
Theorem quota_counter_within_ceiling s :
  (∀ post, (schedule_post post s).1 = Ok true →
     (monthly_post_count s + 1 ≤ max_monthly_posts s)%Z
     ∧ monthly_post_count (schedule_post post s).2 = (monthly_post_count s + 1)%Z)
  ∧ (∀ thread, (schedule_thread thread s).1 = Ok true →
       let units := Z.of_nat (length (XThread.posts (thread_objs s thread))) in
       (monthly_post_count s + units ≤ max_monthly_posts s)%Z
       ∧ monthly_post_count (schedule_thread thread s).2
         = (monthly_post_count s + units)%Z)
  ∧ (∀ c, max_monthly_posts (run_call c s) = max_monthly_posts s
          ∧ ((monthly_post_count (run_call c s) ≤ monthly_post_count s)%Z
             ∨ (monthly_post_count (run_call c s) ≤ max_monthly_posts s)%Z))
  ∧ (∀ cs, (monthly_post_count s ≤ max_monthly_posts s)%Z →
           (monthly_post_count (run_calls cs s) ≤ max_monthly_posts (run_calls cs s))%Z)
  ∧ (∀ cs post_store thread_store ceiling w, (0 ≤ ceiling)%Z →
       let s0 := init (C:=C) post_store thread_store ceiling w in
       (monthly_post_count (run_calls cs s0) ≤ ceiling)%Z
       ∧ max_monthly_posts (run_calls cs s0) = ceiling).
Proof.
  split; [|split; [|split; [|split]]].
  - intros post Htrue.
    destruct (schedule_post_cases post s)
      as [[_ Hrun]|(Hroom & pid & s1 & Hid & [[_ Hrun]|[_ Hrun]])];
      rewrite Hrun in Htrue |- *; try done.
    destruct (ensure_id_frame _ _ _ _ Hid) as (Hbooks & _).
    unfold books in Hbooks. injection Hbooks as _ _ _ _ Hc _. cbn. rewrite Hc.
    split; [lia|done].
  - intros thread Htrue units.
    destruct (schedule_thread_cases thread s)
      as [[_ Hrun]|(_ & Hroom & [[_ Hrun]|[_ Hrun]])];
      rewrite Hrun in Htrue |- *; try done.
  - intros c. split; [apply run_call_ceiling|apply run_call_counter].
  - intros cs Hinv. destruct (run_calls_within_ceiling cs s Hinv) as [Hle Heq]. lia.
  - intros cs post_store thread_store ceiling w Hpos s0.
    by apply (run_calls_within_ceiling cs s0).
Qed.

(** ** The dispatcher and the triggers *)

Lemma dispatch_due job_id now s j :
  jobs s !! job_id = Some j → (run_date j ≤ now)%Z →
  dispatch job_id now s = run_job j (set_jobs (delete job_id) s).
Proof.
  intros Hj Hdue. unfold dispatch. unfold_monad. rewrite Hj.
  by destruct (Z.leb_spec (run_date j) now); [|lia].
Qed.

Lemma dispatch_not_due job_id now s j :
  jobs s !! job_id = Some j → (now < run_date j)%Z →
  dispatch job_id now s = (Ok tt, s).
Proof.
  intros Hj Hdue. unfold dispatch. unfold_monad. rewrite Hj.
  by destruct (Z.leb_spec (run_date j) now); [lia|].
Qed.

Lemma run_job_ledger j s : ledger (run_job j s).2 = ledger s.
Proof.
  unfold run_job. destruct (func j).
  - apply keeps_ledger_publish_post_job.
  - apply keeps_ledger_publish_thread_job.
Qed.

Lemma one_trigger_per_job_id (m : gmap string Job) job_id j :
  m !! job_id = Some j →
  filter (λ kv, kv.1 = job_id) (map_to_list m) = [(job_id, j)].
Proof.
  intros Hj. apply Permutation_singleton_r.
  rewrite <- (map_to_list_delete m job_id j Hj), filter_cons_True by done.
  apply Permutation_skip.
  destruct (filter _ (map_to_list (delete job_id m))) as [|[k v] l] eqn:Hf; [done|].
  assert (Hin : (k, v) ∈ filter (λ kv, kv.1 = job_id) (map_to_list (delete job_id m)))
    by (rewrite Hf; left).
  apply list_elem_of_filter in Hin as [Hk Hin]. cbn in Hk. subst k.
  apply elem_of_map_to_list in Hin. by rewrite lookup_delete_eq in Hin.
Qed.

Lemma truthy_nonempty i : i ≠ "" → truthy (Some i) = true.
Proof. intros H. cbn. by apply negb_true_iff, String.eqb_neq. Qed.

Lemma jobs_admitted_post post pid s :
  jobs (admitted_post post pid s)
  = <["post_" +:+ pid :=
        mkJob publish_post_job (XPost.scheduled_date (post_objs s post)) pid]> (jobs s).
Proof. done. Qed.

Lemma posts_admitted_post post pid s :
  posts (admitted_post post pid s) = <[pid := post]> (posts s).
Proof. done. Qed.

(** C10.  Two successful calls of [schedule_post] for the same post
    identifier [pid], the second one before the trigger of the first has
    fired.  The second call books its own run date under the job id of the
    first: the job store holds exactly one trigger for this job id, the one
    with the run date of the second call; the dispatcher does nothing with it
    before that date (whether or not the run date of the first call has
    passed) and fires it from that date on. *)
Theorem reschedule_replaces_trigger s (post1 post2 : loc) (pid : string) s1 s2 :
  schedule_post post1 s = (Ok true, s1) →
  XPost.id (post_objs s1 post1) = Some pid →
  XPost.id (post_objs s1 post2) = Some pid →
  pid ≠ "" →
  schedule_post post2 s1 = (Ok true, s2) →
  let job_id := "post_" +:+ pid in
  let d1 := XPost.scheduled_date (post_objs s post1) in
  let d2 := XPost.scheduled_date (post_objs s1 post2) in
  jobs s1 !! job_id = Some (mkJob publish_post_job d1 pid)
  ∧ jobs s2 = <[job_id := mkJob publish_post_job d2 pid]> (jobs s1)
  ∧ filter (λ kv, kv.1 = job_id) (map_to_list (jobs s2))
    = [(job_id, mkJob publish_post_job d2 pid)]
  ∧ posts s2 !! pid = Some post2
  ∧ (∀ now, (now < d2)%Z → dispatch job_id now s2 = (Ok tt, s2))
  ∧ (∀ now, (d2 ≤ now)%Z →
       dispatch job_id now s2 = _publish_post_job pid (set_jobs (delete job_id) s2)).
Proof.
  intros Hrun1 Hid1 Hid2 Hpid Hrun2 job_id d1 d2.
  (* the first call *)
  destruct (schedule_post_cases post1 s)
    as [[_ Heq]|(_ & pid1 & s1' & Hens1 & [[_ Heq]|[_ Heq]])];
    rewrite Heq in Hrun1; try done. injection Hrun1 as <-.
  destruct (ensure_id_cases post1 s) as (? & ? & Heq' & Hpid1 & _).
  rewrite Hens1 in Heq'. injection Heq' as <- <-.
  destruct (ensure_id_frame _ _ _ _ Hens1) as (_ & _ & Hsame1).
  destruct (Hsame1 post1) as (_ & Hdate1 & _).
  cbn in Hid1. rewrite upd_same in Hid1. cbn in Hid1.
  rewrite Hpid1 in Hid1. injection Hid1 as ->.
  (* the second call *)
  destruct (schedule_post_cases post2 (admitted_post post1 pid s1'))
    as [[_ Heq2]|(_ & pid2 & s2' & Hens2 & [[_ Heq2]|[_ Heq2]])];
    rewrite Heq2 in Hrun2; try done. injection Hrun2 as <-.
  destruct (ensure_id_cases post2 (admitted_post post1 pid s1'))
    as (pid2' & s2'' & Heq' & _ & Hcases).
  rewrite Hens2 in Heq'. injection Heq' as <- <-.
  destruct Hcases as [(_ & Hsome & Hs2)|(Hfalsy & _)].
  2: { by rewrite Hid2, truthy_nonempty in Hfalsy. }
  subst s2'. rewrite Hid2 in Hsome. injection Hsome as <-.
  assert (Hjob2 : jobs (admitted_post post2 pid (admitted_post post1 pid s1')) !! job_id
                  = Some (mkJob publish_post_job d2 pid)).
  { rewrite jobs_admitted_post. apply lookup_insert_eq. }
  split; [rewrite jobs_admitted_post, Hdate1; apply lookup_insert_eq|].
  split; [done|].
  split; [by apply one_trigger_per_job_id|].
  split; [rewrite posts_admitted_post; apply lookup_insert_eq|].
  split.
  - intros now Hnow. by eapply dispatch_not_due.
  - intros now Hnow. by rewrite (dispatch_due _ _ _ _ Hjob2).
Qed.

(** C8.  [cancel_post] returns [False], leaving the state as it is, both for
    an identifier the registry never held and for a registered post whose
    trigger has fired: firing takes the trigger out of the job store, whatever
    the outcome of the publication, and [cancel_post] finds no job to
    remove.  The two returned values are the same, so the caller cannot tell
    the causes apart. *)
Theorem cancel_post_unknown_or_fired s (post_id : string) :
  (posts s !! post_id = None → cancel_post post_id s = (Ok false, s))
  ∧ (∀ post, posts s !! post_id = Some post →
       jobs s !! ("post_" +:+ post_id) = None →
       cancel_post post_id s = (Ok false, s))
  ∧ (∀ post j now,
       posts s !! post_id = Some post →
       jobs s !! ("post_" +:+ post_id) = Some j → (run_date j ≤ now)%Z →
       let fired := (dispatch ("post_" +:+ post_id) now s).2 in
       posts fired !! post_id = Some post
       ∧ jobs fired !! ("post_" +:+ post_id) = None
       ∧ cancel_post post_id fired = (Ok false, fired)
       ∧ ∀ unknown_id s0, posts s0 !! unknown_id = None →
           (cancel_post post_id fired).1 = (cancel_post unknown_id s0).1).
Proof.
  split; [apply cancel_post_unknown|].
  assert (Hgone : ∀ s' post, posts s' !! post_id = Some post →
            jobs s' !! ("post_" +:+ post_id) = None →
            cancel_post post_id s' = (Ok false, s')).
  { intros s' post Hreg Hjob.
    rewrite cancel_post_known by eauto. by rewrite set_jobs_delete_absent. }
  split; [apply Hgone|].
  intros post j now Hreg Hjob Hdue fired. subst fired.
  rewrite (dispatch_due _ _ _ _ Hjob Hdue).
  pose proof (run_job_ledger j (set_jobs (delete ("post_" +:+ post_id)) s)) as Hled.
  unfold ledger in Hled. cbn in Hled. injection Hled as Hp _ Hj _ _.
  assert (H1 : posts (run_job j (set_jobs (delete ("post_" +:+ post_id)) s)).2 !! post_id
               = Some post) by (by rewrite Hp).
  assert (H2 : jobs (run_job j (set_jobs (delete ("post_" +:+ post_id)) s)).2
                 !! ("post_" +:+ post_id) = None) by (by rewrite Hj, lookup_delete_eq).
  split; [done|]. split; [done|]. split; [by eapply Hgone|].
  intros unknown_id s0 Hunknown.
  by rewrite (Hgone _ _ H1 H2), cancel_post_unknown.
Qed.

(** ** Validation of the content *)

Lemma schedule_post_content post s l :
  XPost.content (post_objs (schedule_post post s).2 l) = XPost.content (post_objs s l).
Proof.
  destruct (schedule_post_cases post s)
    as [[_ ->]|(_ & pid & s1 & Hid & [[_ ->]|[_ ->]])]; [done|..];
    destruct (ensure_id_frame _ _ _ _ Hid) as (_ & _ & Hsame);
    destruct (Hsame l) as (Hcontent & _); cbn; [done|].
  unfold upd. by case_decide.
Qed.

(** C9.  The validator of [XPost] raises on a content of more than 280
    characters and returns a shorter content as it is.  So the construction of
    a post with an over-length content raises: there is no post object to
    hand to [schedule_post].  The construction of a post with a content
    within the limit succeeds and keeps the content, and [schedule_post]
    leaves the content of every post as it is: a post that was constructed
    and then scheduled has a content of at most 280 characters. *)
Theorem over_length_content_rejected (content : string) (now : datetime)
    (post_id : option string) (date : datetime) (tz : string)
    (thread_id : option string) (position : option Z) (title : option string)
    (media : option (list string)) :
  ((280 < String.length content)%nat →
     validate_content_length content = Raise (ValueError "Content exceeds 280 characters")
     ∧ XPost.new now post_id content date tz thread_id position title media
       = Raise (ValueError "Content exceeds 280 characters"))
  ∧ ((String.length content ≤ 280)%nat →
       validate_content_length content = Ok content
       ∧ ∃ p, XPost.new now post_id content date tz thread_id position title media = Ok p
              ∧ XPost.content p = content ∧ XPost.status p = PENDING)
  ∧ (∀ p s post,
       XPost.new now post_id content date tz thread_id position title media = Ok p →
       post_objs s post = p →
       let s' := (schedule_post post s).2 in
       XPost.content (post_objs s' post) = content
       ∧ (String.length (XPost.content (post_objs s' post)) ≤ 280)%nat).
Proof.
  unfold XPost.new, validate_content_length.
  destruct (Z.ltb_spec 280 (Z.of_nat (String.length content))) as [Hlong|Hshort].
  - split; [done|]. split; [intros; lia|]. by intros p s post [=].
  - split; [intros; lia|]. split.
    + intros _. split; [done|]. by eexists.
    + intros p s post [= <-] Hp. cbn zeta.
      rewrite schedule_post_content, Hp. cbn. split; [done|lia].
Qed.

(** ** One publication attempt in the trace *)

Lemma attempt_elem_of post o evs l o' :
  attempt post o evs → (l, o') ∈ tweets evs → l = post ∧ o' = o.
Proof.
  intros [_ [[-> _] | ->]]; [by intros ?%elem_of_nil|].
  by intros [= -> ->]%list_elem_of_singleton.
Qed.

End EngineFacts.

(** * Properties of the rest of the code *)

Section Coverage.
Context {C : Collaborators}.
Implicit Types (s : SchedulerService C).

(** ** What the operations never undo *)

Lemma run_call_grows c s :
  (monthly_post_count s ≤ monthly_post_count (run_call c s))%Z
  ∧ dom (posts s) ⊆ dom (posts (run_call c s))
  ∧ dom (threads s) ⊆ dom (threads (run_call c s)).
Proof.
  assert (Hjob : ∀ j s0, ledger (run_job j s0).2 = ledger s0) by apply run_job_ledger.
  destruct c as [post|thread|post_id|thread_id|post_id|thread_id|job_id now]; cbn.
  - destruct (schedule_post_cases post s)
      as [[_ ->]|(_ & pid & s1 & Hid & [[_ ->]|[_ ->]])]; [done|..];
      destruct (ensure_id_frame _ _ _ _ Hid) as (Hbooks & _);
      unfold books in Hbooks; injection Hbooks as _ Hp Ht _ Hc _; cbn;
      rewrite Hp, Ht, ?Hc, ?dom_insert; (split; [lia|]); split; set_solver.
  - destruct (schedule_thread_cases thread s)
      as [[_ ->]|(_ & _ & [[_ ->]|[_ ->]])]; [done|..]; cbn;
      rewrite ?dom_insert; (split; [lia|]); split; set_solver.
  - destruct (posts s !! post_id) eqn:Hreg.
    + by rewrite cancel_post_known.
    + by rewrite cancel_post_unknown.
  - destruct (threads s !! thread_id) eqn:Hreg.
    + by rewrite cancel_thread_known.
    + by rewrite cancel_thread_unknown.
  - pose proof (keeps_ledger_publish_post_job post_id s) as H.
    unfold ledger in H. injection H as -> -> _ -> _. done.
  - pose proof (keeps_ledger_publish_thread_job thread_id s) as H.
    unfold ledger in H. injection H as -> -> _ -> _. done.
  - unfold dispatch. unfold_monad.
    destruct (jobs s !! job_id) as [j|]; [|done].
    destruct (run_date j <=? now)%Z; [|done].
    specialize (Hjob j (set_jobs (delete job_id) s)).
    unfold ledger in Hjob. cbn in Hjob. injection Hjob as -> -> _ -> _. done.
Qed.

(** X1.  No sequence of operations lowers the quota counter: neither a
    cancellation nor a publication, failed or not, gives a unit back. *)
Theorem quota_counter_never_decreases (cs : list call) s :
  (monthly_post_count s ≤ monthly_post_count (run_calls cs s))%Z.
Proof.
  revert s. induction cs as [|c cs IH]; intros s; [done|].
  change (run_calls (c :: cs) s) with (run_calls cs (run_call c s)).
  destruct (run_call_grows c s) as (Hc & _). specialize (IH (run_call c s)). lia.
Qed.

(** X2.  No sequence of operations takes an identifier out of the posts
    registry or out of the threads registry. *)
Theorem registries_only_grow (cs : list call) s :
  dom (posts s) ⊆ dom (posts (run_calls cs s))
  ∧ dom (threads s) ⊆ dom (threads (run_calls cs s)).
Proof.
  revert s. induction cs as [|c cs IH]; intros s; [done|].
  change (run_calls (c :: cs) s) with (run_calls cs (run_call c s)).
  destruct (run_call_grows c s) as (_ & Hp & Ht).
  destruct (IH (run_call c s)) as [Hp' Ht']. split; by etrans.
Qed.

(** ** Admission, when it succeeds *)

Lemma get_post_lookup post_id s : get_post post_id s = (Ok (posts s !! post_id), s).
Proof. done. Qed.

Lemma get_thread_lookup thread_id s : get_thread thread_id s = (Ok (threads s !! thread_id), s).
Proof. done. Qed.

(** X3.  A successful [schedule_post]: the post keeps its identifier when it
    has one and gets the generated one otherwise; [get_post] of that
    identifier returns the post; the post is [SCHEDULED]; its trigger is
    booked under ["post_<id>"] for its run date; one unit is counted; every
    other post object, every other registry entry and every other trigger is
    as it was. *)
Theorem schedule_post_admits (post : loc) s s' :
  schedule_post post s = (Ok true, s') →
  ∃ pid,
    XPost.id (post_objs s' post) = Some pid
    ∧ (truthy (XPost.id (post_objs s post)) = true → XPost.id (post_objs s post) = Some pid)
    ∧ (truthy (XPost.id (post_objs s post)) = false → pid = (uuid4 C (ext s)).1)
    ∧ (get_post pid s').1 = Ok (Some post)
    ∧ XPost.status (post_objs s' post) = SCHEDULED
    ∧ jobs s' !! ("post_" +:+ pid)
      = Some (mkJob publish_post_job (XPost.scheduled_date (post_objs s post)) pid)
    ∧ monthly_post_count s' = (monthly_post_count s + 1)%Z
    ∧ (∀ l, l ≠ post → post_objs s' l = post_objs s l)
    ∧ (∀ k, k ≠ pid → posts s' !! k = posts s !! k)
    ∧ (∀ k, k ≠ "post_" +:+ pid → jobs s' !! k = jobs s !! k)
    ∧ threads s' = threads s ∧ thread_objs s' = thread_objs s.
Proof.
  intros Hrun.
  destruct (schedule_post_cases post s)
    as [[_ Heq]|(_ & pid & s1 & Hid & [[_ Heq]|[_ Heq]])];
    rewrite Heq in Hrun; try done. injection Hrun as <-.
  destruct (ensure_id_cases post s) as (pid' & s1' & Hid' & Hpid & Hcases).
  rewrite Hid in Hid'. injection Hid' as <- <-.
  destruct (ensure_id_frame _ _ _ _ Hid) as (Hbooks & _ & Hsame).
  destruct (Hsame post) as (_ & Hdate & _).
  unfold books in Hbooks. injection Hbooks as Hto Hp Ht Hj Hc _.
  exists pid. rewrite get_post_lookup, posts_admitted_post, jobs_admitted_post.
  cbn. rewrite upd_same, !lookup_insert_eq, Hdate, Hc, Ht, Hto, Hp, Hj. cbn.
  split; [done|]. split; [|split].
  - intros Htruthy. destruct Hcases as [(_ & H & _)|(H & _)]; [done|congruence].
  - intros Hfalsy. destruct Hcases as [(H & _)|(_ & H & _)]; [congruence|done].
  - do 4 (split; [done|]). split; [|split; [|split]].
    + intros l Hl. rewrite upd_other by done.
      destruct Hcases as [(_ & _ & ->)|(_ & _ & ->)]; [done|]. cbn. by rewrite upd_other.
    + intros k Hk. by rewrite lookup_insert_ne.
    + intros k Hk. by rewrite lookup_insert_ne.
    + done.
Qed.

(** X4.  A successful [schedule_post] for an identifier the registry already
    holds counts one more unit and leaves the registry with the same
    identifiers: the counter runs ahead of the number of registered posts. *)
Theorem reschedule_counts_again (post : loc) (pid : string) s s' :
  schedule_post post s = (Ok true, s') →
  XPost.id (post_objs s' post) = Some pid →
  is_Some (posts s !! pid) →
  dom (posts s') = dom (posts s)
  ∧ size (posts s') = size (posts s)
  ∧ monthly_post_count s' = (monthly_post_count s + 1)%Z.
Proof.
  intros Hrun Hid [old Hold].
  destruct (schedule_post_cases post s)
    as [[_ Heq]|(_ & pid1 & s1 & Hens & [[_ Heq]|[_ Heq]])];
    rewrite Heq in Hrun; try done. injection Hrun as <-.
  destruct (ensure_id_cases post s) as (pid' & s1' & Hid' & Hpid & _).
  rewrite Hens in Hid'. injection Hid' as <- <-.
  cbn in Hid. rewrite upd_same in Hid. cbn in Hid.
  rewrite Hpid in Hid. injection Hid as ->.
  destruct (ensure_id_frame _ _ _ _ Hens) as (Hbooks & _).
  unfold books in Hbooks. injection Hbooks as _ Hp _ _ Hc _.
  rewrite posts_admitted_post, Hp. cbn. rewrite Hc.
  assert (Hdom : dom (<[pid := post]> (posts s)) = dom (posts s)).
  { rewrite dom_insert_L. apply elem_of_dom_2 in Hold.
    apply subseteq_union_1_L. by apply singleton_subseteq_l. }
  split; [done|]. split; [|done].
  by rewrite <- !size_dom, Hdom.
Qed.

(** X5.  A successful [schedule_thread]: the thread has members and there
    was room for all of them; [get_thread] of its identifier returns it; it is
    [SCHEDULED] with the same members; its trigger is booked under
    ["thread_<id>"] for its run date; its members are counted.  No post
    object changes and the posts registry is as it was: the members keep
    their status and are not registered as posts. *)
Theorem schedule_thread_admits (thread : loc) s s' :
  schedule_thread thread s = (Ok true, s') →
  let th := thread_objs s thread in
  let units := Z.of_nat (length (XThread.posts th)) in
  XThread.posts th ≠ []
  ∧ (get_thread (XThread.id th) s').1 = Ok (Some thread)
  ∧ thread_objs s' thread = XThread.set_status SCHEDULED th
  ∧ jobs s' !! ("thread_" +:+ XThread.id th)
    = Some (mkJob publish_thread_job (XThread.scheduled_date th) (XThread.id th))
  ∧ monthly_post_count s' = (monthly_post_count s + units)%Z
  ∧ post_objs s' = post_objs s
  ∧ posts s' = posts s
  ∧ (∀ l, l ≠ thread → thread_objs s' l = thread_objs s l)
  ∧ (∀ k, k ≠ XThread.id th → threads s' !! k = threads s !! k).
Proof.
  intros Hrun th units.
  destruct (schedule_thread_cases thread s)
    as [[_ Heq]|(Hne & _ & [[_ Heq]|[_ Heq]])];
    rewrite Heq in Hrun; try done. injection Hrun as <-.
  rewrite get_thread_lookup. unfold admitted_thread. cbn.
  rewrite upd_same, !lookup_insert_eq. fold th.
  do 7 (split; [done|]). split.
  - intros l Hl. by rewrite upd_other.
  - intros k Hk. by rewrite lookup_insert_ne.
Qed.

(** ** The shape of the trace of a publication *)

Lemma requests_app evs1 evs2 : requests (evs1 ++ evs2) = requests evs1 ++ requests evs2.
Proof. induction evs1 as [|[] evs1 IH]; cbn; by rewrite ?IH. Qed.

Lemma sleeps_app evs1 evs2 : sleeps (evs1 ++ evs2) = sleeps evs1 ++ sleeps evs2.
Proof. induction evs1 as [|[] evs1 IH]; cbn; by rewrite ?IH. Qed.

Lemma uploaded_app evs1 evs2 : uploaded (evs1 ++ evs2) = uploaded evs1 ++ uploaded evs2.
Proof. induction evs1 as [|[| ? ? []|] evs1 IH]; cbn; by rewrite ?IH. Qed.

Lemma media_failed_app evs1 evs2 :
  media_failed (evs1 ++ evs2) ↔ media_failed evs1 ∨ media_failed evs2.
Proof. apply Exists_app. Qed.

Lemma paced_app rested evs1 evs2 :
  paced rested (evs1 ++ evs2)
  = paced rested evs1 && paced (rested_after rested evs1) evs2.
Proof.
  revert rested. induction evs1 as [|[] evs1 IH]; intros rested; cbn; [done|..];
    rewrite ?IH; by rewrite ?andb_assoc.
Qed.

Lemma rested_after_app rested evs1 evs2 :
  rested_after rested (evs1 ++ evs2) = rested_after (rested_after rested evs1) evs2.
Proof. revert rested. induction evs1 as [|[] evs1 IH]; intros rested; cbn; by rewrite ?IH. Qed.

(** Media transfers are no requests, no sleeps, and do not wear a sleep out. *)
Lemma media_only_quiet who evs :
  media_only who evs →
  requests evs = [] ∧ sleeps evs = [] ∧ tweets evs = []
  ∧ (∀ rested, paced rested evs = true ∧ rested_after rested evs = rested).
Proof.
  induction 1 as [|e evs (u & o & ->) _ (IH1 & IH2 & IH3 & IH4)]; [done|].
  cbn. by repeat split; try apply IH4.
Qed.

Lemma not_media_failed_tweet who text media reply outcome :
  ¬ media_failed [EvTweet who text media reply outcome].
Proof.
  intros [(? & ? & ? & [=])|[]%Exists_nil]%Exists_cons.
Qed.

Lemma upload_each_trace who urls acc s r s1 :
  upload_each who urls acc s = (r, s1) →
  ∃ evs, emitted s s1 evs ∧ media_only who evs ∧ post_objs s1 = post_objs s
    ∧ match r with
      | Ok ids => ¬ media_failed evs ∧ ids = acc ++ uploaded evs
      | Raise _ => media_failed evs
      end.
Proof.
  revert acc s r s1.
  induction urls as [|u urls IH]; intros acc s r s1; cbn [upload_each].
  - intros [= <- <-]. exists []. split; [apply emitted_refl|]. split; [constructor|].
    split; [done|]. split; [by intros ?%Exists_nil|by rewrite app_nil_r].
  - assert (Hstep : ∀ (call : loc → string → M C Z) s0,
      (∀ r0 s2, call who u s0 = (r0, s2) →
                emitted s0 s2 [EvMedia who u r0] ∧ post_objs s2 = post_objs s0) →
      (call who u ≫= λ m, upload_each who urls (acc ++ [m])) s0 = (r, s1) →
      ∃ evs, emitted s0 s1 evs ∧ media_only who evs ∧ post_objs s1 = post_objs s0
        ∧ match r with
          | Ok ids => ¬ media_failed evs ∧ ids = acc ++ uploaded evs
          | Raise _ => media_failed evs
          end).
    { intros call s0 Hcall [(m & s2 & Hc & Hk)|(e & Hc & ->)]%bind_inv;
        apply Hcall in Hc as [Hem Hobj].
      - apply IH in Hk as (evs & Hem' & Hmo & Hobj' & Hr).
        exists ([EvMedia who u (Ok m)] ++ evs). split; [by eapply emitted_trans|].
        split; [by apply media_only_cons|]. split; [congruence|].
        destruct r as [ids|e].
        + destruct Hr as [Hnf ->]. split; [|by rewrite <- app_assoc].
          intros [(? & ? & ? & [=])|?]%Exists_cons. by apply Hnf.
        + by apply Exists_cons_tl.
      - exists [EvMedia who u (Raise e)]. split; [done|].
        split; [apply media_only_cons; constructor|]. split; [done|].
        apply Exists_cons_hd. by eauto. }
    destruct (is_remote u).
    + apply Hstep. intros r0 s2. apply call_fetch_and_upload_spec.
    + intros [(? & ? & [= <- <-] & Hk)|(e & [=] & _)]%bind_inv.
      destruct (path_exists C (ext s) u); [|by eapply IH].
      revert Hk. apply Hstep. intros r0 s2. apply call_media_upload_spec.
Qed.

Lemma handle_media_trace post s r s1 :
  handle_media post s = (r, s1) →
  ∃ evs, emitted s s1 evs ∧ media_only post evs ∧ post_objs s1 = post_objs s
    ∧ match r with
      | Ok ids => ¬ media_failed evs ∧ ids = uploaded evs
      | Raise _ => media_failed evs
      end.
Proof.
  unfold handle_media.
  intros [(p & ? & [= <- <-] & Hk)|(e & [=] & _)]%bind_inv.
  assert (Hnone : (mret [] : M C (list Z)) s = (r, s1) →
    ∃ evs, emitted s s1 evs ∧ media_only post evs ∧ post_objs s1 = post_objs s
      ∧ match r with
        | Ok ids => ¬ media_failed evs ∧ ids = uploaded evs
        | Raise _ => media_failed evs
        end).
  { intros [= <- <-]. exists []. split; [apply emitted_refl|]. split; [constructor|].
    split; [done|]. split; [by intros ?%Exists_nil|done]. }
  destruct (XPost.media_urls (post_objs s post)) as [[|u us]|]; [by apply Hnone| |by apply Hnone].
  by apply upload_each_trace in Hk.
Qed.

(** What [send_tweet] leaves in the trace: the media transfers, and, when
    all of them went through, one request with the content of the post, the
    identifiers of the media and the given [in_reply_to_tweet_id]. *)
Lemma send_tweet_trace post reply s r s1 :
  send_tweet post reply s = (r, s1) →
  post_objs s1 = post_objs s
  ∧ ∃ evs0, media_only post evs0
      ∧ ((media_failed evs0 ∧ emitted s s1 evs0 ∧ ∃ e, r = Raise e)
         ∨ (¬ media_failed evs0
            ∧ ∃ outcome,
                emitted s s1
                  (evs0 ++ [EvTweet post (XPost.content (post_objs s post))
                              (media_arg (uploaded evs0)) reply outcome])
                ∧ r = match outcome with
                      | Ok response => response_id response
                      | Raise e => Raise e
                      end)).
Proof.
  unfold send_tweet.
  intros [(ids & s0 & Hm & Hk)|(e & Hm & ->)]%bind_inv;
    apply handle_media_trace in Hm as (evs0 & Hem0 & Hmo & Hobj0 & Hr).
  2: { split; [done|]. exists evs0. split; [done|]. left. by eauto. }
  destruct Hr as [Hnf ->].
  apply bind_inv in Hk as [(p & s2 & Hp & Hk)|(e & Hp & _)]; [|done].
  injection Hp as <- <-. rewrite Hobj0 in Hk.
  apply bind_inv in Hk as [(resp & s2 & Hc & Hk)|(e & Hc & ->)];
    apply call_create_tweet_spec in Hc as [Hem Hobj].
  - unfold lift in Hk. injection Hk as <- <-.
    split; [congruence|]. exists evs0. split; [done|]. right. split; [done|].
    exists (Ok resp). split; [by eapply emitted_trans|done].
  - split; [congruence|]. exists evs0. split; [done|]. right. split; [done|].
    exists (Raise e). split; [by eapply emitted_trans|done].
Qed.

Lemma outcome_id_result (outcome : result Response) (found : option string) :
  match outcome with Ok response => response_id response | Raise e => Raise e end
    = Ok found →
  outcome_id outcome = found.
Proof.
  unfold outcome_id. destruct outcome as [resp|e]; [|done]. by intros ->.
Qed.

Lemma outcome_id_raise (outcome : result Response) (e : exn) :
  match outcome with Ok response => response_id response | Raise e => Raise e end
    = Raise e →
  outcome_id outcome = None.
Proof.
  unfold outcome_id. destruct outcome as [resp|e']; [|done]. by intros ->.
Qed.

(** The two ways [publish_post] goes. *)
Lemma publish_post_shape post s r s1 :
  publish_post post s = (r, s1) →
  post_objs s1 = post_objs s
  ∧ ∃ evs0, media_only post evs0
      ∧ ((media_failed evs0 ∧ emitted s s1 evs0 ∧ r = Ok None)
         ∨ (¬ media_failed evs0
            ∧ ∃ outcome,
                emitted s s1
                  (evs0 ++ [EvTweet post (XPost.content (post_objs s post))
                              (media_arg (uploaded evs0)) None outcome])
                ∧ r = Ok (outcome_id outcome))).
Proof.
  unfold publish_post.
  intros [(o & Hb & ->)|(e & s0 & Hb & [= <- <-])]%try_inv.
  - apply bind_inv in Hb as [(found & s0 & Hs & Hk)|(e & Hs & [=])].
    assert (o = found ∧ s1 = s0) as [-> ->] by (destruct found; by injection Hk).
    apply send_tweet_trace in Hs as (Hobj & evs0 & Hmo & [(_ & _ & e & [=])|(Hnf & outcome & Hem & Hr)]).
    split; [done|]. exists evs0. split; [done|]. right. split; [done|].
    exists outcome. split; [done|]. symmetry in Hr. by rewrite (outcome_id_result _ _ Hr).
  - apply bind_inv in Hb as [(found & s2 & Hs & Hk)|(e' & Hs & _)];
      [destruct found; by injection Hk|].
    apply send_tweet_trace in Hs as (Hobj & evs0 & Hmo & [(Hf & Hem & _)|(Hnf & outcome & Hem & Hr)]);
      (split; [done|]); exists evs0; (split; [done|]); [left; by split|].
    right. split; [done|]. exists outcome. split; [done|].
    symmetry in Hr. by rewrite (outcome_id_raise _ _ Hr).
Qed.

(** The two ways a turn of the reply loop goes. *)
Lemma publish_reply_shape prev post s r s1 :
  publish_reply prev post s = (r, s1) →
  ∃ evs0, media_only post evs0
    ∧ ((media_failed evs0 ∧ emitted s s1 (EvSleep 2 :: evs0) ∧ r = Ok None
        ∧ post_objs s1 = post_objs s)
       ∨ (¬ media_failed evs0
          ∧ ∃ outcome,
              emitted s s1
                (EvSleep 2 :: evs0
                 ++ [EvTweet post (XPost.content (post_objs s post))
                       (media_arg (uploaded evs0)) (Some prev) outcome])
              ∧ r = Ok (outcome_id outcome)
              ∧ post_objs s1 =
                  match outcome_id outcome with
                  | Some i => upd post (XPost.set_status PUBLISHED)
                                (upd post (XPost.set_x_post_id (Some i)) (post_objs s))
                  | None => post_objs s
                  end)).
Proof.
  unfold publish_reply, sleep.
  intros [([] & s0 & [= <-] & Hk)|(e & [=] & _)]%bind_inv.
  assert (Hshift : ∀ s' evs, emitted (log (EvSleep 2) s) s' evs →
                             emitted s s' (EvSleep 2 :: evs)).
  { intros s' evs. unfold emitted. cbn. intros ->. by rewrite <- app_assoc. }
  apply try_inv in Hk as [(o & Hb & ->)|(e & s2 & Hb & [= <- <-])].
  - apply bind_inv in Hb as [(found & s2 & Hs & Hk)|(e & Hs & [=])].
    apply send_tweet_trace in Hs
      as (Hobj & evs0 & Hmo & [(_ & _ & e & [=])|(Hnf & outcome & Hem & Hr)]).
    exists evs0. split; [done|]. right. split; [done|]. exists outcome.
    symmetry in Hr. rewrite (outcome_id_result _ _ Hr).
    destruct found as [i|]; cbn in Hk.
    + unfold_monad. rewrite (assign_post_status_member _ _ PUBLISHED) in Hk by done.
      injection Hk as <- <-. split; [by apply Hshift, Hem|]. split; [done|].
      cbn. by rewrite Hobj.
    + injection Hk as <- <-. split; [by apply Hshift|]. by split.
  - apply bind_inv in Hb as [(found & s3 & Hs & Hk)|(e' & Hs & _)].
    + destruct found as [i|]; cbn in Hk; [|done].
      unfold_monad. by rewrite (assign_post_status_member _ _ PUBLISHED) in Hk.
    + apply send_tweet_trace in Hs
        as (Hobj & evs0 & Hmo & [(Hf & Hem & _)|(Hnf & outcome & Hem & Hr)]);
        exists evs0; (split; [done|]).
      * left. split; [done|]. split; [by apply Hshift|]. by split.
      * right. split; [done|]. exists outcome. symmetry in Hr.
        rewrite (outcome_id_raise _ _ Hr). split; [by apply Hshift|]. by split.
Qed.

(** ** What a publication leaves alone *)

(** X6.  [publish_post] changes no post object and nothing of the engine's
    books (thread objects, registries, job store, quota counter, ceiling);
    [publish_thread] changes nothing of the books and no post object outside
    the thread; the two firing callbacks change neither registry, nor the job
    store, nor the quota counter. *)
Theorem publication_frame s (post thread : loc) (entity_id : string) :
  post_objs (publish_post post s).2 = post_objs s
  ∧ books (publish_post post s).2 = books s
  ∧ books (publish_thread thread s).2 = books s
  ∧ (∀ l, l ∉ XThread.posts (thread_objs s thread) →
          post_objs (publish_thread thread s).2 l = post_objs s l)
  ∧ ledger (_publish_post_job entity_id s).2 = ledger s
  ∧ ledger (_publish_thread_job entity_id s).2 = ledger s.
Proof.
  split.
  { destruct (publish_post post s) as [r s1] eqn:Hp.
    by apply publish_post_shape in Hp as [Hobj _]. }
  split; [apply keeps_books_publish_post|].
  split; [apply keeps_books_publish_thread|].
  split.
  { intros l Hl. destruct (publish_thread thread s) as [r s1] eqn:Hp.
    apply publish_thread_spec in Hp as (b & evs & _ & _ & _ & _ & _ & Hframe).
    apply Hframe. by rewrite sorted_perm. }
  split; [apply keeps_ledger_publish_post_job|apply keeps_ledger_publish_thread_job].
Qed.

(** ** [publish_post] and the media *)

(** X7.  When a media transfer of [publish_post] raises, the X client is
    not called at all and the result is [None]; when none raises, the X
    client is called exactly once, for this post, with the content of the
    post, with the identifiers of the media that were transferred, in order
    ([None] when there is none), and with no [in_reply_to_tweet_id]; the
    result is the identifier of the response, if it has one. *)
Theorem publish_post_request (post : loc) s (evs : list event) :
  emitted s (publish_post post s).2 evs →
  (media_failed evs →
     requests evs = [] ∧ (publish_post post s).1 = Ok None)
  ∧ (¬ media_failed evs →
       requests evs
       = [(post, XPost.content (post_objs s post), media_arg (uploaded evs), None)]
       ∧ ∃ o, tweets evs = [(post, o)] ∧ (publish_post post s).1 = Ok o).
Proof.
  destruct (publish_post post s) as [r s1] eqn:Hp. cbn. intros Hem.
  apply publish_post_shape in Hp
    as (_ & evs0 & Hmo & [(Hf & Hem' & ->)|(Hnf & outcome & Hem' & ->)]);
    rewrite (emitted_inj _ _ _ _ Hem Hem');
    destruct (media_only_quiet _ _ Hmo) as (Hreq & _ & Htw & _).
  - split; [by intros _|]. by intros [].
  - split.
    + intros [?|Hf]%media_failed_app; [done|]. by apply not_media_failed_tweet in Hf.
    + intros _. rewrite requests_app, uploaded_app, tweets_app, Hreq, Htw. cbn.
      rewrite app_nil_r. split; [done|]. by eexists.
Qed.

(** ** [publish_thread], step by step *)

Lemma publish_thread_cases thread s r s1 :
  publish_thread thread s = (r, s1) →
  let members :=
    sorted (λ p, position_key (post_objs s p)) (XThread.posts (thread_objs s thread)) in
  (members = [] ∧ r = Ok false ∧ s1 = s)
  ∨ ∃ first rest o s0,
      members = first :: rest ∧ publish_post first s = (Ok o, s0)
      ∧ ((truthy o = false ∧ r = Ok false ∧ s1 = s0)
         ∨ (truthy o = true
            ∧ publish_replies (default "" o) rest
                (set_post_objs (upd first (XPost.set_status PUBLISHED))
                   (set_post_objs (upd first (XPost.set_x_post_id o)) s0))
              = (r, s1))).
Proof.
  intros Hrun. cbn zeta. unfold publish_thread in Hrun.
  apply bind_inv in Hrun as [(th & ? & [= <- <-] & Hk)|(e & [=] & _)].
  destruct (XThread.posts (thread_objs s thread)) as [|l0 ls] eqn:Hposts.
  { injection Hk as <- <-. by left. }
  destruct (sorted (λ p, position_key (post_objs s p)) (l0 :: ls))
    as [|first rest] eqn:Hmem.
  { by apply sorted_nil_inv in Hmem. }
  right.
  assert (Hpost : ∃ o s0, publish_post first s = (Ok o, s0)).
  { destruct (publish_post first s) as [r0 s0] eqn:Hp.
    destruct (publish_post_spec _ _ _ _ Hp) as (o & ? & -> & _). by eauto. }
  destruct Hpost as (o & s0 & Hpost).
  exists first, rest, o, s0. split; [done|]. split; [done|].
  apply try_inv in Hk as [(b & Hb & ->)|(e & s2 & Hb & _)].
  - apply bind_inv in Hb as [(? & ? & [= <- <-] & Hk)|(e & [=] & _)].
    rewrite Hmem in Hk.
    apply bind_inv in Hk as [(o' & s0' & Hp & Hk)|(e & Hp & [=])].
    rewrite Hpost in Hp. injection Hp as <- <-.
    destruct (truthy o); cbn [negb] in Hk.
    + right. split; [done|].
      apply bind_inv in Hk as [([] & ? & [= <-] & Hk)|(e & [=] & _)].
      apply bind_inv in Hk as [([] & s3 & Ha & Hk)|(e & Ha & [=])].
      rewrite (assign_post_status_member _ _ PUBLISHED) in Ha by done.
      by injection Ha as <-.
    + left. by injection Hk as <- <-.
  - exfalso.
    apply bind_inv in Hb as [(? & ? & [= <- <-] & Hk)|(e' & [=] & _)].
    rewrite Hmem in Hk.
    apply bind_inv in Hk as [(o' & s0' & Hp & Hk)|(e' & Hp & _)];
      [|by rewrite Hpost in Hp].
    destruct (negb (truthy o')); [done|].
    apply bind_inv in Hk as [([] & ? & [= <-] & Hk)|(e' & [=] & _)].
    apply bind_inv in Hk as [([] & s3 & Ha & Hk)|(e' & Ha & _)].
    2: { by rewrite (assign_post_status_member _ _ PUBLISHED) in Ha. }
    by apply publish_replies_spec in Hk as (? & ? & [=] & _).
Qed.

Lemma publish_replies_chain rest prev s r s1 evs :
  publish_replies prev rest s = (r, s1) → emitted s s1 evs →
  (requests evs).*2 = take (length (tweets evs)) (Some prev :: (tweets evs).*2)
  ∧ Forall (λ seconds, seconds = 2) (sleeps evs)
  ∧ paced false evs = true
  ∧ (r = Ok true →
       length (sleeps evs) = length rest
       ∧ (NoDup rest →
          Forall2 (λ l t, t.1 = l ∧ is_Some t.2
                          ∧ XPost.status (post_objs s1 l) = PUBLISHED
                          ∧ XPost.x_post_id (post_objs s1 l) = t.2)
            rest (tweets evs))).
Proof.
  revert prev s r s1 evs.
  induction rest as [|post rest IH]; intros prev s r s1 evs; cbn [publish_replies].
  - intros [= <- <-] Hem. rewrite (emitted_inj _ _ _ _ Hem (emitted_refl s)).
    cbn. repeat split; by constructor.
  - intros [(o & s2 & Hr & Hk)|(e & Hr & ->)]%bind_inv Hem.
    2: { by apply publish_reply_spec in Hr as (? & ? & [=] & _). }
    apply publish_reply_shape in Hr
      as (evs0 & Hmo & [(_ & Hem0 & [= ->] & Hobj)|(_ & outcome & Hem0 & [= ->] & Hobj)]);
      destruct (media_only_quiet _ _ Hmo) as (Hreq & Hsl & Htw & Hpaced);
      destruct (Hpaced true) as [Hp1 Hp2].
    + injection Hk as <- <-. rewrite (emitted_inj _ _ _ _ Hem Hem0). cbn.
      rewrite Hreq, Hsl, Htw, Hp1. cbn. repeat split; try done. by repeat constructor.
    + destruct (outcome_id outcome) as [i|] eqn:Hout.
      * destruct (publish_replies_spec _ _ _ _ _ Hk)
          as (b & evs' & -> & Hem' & _ & _ & _ & Hframe).
        destruct (IH _ _ _ _ _ Hk Hem') as (Hchain & Hsleeps & Hpace & Htrue).
        rewrite (emitted_inj _ _ _ _ Hem (emitted_trans _ _ _ _ _ Hem0 Hem')).
        cbn. rewrite !requests_app, !sleeps_app, !tweets_app, !paced_app,
          !rested_after_app, Hreq, Hsl, Htw, Hp1, Hp2. cbn.
        rewrite Hout, Hchain, Hpace. cbn.
        split; [done|]. split; [by constructor|]. split; [done|].
        intros Hb. destruct (Htrue Hb) as [Hlen Hall]. split; [by rewrite Hlen|].
        intros [Hnotin Hnd]%NoDup_cons. constructor; [|by apply Hall].
        cbn. rewrite Hframe, Hobj by done. rewrite !upd_same. cbn. by eauto.
      * injection Hk as <- <-. rewrite (emitted_inj _ _ _ _ Hem Hem0). cbn.
        rewrite !requests_app, !sleeps_app, !tweets_app, !paced_app, Hreq, Hsl, Htw, Hp1, Hp2.
        cbn. rewrite Hout. repeat split; try done. by repeat constructor.
Qed.

(** X8.  In a publication of a thread, the request for the first member
    carries no [in_reply_to_tweet_id] and every later request carries the
    remote identifier the request before it obtained: the members form one
    reply chain, in the order of the walk. *)
Theorem thread_replies_chain (thread : loc) s (evs : list event) :
  emitted s (publish_thread thread s).2 evs →
  (requests evs).*2 = take (length (tweets evs)) (None :: (tweets evs).*2).
Proof.
  destruct (publish_thread thread s) as [r s1] eqn:Hp. cbn. intros Hem.
  apply publish_thread_cases in Hp
    as [(_ & _ & ->)|(first & rest & o & s0 & _ & Hpost & Hcases)].
  { by rewrite (emitted_inj _ _ _ _ Hem (emitted_refl s)). }
  apply publish_post_shape in Hpost
    as (_ & evs0 & Hmo & [(_ & Hem0 & [= ->])|(_ & outcome & Hem0 & [= ->])]);
    destruct (media_only_quiet _ _ Hmo) as (Hreq & _ & Htw & _).
  - destruct Hcases as [(_ & _ & ->)|([=] & _)].
    by rewrite (emitted_inj _ _ _ _ Hem Hem0), Hreq, Htw.
  - destruct Hcases as [(_ & _ & ->)|(Htruthy & Hrest)].
    + rewrite (emitted_inj _ _ _ _ Hem Hem0), requests_app, tweets_app, Hreq, Htw. done.
    + destruct (publish_replies_spec _ _ _ _ _ Hrest) as (b & evs' & -> & Hem' & _).
      destruct (publish_replies_chain _ _ _ _ _ _ Hrest Hem') as (Hchain & _).
      rewrite (emitted_inj _ _ _ _ Hem (emitted_trans _ _ _ _ _ Hem0 Hem')).
      rewrite !requests_app, !tweets_app, Hreq, Htw. cbn. rewrite Hchain.
      destruct (outcome_id outcome) as [i|]; done.
Qed.

(** X9.  In a publication of a thread, the process sleeps two seconds
    before each request that follows another one: no two requests go to the
    X client without a sleep of their own in between, and every sleep lasts
    two seconds.  A publication that succeeds sleeps once per member after the
    first. *)
Theorem thread_requests_paced (thread : loc) s (evs : list event) :
  emitted s (publish_thread thread s).2 evs →
  paced true evs = true
  ∧ Forall (λ seconds, seconds = 2) (sleeps evs)
  ∧ ((publish_thread thread s).1 = Ok true →
       S (length (sleeps evs)) = length (XThread.posts (thread_objs s thread))).
Proof.
  destruct (publish_thread thread s) as [r s1] eqn:Hp. cbn. intros Hem.
  apply publish_thread_cases in Hp
    as [(_ & -> & ->)|(first & rest & o & s0 & Hmem & Hpost & Hcases)].
  { rewrite (emitted_inj _ _ _ _ Hem (emitted_refl s)). by repeat split. }
  assert (Hlen : length (XThread.posts (thread_objs s thread)) = S (length rest)).
  { by rewrite <- (sorted_length (λ p, position_key (post_objs s p))), Hmem. }
  apply publish_post_shape in Hpost
    as (_ & evs0 & Hmo & [(_ & Hem0 & [= ->])|(_ & outcome & Hem0 & [= ->])]);
    destruct (media_only_quiet _ _ Hmo) as (_ & Hsl & _ & Hpaced);
    destruct (Hpaced true) as [Hp1 Hp2].
  - destruct Hcases as [(_ & -> & ->)|([=] & _)].
    rewrite (emitted_inj _ _ _ _ Hem Hem0), Hsl, Hp1. by repeat split.
  - destruct Hcases as [(_ & -> & ->)|(Htruthy & Hrest)].
    + rewrite (emitted_inj _ _ _ _ Hem Hem0), sleeps_app, paced_app, Hsl, Hp1, Hp2.
      by repeat split.
    + destruct (publish_replies_spec _ _ _ _ _ Hrest) as (b & evs' & -> & Hem' & _).
      destruct (publish_replies_chain _ _ _ _ _ _ Hrest Hem')
        as (_ & Hsleeps & Hpace & Htrue).
      rewrite (emitted_inj _ _ _ _ Hem (emitted_trans _ _ _ _ _ Hem0 Hem')).
      rewrite !sleeps_app, !paced_app, !rested_after_app, Hsl, Hp1, Hp2. cbn.
      split; [done|]. split; [done|].
      intros Hb. destruct (Htrue Hb) as [-> _]. by rewrite Hlen.
Qed.

(** X10.  A publication of a thread that succeeds, for a thread whose
    members are distinct post objects: the X client was called once for each
    member, in the order of the walk, every call gave a remote identifier, and
    every member is [PUBLISHED] with the identifier of its own call
    recorded. *)
Theorem thread_success_publishes_members (thread : loc) s s1 (evs : list event) :
  publish_thread thread s = (Ok true, s1) →
  emitted s s1 evs →
  NoDup (XThread.posts (thread_objs s thread)) →
  Forall2 (λ l t, t.1 = l ∧ is_Some t.2
                  ∧ XPost.status (post_objs s1 l) = PUBLISHED
                  ∧ XPost.x_post_id (post_objs s1 l) = t.2)
    (sorted (λ p, position_key (post_objs s p)) (XThread.posts (thread_objs s thread)))
    (tweets evs).
Proof.
  intros Hp Hem Hnd.
  rewrite <- (sorted_perm (λ p, position_key (post_objs s p))) in Hnd.
  apply publish_thread_cases in Hp
    as [(_ & [=] & _)|(first & rest & o & s0 & Hmem & Hpost & Hcases)].
  rewrite Hmem in Hnd |- *. apply NoDup_cons in Hnd as [Hnotin Hnd].
  destruct Hcases as [(_ & [=] & _)|(Htruthy & Hrest)].
  apply publish_post_shape in Hpost
    as (Hobj0 & evs0 & Hmo & [(_ & _ & [= ->])|(_ & outcome & Hem0 & [= ->])]); [done|].
  destruct (media_only_quiet _ _ Hmo) as (_ & _ & Htw & _).
  destruct (publish_replies_spec _ _ _ _ _ Hrest)
    as (b & evs' & _ & Hem' & _ & _ & _ & Hframe).
  destruct (publish_replies_chain _ _ _ _ _ _ Hrest Hem') as (_ & _ & _ & Htrue).
  destruct (Htrue eq_refl) as [_ Hall].
  rewrite (emitted_inj _ _ _ _ Hem (emitted_trans _ _ _ _ _ Hem0 Hem')).
  rewrite !tweets_app, Htw. cbn. constructor; [|by apply Hall].
  cbn. rewrite Hframe by done. cbn. rewrite !upd_same. cbn.
  destruct (outcome_id outcome) as [i|]; [by eauto|done].
Qed.

(** X11.  When the call for the first member of a thread does not give a
    non-empty remote identifier, [publish_thread] returns [False] at once:
    it does not sleep, makes no call for another member, and leaves every post
    object as it was. *)
Theorem first_member_failure_stops_thread (thread first : loc) (rest : list loc)
    s (evs : list event) :
  sorted (λ p, position_key (post_objs s p)) (XThread.posts (thread_objs s thread))
    = first :: rest →
  emitted s (publish_thread thread s).2 evs →
  (∀ i, i ≠ "" → (first, Some i) ∉ tweets evs) →
  (publish_thread thread s).1 = Ok false
  ∧ post_objs (publish_thread thread s).2 = post_objs s
  ∧ sleeps evs = []
  ∧ Forall (λ e, event_who e = Some first) evs
  ∧ (length (requests evs) ≤ 1)%nat.
Proof.
  destruct (publish_thread thread s) as [r s1] eqn:Hp. cbn. intros Hmem Hem Hfail.
  apply publish_thread_cases in Hp
    as [(Hnil & _)|(first' & rest' & o & s0 & Hmem' & Hpost & Hcases)].
  { by rewrite Hmem in Hnil. }
  rewrite Hmem in Hmem'. injection Hmem' as <- <-.
  apply publish_post_shape in Hpost
    as (Hobj & evs0 & Hmo & [(_ & Hem0 & [= ->])|(_ & outcome & Hem0 & [= ->])]);
    destruct (media_only_quiet _ _ Hmo) as (Hreq & Hsl & Htw & _).
  - destruct Hcases as [(_ & -> & ->)|([=] & _)].
    rewrite (emitted_inj _ _ _ _ Hem Hem0), Hreq, Hsl.
    do 3 (split; [done|]). split; [by apply media_only_who|cbn; lia].
  - destruct Hcases as [(_ & -> & ->)|(Htruthy & Hrest)].
    + rewrite (emitted_inj _ _ _ _ Hem Hem0), requests_app, sleeps_app, Hreq, Hsl.
      do 3 (split; [done|]). split; [|cbn; lia].
      apply Forall_app. split; [by apply media_only_who|]. by repeat constructor.
    + exfalso. destruct (outcome_id outcome) as [i|] eqn:Hout; [|done].
      destruct (publish_replies_spec _ _ _ _ _ Hrest) as (b & evs' & _ & Hem' & _).
      apply (Hfail i).
      * intros ->. done.
      * rewrite (emitted_inj _ _ _ _ Hem (emitted_trans _ _ _ _ _ Hem0 Hem')).
        rewrite !tweets_app, Htw. cbn. rewrite Hout. left.
Qed.

(** X12.  A thread without members: [schedule_thread] refuses it and
    changes nothing; [publish_thread] returns [False] and does nothing, no
    call and no sleep; and the firing callback of a registered thread that has
    no members does nothing but mark the thread [FAILED]. *)
Theorem empty_thread_goes_nowhere (thread : loc) (thread_id : string) s :
  XThread.posts (thread_objs s thread) = [] →
  schedule_thread thread s = (Ok false, s)
  ∧ publish_thread thread s = (Ok false, s)
  ∧ (threads s !! thread_id = Some thread →
     _publish_thread_job thread_id s
     = (Ok tt, set_thread_objs (upd thread (XThread.set_status FAILED)) s)).
Proof.
  intros Hempty.
  assert (Hpub : publish_thread thread s = (Ok false, s)).
  { unfold publish_thread. unfold_monad. by rewrite Hempty. }
  split; [by rewrite schedule_thread_unfold; cbn zeta; rewrite Hempty|].
  split; [done|].
  intros Hreg. destruct (publish_thread_job_known _ _ _ Hreg) as (b & s0 & Hp & ->).
  rewrite Hpub in Hp. by injection Hp as <- <-.
Qed.

(** ** The HTTP endpoints *)

Lemma cancel_post_result post_id s : (cancel_post post_id s).1 = Ok false.
Proof.
  destruct (posts s !! post_id) eqn:Hreg.
  - by rewrite cancel_post_known.
  - by rewrite cancel_post_unknown.
Qed.

Lemma cancel_thread_result thread_id s : (cancel_thread thread_id s).1 = Ok false.
Proof.
  destruct (threads s !! thread_id) eqn:Hreg.
  - by rewrite cancel_thread_known.
  - by rewrite cancel_thread_unknown.
Qed.

(** X13.  The two cancellation endpoints answer 404 for every identifier in
    every state of the engine: the success branch of the handlers is never
    taken. *)
Theorem cancel_endpoints_always_404 (entity_id : string) s :
  (Api.cancel_post entity_id s).1
  = Ok (HTTPException 404 "Post not found or could not be cancelled")
  ∧ (Api.cancel_thread entity_id s).1
    = Ok (HTTPException 404 "Thread not found or could not be cancelled").
Proof.
  unfold Api.cancel_post, Api.cancel_thread. unfold_monad.
  pose proof (cancel_post_result entity_id s) as Hp.
  pose proof (cancel_thread_result entity_id s) as Ht.
  destruct (cancel_post entity_id s) as [rp sp].
  destruct (cancel_thread entity_id s) as [rt st].
  cbn in *. by subst.
Qed.

Lemma run_calls_registered (cs : list call) s :
  dom (posts s) ⊆ dom (posts (run_calls cs s))
  ∧ dom (threads s) ⊆ dom (threads (run_calls cs s)).
Proof.
  revert s. induction cs as [|c cs IH]; intros s; [done|].
  change (run_calls (c :: cs) s) with (run_calls cs (run_call c s)).
  destruct (run_call_grows c s) as (_ & Hp & Ht).
  destruct (IH (run_call c s)) as [Hp' Ht']. split; by etrans.
Qed.

(** X14.  The lookup endpoints answer 404 exactly for the identifiers the
    registry does not hold, and change nothing.  An identifier for which
    [get_post] ([get_thread]) has answered with an entity is answered with an
    entity after every further sequence of operations of the engine. *)
Theorem lookup_endpoints_answer (entity_id : string) s :
  (Api.get_post entity_id s).2 = s
  ∧ (Api.get_thread entity_id s).2 = s
  ∧ ((Api.get_post entity_id s).1 = Ok (HTTPException 404 "Post not found")
     ↔ posts s !! entity_id = None)
  ∧ ((Api.get_thread entity_id s).1 = Ok (HTTPException 404 "Thread not found")
     ↔ threads s !! entity_id = None)
  ∧ (∀ post cs, (Api.get_post entity_id s).1 = Ok (Returned post) →
       ∃ post', (Api.get_post entity_id (run_calls cs s)).1 = Ok (Returned post'))
  ∧ (∀ thread cs, (Api.get_thread entity_id s).1 = Ok (Returned thread) →
       ∃ thread', (Api.get_thread entity_id (run_calls cs s)).1 = Ok (Returned thread')).
Proof.
  assert (Hpost : ∀ s0, Api.get_post entity_id s0
            = (Ok match posts s0 !! entity_id with
                  | Some p => Returned p
                  | None => HTTPException 404 "Post not found"
                  end, s0)).
  { intros s0. unfold Api.get_post. unfold_monad. rewrite get_post_lookup.
    by destruct (posts s0 !! entity_id). }
  assert (Hthread : ∀ s0, Api.get_thread entity_id s0
            = (Ok match threads s0 !! entity_id with
                  | Some th => Returned th
                  | None => HTTPException 404 "Thread not found"
                  end, s0)).
  { intros s0. unfold Api.get_thread. unfold_monad. rewrite get_thread_lookup.
    by destruct (threads s0 !! entity_id). }
  split; [by rewrite Hpost|]. split; [by rewrite Hthread|].
  split; [rewrite Hpost; by destruct (posts s !! entity_id)|].
  split; [rewrite Hthread; by destruct (threads s !! entity_id)|].
  split.
  - intros post cs. rewrite !Hpost. cbn.
    destruct (posts s !! entity_id) as [p|] eqn:Hreg; [intros _|done].
    destruct (run_calls_registered cs s) as [Hsub _].
    apply elem_of_dom_2, Hsub, elem_of_dom in Hreg as [p' ->]. by eauto.
  - intros thread cs. rewrite !Hthread. cbn.
    destruct (threads s !! entity_id) as [p|] eqn:Hreg; [intros _|done].
    destruct (run_calls_registered cs s) as [_ Hsub].
    apply elem_of_dom_2, Hsub, elem_of_dom in Hreg as [p' ->]. by eauto.
Qed.

(** ** The scheduling loops of [process_csv_file] *)

Lemma schedule_post_returns post s : ∃ b, (schedule_post post s).1 = Ok b.
Proof.
  destruct (schedule_post_cases post s)
    as [[_ ->]|(_ & pid & s1 & _ & [[_ ->]|[_ ->]])]; by eauto.
Qed.

Lemma schedule_thread_returns thread s : ∃ b, (schedule_thread thread s).1 = Ok b.
Proof.
  destruct (schedule_thread_cases thread s)
    as [[_ ->]|(_ & _ & [[_ ->]|[_ ->]])]; by eauto.
Qed.

(** What [schedule_post] does to the fields the loops depend on. *)
Lemma schedule_post_step post s :
  ∃ b, (schedule_post post s).1 = Ok b
    ∧ monthly_post_count (schedule_post post s).2
      = (monthly_post_count s + if b then 1 else 0)%Z
    ∧ max_monthly_posts (schedule_post post s).2 = max_monthly_posts s
    ∧ thread_objs (schedule_post post s).2 = thread_objs s
    ∧ (∀ l, XPost.scheduled_date (post_objs (schedule_post post s).2 l)
            = XPost.scheduled_date (post_objs s l))
    ∧ (∀ l, XPost.status (post_objs s l) = SCHEDULED →
            XPost.status (post_objs (schedule_post post s).2 l) = SCHEDULED)
    ∧ (b = true → XPost.status (post_objs (schedule_post post s).2 post) = SCHEDULED)
    ∧ (b = true ↔ (monthly_post_count s < max_monthly_posts s)%Z
                  ∧ trigger_ok C (XPost.scheduled_date (post_objs s post)) = true).
Proof.
  destruct (schedule_post_cases post s)
    as [[Hfull ->]|(Hroom & pid & s1 & Hid & [[Hno ->]|[Hyes ->]])].
  - exists false. cbn. split; [done|]. split; [lia|]. do 4 (split; [done|]).
    split; [done|]. split; [done|]. intros [? _]. lia.
  - destruct (ensure_id_frame _ _ _ _ Hid) as (Hbooks & _ & Hsame).
    unfold books in Hbooks. injection Hbooks as Hto _ _ _ Hc Hm.
    exists false. cbn. rewrite Hc, Hm, Hto.
    split; [done|]. split; [lia|]. split; [done|]. split; [done|].
    split; [intros l; apply Hsame|].
    split; [intros l; by destruct (Hsame l) as (_ & _ & ->)|].
    split; [done|]. split; [done|]. intros [_ ?]. congruence.
  - destruct (ensure_id_frame _ _ _ _ Hid) as (Hbooks & _ & Hsame).
    unfold books in Hbooks. injection Hbooks as Hto _ _ _ Hc Hm.
    exists true. unfold admitted_post. cbn. rewrite Hc, Hm, Hto.
    split; [done|]. split; [done|]. split; [done|]. split; [done|].
    split; [intros l; unfold upd; case_decide; cbn; apply Hsame|].
    split.
    { intros l. unfold upd. case_decide; cbn; [done|].
      by destruct (Hsame l) as (_ & _ & ->). }
    split; [intros _; by rewrite upd_same|]. done.
Qed.

Lemma schedule_thread_step thread s :
  ∃ b, (schedule_thread thread s).1 = Ok b
    ∧ monthly_post_count (schedule_thread thread s).2
      = (monthly_post_count s
         + if b then Z.of_nat (length (XThread.posts (thread_objs s thread))) else 0)%Z
    ∧ max_monthly_posts (schedule_thread thread s).2 = max_monthly_posts s
    ∧ post_objs (schedule_thread thread s).2 = post_objs s
    ∧ (∀ l, XThread.posts (thread_objs (schedule_thread thread s).2 l)
            = XThread.posts (thread_objs s l))
    ∧ (b = true →
         XThread.posts (thread_objs s thread) ≠ []
         ∧ (monthly_post_count s + Z.of_nat (length (XThread.posts (thread_objs s thread)))
            ≤ max_monthly_posts s)%Z).
Proof.
  destruct (schedule_thread_cases thread s)
    as [[Hwhy ->]|(Hne & Hroom & [[Hno ->]|[Hyes ->]])].
  - exists false. cbn. repeat split; try done; lia.
  - exists false. cbn. repeat split; try done; lia.
  - exists true. unfold admitted_thread. cbn. repeat split; try done.
    intros l. unfold upd. by case_decide.
Qed.

Lemma units_of_posts_eq s s' admitted :
  (∀ l, XThread.posts (thread_objs s' l) = XThread.posts (thread_objs s l)) →
  units_of s' admitted = units_of s admitted.
Proof.
  intros H. unfold units_of. induction admitted as [|t admitted IH]; [done|].
  cbn. by rewrite H, IH.
Qed.

Lemma units_of_nonneg s admitted : (0 ≤ units_of s admitted)%Z.
Proof. unfold units_of. induction admitted as [|t admitted IH]; cbn; lia. Qed.

Lemma schedule_posts_spec posts n s :
  ∃ k, (schedule_posts posts n s).1 = Ok (n + k)%Z
    ∧ (0 ≤ k ≤ Z.of_nat (length posts))%Z
    ∧ monthly_post_count (schedule_posts posts n s).2 = (monthly_post_count s + k)%Z
    ∧ max_monthly_posts (schedule_posts posts n s).2 = max_monthly_posts s
    ∧ thread_objs (schedule_posts posts n s).2 = thread_objs s.
Proof.
  revert n s. induction posts as [|post posts IH]; intros n s; cbn [schedule_posts].
  - exists 0%Z. cbn. repeat split; try done; try lia. by rewrite Z.add_0_r.
  - unfold mbind, M_bind.
    destruct (schedule_post_step post s) as (b & Hb & Hc & Hm & Ht & _).
    destruct (schedule_post post s) as [r s1]. cbn in *. subst r.
    destruct (IH (if b then n + 1 else n)%Z s1) as (k & Hk & Hrange & Hc' & Hm' & Ht').
    exists ((if b then 1 else 0) + k)%Z. rewrite Hk, Hc', Hm', Ht', Hc, Hm, Ht. cbn [length].
    repeat split; try done; destruct b; try lia; f_equal; lia.
Qed.

Lemma schedule_threads_spec threads n s :
  ∃ admitted, (schedule_threads threads n s).1 = Ok (n + Z.of_nat (length admitted))%Z
    ∧ admitted `sublist_of` threads
    ∧ monthly_post_count (schedule_threads threads n s).2
      = (monthly_post_count s + units_of s admitted)%Z
    ∧ max_monthly_posts (schedule_threads threads n s).2 = max_monthly_posts s
    ∧ Forall (λ thread, XThread.posts (thread_objs s thread) ≠ []) admitted.
Proof.
  revert n s. induction threads as [|thread threads IH]; intros n s; cbn [schedule_threads].
  - exists []. cbn. repeat split; try done; try lia. by rewrite Z.add_0_r.
  - unfold mbind, M_bind.
    destruct (schedule_thread_step thread s) as (b & Hb & Hc & Hm & _ & Hposts & Htrue).
    destruct (schedule_thread thread s) as [r s1]. cbn in *. subst r.
    destruct (IH (if b then n + 1 else n)%Z s1) as (admitted & Hk & Hsub & Hc' & Hm' & Hne).
    rewrite (units_of_posts_eq s s1) in Hc' by done.
    assert (Hne' : Forall (λ t, XThread.posts (thread_objs s t) ≠ []) admitted).
    { eapply Forall_impl; [exact Hne|]. intros t Ht. cbn in Ht. by rewrite Hposts in Ht. }
    destruct b.
    + exists (thread :: admitted). rewrite Hk, Hc', Hm', Hc, Hm. cbn [length units_of foldr].
      split; [f_equal; lia|]. split; [by apply sublist_skip|].
      split; [unfold units_of; lia|]. split; [done|].
      constructor; [by apply Htrue|done].
    + exists admitted. rewrite Hk, Hc', Hm', Hc, Hm.
      split; [done|]. split; [by apply sublist_cons|]. split; [lia|]. by split.
Qed.

(** X15.  [process_csv_file] never takes its failure branch: it reports
    success.  The number of posts it reports is at most the number of posts
    given, the threads it counts are a selection of the threads given, each
    with members, and the quota counter has grown by exactly the reported
    posts plus the members of the counted threads. *)
Theorem process_csv_file_accounts (posts threads : list loc) s :
  ∃ report admitted,
    (process_csv_file posts threads s).1 = Ok report
    ∧ success report = true
    ∧ (0 ≤ posts_scheduled report ≤ Z.of_nat (length posts))%Z
    ∧ admitted `sublist_of` threads
    ∧ Forall (λ thread, XThread.posts (thread_objs s thread) ≠ []) admitted
    ∧ threads_scheduled report = Z.of_nat (length admitted)
    ∧ monthly_post_count (process_csv_file posts threads s).2
      = (monthly_post_count s + posts_scheduled report + units_of s admitted)%Z
    ∧ max_monthly_posts (process_csv_file posts threads s).2 = max_monthly_posts s.
Proof.
  unfold process_csv_file, try_except. unfold_monad.
  destruct (schedule_posts_spec posts 0 s) as (k & Hk & Hrange & Hc & Hm & Ht).
  destruct (schedule_posts posts 0 s) as [r s1]. cbn in *. subst r.
  destruct (schedule_threads_spec threads 0 s1) as (admitted & Ha & Hsub & Hc' & Hm' & Hne).
  destruct (schedule_threads threads 0 s1) as [r s2]. cbn in *. subst r.
  exists (mkReport true k (Z.of_nat (length admitted))), admitted. cbn.
  assert (Hunits : units_of s1 admitted = units_of s admitted).
  { apply units_of_posts_eq. intros l. by rewrite Ht. }
  split; [done|]. split; [done|]. split; [done|]. split; [done|].
  split; [eapply Forall_impl; [exact Hne|]; intros t Hmem; cbn in Hmem; by rewrite Ht in Hmem|].
  split; [done|]. split; [lia|congruence].
Qed.

Lemma schedule_posts_full posts n s :
  (max_monthly_posts s ≤ monthly_post_count s)%Z →
  schedule_posts posts n s = (Ok n, s).
Proof.
  intros Hfull. revert n. induction posts as [|post posts IH]; intros n; [done|].
  cbn [schedule_posts]. unfold mbind, M_bind.
  destruct (schedule_post_cases post s) as [[_ ->]|(Hroom & _)]; [apply IH|lia].
Qed.

Lemma schedule_threads_full threads n s :
  (max_monthly_posts s ≤ monthly_post_count s)%Z →
  schedule_threads threads n s = (Ok n, s).
Proof.
  intros Hfull. revert n. induction threads as [|thread threads IH]; intros n; [done|].
  cbn [schedule_threads]. unfold mbind, M_bind.
  destruct (schedule_thread_cases thread s) as [[_ ->]|(Hne & Hroom & _)]; [apply IH|].
  destruct (XThread.posts (thread_objs s thread)); [done|]. cbn [length] in Hroom. lia.
Qed.

(** X16.  With the quota counter at the ceiling (or above it),
    [process_csv_file] admits nothing, whatever it is given: it reports
    success with zero posts and zero threads and leaves the engine as it
    was. *)
Theorem process_csv_file_when_full (posts threads : list loc) s :
  (max_monthly_posts s ≤ monthly_post_count s)%Z →
  process_csv_file posts threads s = (Ok (mkReport true 0 0), s).
Proof.
  intros Hfull. unfold process_csv_file, try_except. unfold_monad.
  by rewrite schedule_posts_full, schedule_threads_full.
Qed.

Lemma schedule_posts_keep posts n s l :
  XPost.scheduled_date (post_objs (schedule_posts posts n s).2 l)
  = XPost.scheduled_date (post_objs s l)
  ∧ (XPost.status (post_objs s l) = SCHEDULED →
     XPost.status (post_objs (schedule_posts posts n s).2 l) = SCHEDULED).
Proof.
  revert n s. induction posts as [|post posts IH]; intros n s; [done|].
  cbn [schedule_posts]. unfold mbind, M_bind.
  destruct (schedule_post_step post s) as (b & Hb & _ & _ & _ & Hdate & Hkeep & _).
  destruct (schedule_post post s) as [r s1]. cbn in *. subst r.
  destruct (IH (if b then n + 1 else n)%Z s1) as [Hd Hs].
  split; [by rewrite Hd|]. intros H. by apply Hs, Hkeep.
Qed.

Lemma schedule_threads_keep threads n s :
  post_objs (schedule_threads threads n s).2 = post_objs s.
Proof.
  revert n s. induction threads as [|thread threads IH]; intros n s; [done|].
  cbn [schedule_threads]. unfold mbind, M_bind.
  destruct (schedule_thread_step thread s) as (b & Hb & _ & _ & Hsame & _).
  destruct (schedule_thread thread s) as [r s1]. cbn in *. subst r.
  by rewrite IH.
Qed.

Lemma schedule_posts_first_come posts n s :
  Forall (λ post, trigger_ok C (XPost.scheduled_date (post_objs s post)) = true) posts →
  ∃ k : nat,
    Z.of_nat k = Z.min (Z.of_nat (length posts))
                   (Z.max 0 (max_monthly_posts s - monthly_post_count s))
    ∧ (schedule_posts posts n s).1 = Ok (n + Z.of_nat k)%Z
    ∧ Forall (λ post, XPost.status (post_objs (schedule_posts posts n s).2 post) = SCHEDULED)
        (take k posts).
Proof.
  revert n s. induction posts as [|post posts IH]; intros n s Hok; cbn [schedule_posts].
  - exists 0%nat. cbn. split; [lia|]. split; [f_equal; lia|]. constructor.
  - apply Forall_cons in Hok as [Hpost Hok]. unfold mbind, M_bind.
    destruct (schedule_post_step post s)
      as (b & Hb & Hc & Hm & _ & Hdate & Hkeep & Hset & Hiff).
    assert (Hok' : Forall (λ p, trigger_ok C
              (XPost.scheduled_date (post_objs (schedule_post post s).2 p)) = true) posts).
    { eapply Forall_impl; [exact Hok|]. intros p Hp. cbn in Hp. by rewrite Hdate. }
    destruct (IH (if b then n + 1 else n)%Z _ Hok') as (k & Hk & Hres & Hall).
    pose proof (schedule_posts_keep posts (if b then n + 1 else n)%Z
                  (schedule_post post s).2 post) as [_ Hstay].
    destruct (schedule_post post s) as [r s1]. cbn in *. subst r.
    rewrite Hres, Hc, Hm in *. clear Hres.
    destruct b.
    + assert (Hroom : (monthly_post_count s < max_monthly_posts s)%Z) by (by apply Hiff).
      exists (S k). split; [lia|]. split; [f_equal; lia|].
      cbn [take]. constructor; [by apply Hstay, Hset|done].
    + assert (Hfull : ¬ (monthly_post_count s < max_monthly_posts s)%Z).
      { intros Hroom. by assert (false = true) by (by apply Hiff). }
      exists 0%nat. split; [lia|]. split; [f_equal; lia|]. constructor.
Qed.

(** X17.  First come, first served: when every post given to
    [process_csv_file] has a run date the job store accepts, the number of
    posts it reports is the smaller of the number given and the room left
    under the ceiling, and it is the first posts of the list, in the order of
    the list, that end up scheduled; the threads are only served after all
    posts. *)
Theorem process_csv_file_first_come (posts threads : list loc) s :
  Forall (λ post, trigger_ok C (XPost.scheduled_date (post_objs s post)) = true) posts →
  ∃ (report : UploadReport) (k : nat),
    (process_csv_file posts threads s).1 = Ok report
    ∧ posts_scheduled report = Z.of_nat k
    ∧ Z.of_nat k = Z.min (Z.of_nat (length posts))
                     (Z.max 0 (max_monthly_posts s - monthly_post_count s))
    ∧ Forall (λ post, XPost.status
                        (post_objs (process_csv_file posts threads s).2 post) = SCHEDULED)
        (take k posts)
    ∧ ((max_monthly_posts s - monthly_post_count s ≤ Z.of_nat (length posts))%Z →
       threads_scheduled report = 0%Z).
Proof.
  intros Hok. unfold process_csv_file, try_except. unfold_monad.
  destruct (schedule_posts_first_come posts 0 s Hok) as (k & Hk & Hres & Hall).
  destruct (schedule_posts_spec posts 0 s) as (k' & Hk' & _ & Hc & Hm & _).
  pose proof (schedule_threads_keep threads 0 (schedule_posts posts 0 s).2) as Hsame.
  destruct (schedule_posts posts 0 s) as [r s1]. cbn in *. subst r.
  injection Hk' as Hk'. assert (k' = Z.of_nat k) as -> by lia.
  destruct (schedule_threads_spec threads 0 s1) as (admitted & Ha & _).
  pose proof (schedule_threads_full threads 0 s1) as Hfull.
  destruct (schedule_threads threads 0 s1) as [r s2]. cbn in *. subst r.
  exists (mkReport true (Z.of_nat k) (Z.of_nat (length admitted))), k. cbn.
  split; [done|]. split; [done|]. split; [done|].
  split; [by rewrite Hsame|].
  intros Hmany. assert (Hfull' : (max_monthly_posts s1 ≤ monthly_post_count s1)%Z) by lia.
  specialize (Hfull Hfull'). injection Hfull as Hn _. lia.
Qed.

(** ** The figures of the dashboard *)

Lemma keeps_books_publish_post_job post_id : keeps books (_publish_post_job (C:=C) post_id).
Proof.
  intros s. destruct (posts s !! post_id) as [post|] eqn:Hreg.
  - destruct (publish_post_job_known _ _ _ Hreg) as (o & s0 & ? & Hp & _ & _ & _ & ->).
    pose proof (keeps_books_publish_post post s) as Hk.
    rewrite Hp in Hk. cbn in Hk. rewrite <- Hk. by destruct (truthy o).
  - by rewrite publish_post_job_unknown.
Qed.

Lemma thread_job_roster thread_id s l :
  XThread.posts (thread_objs (_publish_thread_job thread_id s).2 l)
  = XThread.posts (thread_objs s l).
Proof.
  destruct (threads s !! thread_id) as [thread|] eqn:Hreg.
  - destruct (publish_thread_job_known _ _ _ Hreg) as (b & s0 & Hp & ->).
    pose proof (keeps_books_publish_thread thread s) as Hk.
    rewrite Hp in Hk. cbn in Hk. unfold books in Hk. injection Hk as Hto _ _ _ _ _.
    cbn. rewrite Hto. unfold upd. by case_decide.
  - by rewrite publish_thread_job_unknown.
Qed.

Lemma roster_kept c s l :
  XThread.posts (thread_objs (run_call c s) l) = XThread.posts (thread_objs s l).
Proof.
  destruct c as [post|thread|post_id|thread_id|post_id|thread_id|job_id now]; cbn.
  - destruct (schedule_post_step post s) as (_ & _ & _ & _ & -> & _). done.
  - destruct (schedule_thread_step thread s) as (_ & _ & _ & _ & _ & -> & _). done.
  - destruct (posts s !! post_id) eqn:Hreg.
    + by rewrite cancel_post_known.
    + by rewrite cancel_post_unknown.
  - destruct (threads s !! thread_id) eqn:Hreg.
    + by rewrite cancel_thread_known.
    + by rewrite cancel_thread_unknown.
  - pose proof (keeps_books_publish_post_job post_id s) as Hk.
    unfold books in Hk. injection Hk as -> _ _ _ _ _. done.
  - apply thread_job_roster.
  - unfold dispatch. unfold_monad.
    destruct (jobs s !! job_id) as [j|]; [|done].
    destruct (run_date j <=? now)%Z; [|done].
    unfold run_job. destruct (func j).
    + pose proof (keeps_books_publish_post_job (arg j) (set_jobs (delete job_id) s)) as Hk.
      unfold books in Hk. injection Hk as -> _ _ _ _ _. done.
    + apply (thread_job_roster (arg j) (set_jobs (delete job_id) s)).
Qed.

Lemma rosters_filled_step c s : rosters_filled s → rosters_filled (run_call c s).
Proof.
  intros Hinv tid l Hreg. rewrite roster_kept.
  assert (Hjob : ∀ j s0, ledger (run_job j s0).2 = ledger s0) by apply run_job_ledger.
  destruct c as [post|thread|post_id|thread_id|post_id|thread_id|job_id now]; cbn in Hreg.
  - destruct (schedule_post_cases post s)
      as [[_ Heq]|(_ & pid & s1 & Hid & [[_ Heq]|[_ Heq]])]; rewrite Heq in Hreg;
      [by eapply Hinv|..];
      destruct (ensure_id_frame _ _ _ _ Hid) as (Hbooks & _);
      unfold books in Hbooks; injection Hbooks as _ _ Ht _ _ _; cbn in Hreg;
      rewrite Ht in Hreg; by eapply Hinv.
  - destruct (schedule_thread_cases thread s)
      as [[_ Heq]|(Hne & _ & [[_ Heq]|[_ Heq]])]; rewrite Heq in Hreg;
      [by eapply Hinv|..]; cbn in Hreg;
      (apply lookup_insert_Some in Hreg as [[_ <-]|[_ Hreg]]; [done|by eapply Hinv]).
  - destruct (posts s !! post_id) eqn:Hp.
    + rewrite cancel_post_known in Hreg by done. by eapply Hinv.
    + rewrite cancel_post_unknown in Hreg by done. by eapply Hinv.
  - destruct (threads s !! thread_id) eqn:Hp.
    + rewrite cancel_thread_known in Hreg by done. by eapply Hinv.
    + rewrite cancel_thread_unknown in Hreg by done. by eapply Hinv.
  - pose proof (keeps_ledger_publish_post_job post_id s) as H.
    unfold ledger in H. injection H as _ Ht _ _ _. rewrite Ht in Hreg. by eapply Hinv.
  - pose proof (keeps_ledger_publish_thread_job thread_id s) as H.
    unfold ledger in H. injection H as _ Ht _ _ _. rewrite Ht in Hreg. by eapply Hinv.
  - unfold dispatch in Hreg. unfold_monad.
    destruct (jobs s !! job_id) as [j|]; [|by eapply Hinv].
    destruct (run_date j <=? now)%Z; [|by eapply Hinv].
    specialize (Hjob j (set_jobs (delete job_id) s)).
    unfold ledger in Hjob. cbn in Hjob. injection Hjob as _ Ht _ _ _.
    rewrite Ht in Hreg. by eapply Hinv.
Qed.

Lemma rosters_filled_run cs s : rosters_filled s → rosters_filled (run_calls cs s).
Proof.
  revert s. induction cs as [|c cs IH]; intros s Hinv; [done|].
  change (run_calls (c :: cs) s) with (run_calls cs (run_call c s)).
  by apply IH, rosters_filled_step.
Qed.

Lemma sum_of_ones {A} (l : list A) : sum_of (λ _, 1%Z) l = Z.of_nat (length l).
Proof. unfold sum_of. induction l as [|a l IH]; cbn [foldr length]; lia. Qed.

Lemma published_failed_apart {A} (st : A → PostStatus) (l : list A) :
  (length (filter (λ a, st a = PUBLISHED) l) + length (filter (λ a, st a = FAILED) l)
   ≤ length l)%nat.
Proof.
  induction l as [|a l IH]; [done|]. rewrite !filter_cons.
  repeat case_decide; cbn [length]; try lia. congruence.
Qed.

Lemma sum_of_filled {A} (roster : A → list loc) (l : list A) :
  Forall (λ a, roster a ≠ []) l →
  (Z.of_nat (length l) ≤ sum_of (λ a, Z.of_nat (length (roster a))) l)%Z.
Proof.
  unfold sum_of. induction 1 as [|a l Ha _ IH]; cbn [foldr length]; [done|].
  destruct (roster a); [done|]. cbn [length]. lia.
Qed.

(** X18.  In every state the engine reaches from its initial state, the
    dashboard's figures are consistent: the published and the failed
    entities together are never more than the figure shown as scheduled
    (every registered post counts once there and every registered thread
    counts its members, of which it has at least one). *)
Theorem dashboard_figures_consistent (post_store : loc → XPost.t)
    (thread_store : loc → XThread.t) (MAX_MONTHLY_POSTS : Z) (w : world C)
    (cs : list call) :
  let s := run_calls cs (init post_store thread_store MAX_MONTHLY_POSTS w) in
  ∃ stats, dashboard s = (Ok stats, s)
    ∧ (0 ≤ published stats)%Z ∧ (0 ≤ failed stats)%Z
    ∧ (published stats + failed stats ≤ scheduled stats)%Z
    ∧ (Z.of_nat (size (posts s)) + Z.of_nat (size (threads s)) ≤ scheduled stats)%Z.
Proof.
  intros s. eexists. split; [reflexivity|]. cbn. rewrite !sum_of_ones.
  assert (Hinv : rosters_filled s).
  { apply rosters_filled_run. intros tid thread Hreg. cbn in Hreg.
    by rewrite lookup_empty in Hreg. }
  assert (Hfilled : Forall (λ thread, XThread.posts (thread_objs s thread) ≠ [])
                      (map_to_list (threads s)).*2).
  { apply Forall_forall. intros thread Hin.
    apply list_elem_of_fmap in Hin as ([tid l] & -> & Hin).
    apply elem_of_map_to_list in Hin. by eapply Hinv. }
  pose proof (sum_of_filled (λ thread, XThread.posts (thread_objs s thread)) _ Hfilled) as Hsum.
  pose proof (published_failed_apart (λ post, XPost.status (post_objs s post))
                (map_to_list (posts s)).*2) as Hposts.
  pose proof (published_failed_apart (λ thread, XThread.status (thread_objs s thread))
                (map_to_list (threads s)).*2) as Hthreads.
  rewrite !length_fmap, !length_map_to_list in *.
  split; [lia|]. split; [lia|]. split; lia.
Qed.

(** ** What the post callback writes *)

(** X19.  For a registered post, [_publish_post_job] writes to that post
    object only: when the publication yields a non-empty remote identifier
    the post gets it as [x_post_id] and becomes PUBLISHED; otherwise the post
    becomes FAILED and keeps the [x_post_id] it had.  Nothing else of the
    post, no other post object and no thread object is changed. *)
Theorem post_job_records_outcome (post_id : string) (post : loc) s :
  posts s !! post_id = Some post →
  let s' := (_publish_post_job post_id s).2 in
  ∃ o, (publish_post post s).1 = Ok o
    ∧ post_objs s' post
      = (if truthy o
         then XPost.set_status PUBLISHED (XPost.set_x_post_id o (post_objs s post))
         else XPost.set_status FAILED (post_objs s post))
    ∧ (∀ l, l ≠ post → post_objs s' l = post_objs s l)
    ∧ thread_objs s' = thread_objs s.
Proof.
  intros Hreg s'. subst s'.
  destruct (publish_post_job_known _ _ _ Hreg) as (o & s0 & evs & Hp & _ & _ & Hobj & ->).
  pose proof (keeps_books_publish_post post s) as Hk. rewrite Hp in Hk. cbn in Hk.
  unfold books in Hk. injection Hk as Hto _ _ _ _ _.
  exists o. rewrite Hp. split; [done|]. cbn [snd].
  destruct (truthy o); cbn; rewrite ?upd_same, Hobj, Hto.
  - split; [done|]. split; [|done]. intros l Hl. unfold upd. by rewrite !decide_False.
  - split; [done|]. split; [|done]. intros l Hl. unfold upd. by rewrite !decide_False.
Qed.

End Coverage.

(** * The walk of a thread *)

Section ThreadWalk.
Context {C : Collaborators}.
Implicit Types s : SchedulerService C.

Lemma media_failed_nil : ¬ media_failed [].
Proof. intros H. by apply Exists_nil in H. Qed.

Lemma media_failed_sleep seconds evs :
  media_failed (EvSleep seconds :: evs) ↔ media_failed evs.
Proof.
  unfold media_failed. rewrite Exists_cons. split; [|by right].
  by intros [(? & ? & ? & [=])|H].
Qed.

Lemma media_failed_head who evs :
  media_only who evs → media_failed evs →
  ∃ e evs', evs = e :: evs' ∧ event_who e = Some who.
Proof.
  intros Hmo Hf. destruct evs as [|e evs']; [by apply media_failed_nil in Hf|].
  exists e, evs'. split; [done|].
  apply media_only_who in Hmo. by apply Forall_cons in Hmo as [? _].
Qed.

(** The loop over the replies goes to its end exactly when nothing fails on
    the way. *)
Lemma publish_replies_progress rest prev s r s1 evs :
  publish_replies prev rest s = (r, s1) → emitted s s1 evs →
  (r = Ok true ↔ ¬ media_failed evs ∧ Forall (λ t, is_Some t.2) (tweets evs)).
Proof.
  revert prev s r s1 evs.
  induction rest as [|post rest IH]; intros prev s r s1 evs Hrun Hem.
  - injection Hrun as <- <-.
    rewrite (emitted_inj _ _ _ _ Hem (emitted_refl s)).
    split; [intros _; split; [apply media_failed_nil|constructor]|done].
  - cbn [publish_replies] in Hrun.
    apply bind_inv in Hrun as [(o & s2 & Hr & Hk)|(e & Hr & _)].
    2: { by apply publish_reply_spec in Hr as (? & ? & [=] & _). }
    apply publish_reply_shape in Hr
      as (evs0 & Hmo & [(Hf & Hem0 & [= ->] & _)|(Hnf & outcome & Hem0 & [= ->] & _)]);
      destruct (media_only_quiet _ _ Hmo) as (_ & _ & Htw & _).
    + injection Hk as <- <-. rewrite (emitted_inj _ _ _ _ Hem Hem0).
      split; [done|]. intros [Hn _]. exfalso. apply Hn. by apply media_failed_sleep.
    + destruct (outcome_id outcome) as [i|] eqn:Hout.
      * destruct (publish_replies_spec _ _ _ _ _ Hk) as (b & evs2 & -> & Hem2 & _).
        rewrite (emitted_inj _ _ _ _ Hem (emitted_trans _ _ _ _ _ Hem0 Hem2)).
        rewrite (IH _ _ _ _ _ Hk Hem2).
        cbn [app tweets]. rewrite media_failed_sleep, !media_failed_app, !tweets_app, Htw.
        cbn [app tweets]. rewrite Hout, Forall_cons. cbn [snd].
        pose proof (not_media_failed_tweet post (XPost.content (post_objs s post))
                      (media_arg (uploaded evs0)) (Some prev) outcome).
        split.
        -- intros [Hn HF]. split; [tauto|]. split; [by eexists|done].
        -- intros [Hn [_ HF]]. split; [tauto|done].
      * injection Hk as <- <-. rewrite (emitted_inj _ _ _ _ Hem Hem0).
        split; [done|]. intros [_ HF]. exfalso.
        cbn [tweets] in HF. rewrite tweets_app, Htw in HF. cbn in HF. rewrite Hout in HF.
        apply Forall_cons in HF as [[? [=]] _].
Qed.

(** A publication always starts with the member at the head of the walk, and
    reports success exactly when nothing fails on the way. *)
Lemma publish_thread_progress thread s b s1 evs first rest :
  publish_thread thread s = (Ok b, s1) → emitted s s1 evs →
  sorted (λ p, position_key (post_objs s p)) (XThread.posts (thread_objs s thread))
    = first :: rest →
  (b = true ↔ ¬ media_failed evs ∧ calls_succeeded (tweets evs))
  ∧ ∃ e evs', evs = e :: evs' ∧ event_who e = Some first.
Proof.
  intros Hp Hem Hmem.
  apply publish_thread_cases in Hp
    as [(Hnil & _)|(first' & rest' & o & s0 & Hmem' & Hpost & Hcases)].
  { by rewrite Hmem in Hnil. }
  rewrite Hmem in Hmem'. injection Hmem' as <- <-.
  apply publish_post_shape in Hpost
    as (Hobj & evs0 & Hmo & [(Hf & Hem0 & [= ->])|(Hnf & outcome & Hem0 & [= ->])]);
    destruct (media_only_quiet _ _ Hmo) as (_ & _ & Htw & _).
  - destruct Hcases as [(_ & [= ->] & ->)|([=] & _)].
    rewrite (emitted_inj _ _ _ _ Hem Hem0).
    split; [|by apply media_failed_head].
    split; [done|]. by intros [? _].
  - assert (Hhead : ∀ evs2, ∃ e evs',
              (evs0 ++ [EvTweet first (XPost.content (post_objs s first))
                          (media_arg (uploaded evs0)) None outcome]) ++ evs2 = e :: evs'
              ∧ event_who e = Some first).
    { intros evs2. destruct evs0 as [|e evs0']; [by eexists _, _|].
      exists e, ((evs0' ++ [EvTweet first (XPost.content (post_objs s first))
                             (media_arg (uploaded (e :: evs0'))) None outcome]) ++ evs2).
      split; [done|].
      apply media_only_who in Hmo. by apply Forall_cons in Hmo as [? _]. }
    destruct Hcases as [(Htruthy & [= ->] & ->)|(Htruthy & Hrest)].
    + rewrite (emitted_inj _ _ _ _ Hem Hem0).
      split; [|specialize (Hhead []); by rewrite app_nil_r in Hhead].
      split; [done|]. intros [_ Hcs]. rewrite tweets_app, Htw in Hcs. cbn in Hcs.
      destruct Hcs as [Hcs _]. by rewrite Htruthy in Hcs.
    + destruct (publish_replies_spec _ _ _ _ _ Hrest) as (b' & evs2 & [= <-] & Hem2 & _).
      rewrite (emitted_inj _ _ _ _ Hem (emitted_trans _ _ _ _ _ Hem0 Hem2)).
      split; [|apply Hhead].
      assert (Hb : Ok b = Ok true ↔ b = true) by (split; [by intros [=]|by intros ->]).
      rewrite <- Hb, (publish_replies_progress _ _ _ _ _ _ Hrest Hem2).
      rewrite !media_failed_app, !tweets_app, Htw. cbn [app tweets calls_succeeded].
      pose proof (not_media_failed_tweet first (XPost.content (post_objs s first))
                    (media_arg (uploaded evs0)) None outcome).
      split.
      * intros [Hn HF]. split; [tauto|]. by split.
      * intros [Hn [_ HF]]. split; [tauto|done].
Qed.

(** C4.  The publication of a non-empty registered thread walks the members
    in ascending order of their position ([thread_position or 0]), whatever
    the order of the member list: the walk is the stable ascending sort of the
    list, and any reordering of a list with distinct positions gives the same
    walk.  The firing starts with the first member of the walk, the calls of
    the X client are made for the members in the order of the walk, and the
    walk only stops before its end at a failure: when no media transfer
    raises and every call succeeds, the X client has been called for every
    member.  The thread ends [PUBLISHED] exactly when nothing failed, which
    is exactly when the X client was called for every member, in the order of
    the walk, and every call succeeded; it ends [FAILED] otherwise. *)
Theorem thread_published_in_position_order s (thread_id : string) (thread : loc) :
  threads s !! thread_id = Some thread →
  XThread.posts (thread_objs s thread) ≠ [] →
  let input := XThread.posts (thread_objs s thread) in
  let key := λ p, position_key (post_objs s p) in
  let members := sorted key input in
  let s' := (_publish_thread_job thread_id s).2 in
  members ≡ₚ input
  ∧ StronglySorted (key_le key) members
  ∧ (∀ v, filter (λ p, key p = v) members = filter (λ p, key p = v) input)
  ∧ (∀ reordered, reordered ≡ₚ input → NoDup (key <$> input) →
       sorted key reordered = members)
  ∧ ∃ evs, emitted s s' evs
      ∧ (∃ e evs', evs = e :: evs' ∧ event_who e = head members)
      ∧ (tweets evs).*1 `prefix_of` members
      ∧ (¬ media_failed evs → calls_succeeded (tweets evs) → (tweets evs).*1 = members)
      ∧ (XThread.status (thread_objs s' thread) = PUBLISHED
         ↔ ¬ media_failed evs ∧ calls_succeeded (tweets evs))
      ∧ (XThread.status (thread_objs s' thread) = PUBLISHED
         ↔ (tweets evs).*1 = members ∧ calls_succeeded (tweets evs))
      ∧ (XThread.status (thread_objs s' thread) ≠ PUBLISHED
         → XThread.status (thread_objs s' thread) = FAILED).
Proof.
  intros Hreg Hne input key members s'.
  split; [apply sorted_perm|]. split; [apply sorted_ascending|].
  split; [intros v; apply sorted_stable|].
  split.
  { intros reordered Hp Hnd. symmetry. apply sorted_input_order; [by symmetry|done]. }
  subst s'. destruct (publish_thread_job_known _ _ _ Hreg) as (b & s0 & Hp & ->).
  destruct (publish_thread_spec _ _ _ _ Hp) as (b' & evs & [= <-] & Hem & _ & Hpre & Hiff & _).
  fold input key members in Hiff, Hpre.
  destruct members as [|first rest] eqn:Hmem.
  { exfalso. apply Hne. by apply (sorted_nil_inv key). }
  destruct (publish_thread_progress _ _ _ _ _ _ _ Hp Hem Hmem) as [Hprog Hhead].
  assert (Hstatus : XThread.status
            (thread_objs (set_thread_objs
               (upd thread (XThread.set_status (if b then PUBLISHED else FAILED))) s0) thread)
            = if b then PUBLISHED else FAILED).
  { cbn. by rewrite upd_same. }
  cbn [snd]. rewrite Hstatus.
  assert (Hb : (if b then PUBLISHED else FAILED) = PUBLISHED ↔ b = true)
    by (by destruct b).
  exists evs. split; [exact Hem|]. split.
  { destruct Hhead as (e & evs' & -> & Hwho). by exists e, evs'. }
  split; [exact Hpre|]. split.
  { intros Hn Hcs. by apply Hiff, Hprog. }
  split; [by rewrite Hb|]. split.
  { rewrite Hb, Hiff. split; [by intros (_ & ? & ?)|by intros [? ?]]. }
  by destruct b.
Qed.

Lemma NoDup_filter_eq (x : loc) (l : list loc) :
  NoDup l → (length (filter (λ y, y = x) l) ≤ 1)%nat.
Proof.
  induction 1 as [|y l Hy Hl IH]; [cbn; lia|].
  rewrite filter_cons. case_decide as Hxy; [|done]. subst y. cbn [length].
  destruct (filter (λ y, y = x) l) as [|z zs] eqn:Hfilter; [cbn; lia|].
  exfalso. apply Hy.
  assert (Hz : z ∈ filter (λ y, y = x) l) by (rewrite Hfilter; left).
  by apply list_elem_of_filter in Hz as [-> ?].
Qed.

Lemma calls_at_most_once (x : loc) (tw : list (loc * option string)) (walk : list loc) :
  tw.*1 `prefix_of` walk → NoDup walk →
  (length (filter (λ t, t.1 = x) tw) ≤ 1)%nat.
Proof.
  intros [tail ->] Hnd. apply NoDup_app in Hnd as (Hnd & _).
  apply (NoDup_filter_eq x) in Hnd.
  assert (Heq : length (filter (λ t : loc * option string, t.1 = x) tw)
                = length (filter (λ y, y = x) tw.*1)).
  { clear. induction tw as [|t tw IH]; [done|].
    cbn [fmap list_fmap]. rewrite !filter_cons. by repeat case_decide; cbn; rewrite ?IH. }
  lia.
Qed.

(** The loop over the replies, when the members of [earlier] get an
    identifier and [failed] gets none. *)
Lemma publish_replies_abort (earlier : list loc) (failed : loc) (later : list loc)
    prev s r s1 evs :
  publish_replies prev (earlier ++ failed :: later) s = (r, s1) →
  emitted s s1 evs →
  NoDup (earlier ++ failed :: later) →
  Forall (λ d, ∃ i, (d, Some i) ∈ tweets evs) earlier →
  (∀ i, (failed, Some i) ∉ tweets evs) →
  r = Ok false
  ∧ Forall (λ d, XPost.status (post_objs s1 d) = PUBLISHED
                 ∧ ∃ i, (d, Some i) ∈ tweets evs
                        ∧ XPost.x_post_id (post_objs s1 d) = Some i) earlier
  ∧ (tweets evs).*1 `prefix_of` earlier ++ [failed]
  ∧ Forall (λ e, ∀ l, event_who e = Some l → l ∈ earlier ++ [failed]) evs
  ∧ (∀ l, l ∉ earlier → post_objs s1 l = post_objs s l).
Proof.
  revert prev s evs.
  induction earlier as [|d ds IH]; intros prev s evs Hrun Hem Hnd Hearlier Hfail;
    cbn [app publish_replies] in Hrun.
  - apply bind_inv in Hrun as [(o & s2 & Hr & Hk)|(e & Hr & _)].
    2: { by apply publish_reply_spec in Hr as (? & ? & [=] & _). }
    apply publish_reply_spec in Hr as (? & seg & [= <-] & Hem0 & Hat & Hobj).
    destruct o as [i|].
    + exfalso.
      destruct (publish_replies_spec _ _ _ _ _ Hk) as (b & evs2 & _ & Hem2 & _).
      rewrite (emitted_inj _ _ _ _ Hem (emitted_trans _ _ _ _ _ Hem0 Hem2)) in Hfail.
      apply (Hfail i). cbn [app tweets]. rewrite tweets_app.
      destruct Hat as [_ [[_ [=]] | ->]]. by left.
    + injection Hk as <- <-. rewrite (emitted_inj _ _ _ _ Hem Hem0). cbn [tweets app].
      split; [done|]. split; [constructor|]. split; [|split; [|by rewrite Hobj]].
      * destruct Hat as [_ [[-> _] | ->]]; [apply prefix_nil|done].
      * constructor; [done|]. destruct Hat as [Hwho _].
        eapply Forall_impl; [exact Hwho|]. intros e -> l [= <-]. left.
  - apply bind_inv in Hrun as [(o & s2 & Hr & Hk)|(e & Hr & _)].
    2: { by apply publish_reply_spec in Hr as (? & ? & [=] & _). }
    apply publish_reply_spec in Hr as (? & seg & [= <-] & Hem0 & Hat & Hobj).
    apply Forall_cons in Hearlier as [(i0 & Hi0) Hearlier].
    cbn [app] in Hnd. apply NoDup_cons in Hnd as [Hd Hnd].
    destruct o as [i|].
    + destruct (publish_replies_spec _ _ _ _ _ Hk) as (b & evs2 & _ & Hem2 & _).
      rewrite (emitted_inj _ _ _ _ Hem (emitted_trans _ _ _ _ _ Hem0 Hem2)) in *.
      cbn [app tweets] in *. rewrite tweets_app in *.
      assert (Htw : tweets seg = [(d, Some i)]) by (by destruct Hat as [_ [[_ [=]] | ->]]).
      rewrite Htw in *. cbn [app] in *.
      assert (Hlift : ∀ l o, l ≠ d → (l, o) ∈ (d, Some i) :: tweets evs2 →
                      (l, o) ∈ tweets evs2).
      { intros l o Hl [[= -> _]|H]%elem_of_cons; done. }
      destruct (IH i s2 evs2 Hk Hem2 Hnd) as (-> & Hpub & Hpre & Hwho & Hframe).
      { apply Forall_forall. intros d' Hd'.
        rewrite Forall_forall in Hearlier. destruct (Hearlier d' Hd') as (i' & Hi').
        exists i'. apply Hlift; [|done]. intros ->. apply Hd, elem_of_app. by left. }
      { intros i' Hin. apply (Hfail i'). by right. }
      split; [done|]. split; [|split; [|split]].
      * constructor.
        -- rewrite Hframe, Hobj by (intros Hin; apply Hd, elem_of_app; by left).
           rewrite !upd_same. cbn. split; [done|]. exists i. split; [left|done].
        -- eapply Forall_impl; [exact Hpub|]. cbn. intros d' (Hst & i' & Hin & Hid).
           split; [done|]. exists i'. split; [by right|done].
      * cbn. by apply prefix_cons.
      * constructor; [done|]. apply Forall_app. split.
        -- destruct Hat as [Hat _]. eapply Forall_impl; [exact Hat|].
           intros e -> l [= <-]. left.
        -- eapply Forall_impl; [exact Hwho|]. intros e He l Hl. right. by apply He.
      * intros l Hl. apply not_elem_of_cons in Hl as [Hne Hl].
        rewrite Hframe, Hobj by done. by rewrite !upd_other.
    + exfalso. injection Hk as _ <-.
      rewrite (emitted_inj _ _ _ _ Hem Hem0) in Hi0. cbn [tweets] in Hi0.
      by apply (attempt_elem_of _ _ _ _ _ Hat) in Hi0 as [_ [=]].
Qed.

(** C5.  The first failure of a member aborts the rest of the walk, for
    every registered thread whose walk [earlier ++ failed :: later] is made of
    distinct post objects, and for every position of the failure: take a
    firing in which the call for each member of [earlier] succeeds and the
    call for [failed] does not (it is not made, it raises, or its response
    has no identifier the code accepts).  Then every member of [earlier] is
    [PUBLISHED] with the remote identifier of its call recorded; the X client
    is called for the members of [earlier] and at most once for [failed], in
    this order, and never again; nothing at all is attempted for a member of
    [later]; [failed] and the members of [later] are as they were; and the
    thread is [FAILED].  With [earlier = [l1]], [failed = l2] and
    [later = [l3]] this is the failure of the second of three members. *)
Theorem first_failure_aborts_thread s (thread_id : string) (thread : loc)
    (earlier : list loc) (failed : loc) (later : list loc) (evs : list event) :
  threads s !! thread_id = Some thread →
  sorted (λ p, position_key (post_objs s p)) (XThread.posts (thread_objs s thread))
    = earlier ++ failed :: later →
  NoDup (earlier ++ failed :: later) →
  let s' := (_publish_thread_job thread_id s).2 in
  let first := hd failed earlier in
  emitted s s' evs →
  Forall (λ d, ∃ o, (d, o) ∈ tweets evs ∧ accepted first d o = true) earlier →
  (∀ o, (failed, o) ∈ tweets evs → accepted first failed o = false) →
  Forall (λ d, XPost.status (post_objs s' d) = PUBLISHED
               ∧ ∃ i, (d, Some i) ∈ tweets evs
                      ∧ XPost.x_post_id (post_objs s' d) = Some i) earlier
  ∧ (tweets evs).*1 `prefix_of` earlier ++ [failed]
  ∧ (length (filter (λ t, t.1 = failed) (tweets evs)) ≤ 1)%nat
  ∧ Forall (λ e, ∀ l, event_who e = Some l → l ∈ earlier ++ [failed]) evs
  ∧ Forall (λ e, ∀ l, l ∈ later → event_who e ≠ Some l) evs
  ∧ post_objs s' failed = post_objs s failed
  ∧ Forall (λ l, post_objs s' l = post_objs s l) later
  ∧ XThread.status (thread_objs s' thread) = FAILED.
Proof.
  intros Hreg Hsorted Hnd s' first Hem Hearlier Hfail. subst s'.
  assert (Hmain :
    Forall (λ d, XPost.status (post_objs (_publish_thread_job thread_id s).2 d) = PUBLISHED
                 ∧ ∃ i, (d, Some i) ∈ tweets evs
                        ∧ XPost.x_post_id
                            (post_objs (_publish_thread_job thread_id s).2 d) = Some i)
      earlier
    ∧ (tweets evs).*1 `prefix_of` earlier ++ [failed]
    ∧ Forall (λ e, ∀ l, event_who e = Some l → l ∈ earlier ++ [failed]) evs
    ∧ (∀ l, l ∉ earlier → post_objs (_publish_thread_job thread_id s).2 l = post_objs s l)
    ∧ XThread.status (thread_objs (_publish_thread_job thread_id s).2 thread) = FAILED).
  { destruct (publish_thread_job_known _ _ _ Hreg) as (b & s0 & Hp & Hjob).
    rewrite Hjob in Hem |- *. clear Hjob. cbn [snd] in *.
    change (emitted s s0 evs) in Hem.
    apply publish_thread_cases in Hp
      as [(Hnil & _)|(f & rest & o & s1 & Hmem & Hpost & Hcases)].
    { rewrite Hsorted in Hnil. by destruct earlier. }
    rewrite Hsorted in Hmem.
    apply publish_post_spec in Hpost as (? & evs1 & [= <-] & Hem1 & Hobj1 & Hat1).
    destruct earlier as [|d ds]; cbn [app hd] in *; injection Hmem as <- <-.
    - (* the first member fails *)
      destruct Hcases as [(Htruthy & [= ->] & ->)|(Htruthy & Hrest)].
      + rewrite (emitted_inj _ _ _ _ Hem Hem1). cbn. rewrite upd_same.
        split; [constructor|]. split; [|split; [|split; [by rewrite Hobj1|done]]].
        * destruct Hat1 as [_ [[-> _] | ->]]; [apply prefix_nil|done].
        * destruct Hat1 as [Hwho _]. eapply Forall_impl; [exact Hwho|].
          intros e -> l [= <-]. left.
      + exfalso.
        destruct (publish_replies_spec _ _ _ _ _ Hrest) as (b' & evs2 & _ & Hem2 & _).
        rewrite (emitted_inj _ _ _ _ Hem (emitted_trans _ _ _ _ _ Hem1 Hem2)) in Hfail.
        assert (Htw : tweets evs1 = [(failed, o)]).
        { destruct Hat1 as [_ [[_ ->] | ->]]; done. }
        specialize (Hfail o). rewrite tweets_app, Htw in Hfail.
        unfold accepted in Hfail. rewrite decide_True in Hfail by done.
        rewrite Hfail in Htruthy; [done|left].
    - (* the first member goes through *)
      apply Forall_cons in Hearlier as [(o' & Hin & Hacc) Hearlier].
      unfold accepted in Hacc. rewrite decide_True in Hacc by done.
      apply NoDup_cons in Hnd as [Hd Hnd].
      destruct Hcases as [(Htruthy & [= ->] & ->)|(Htruthy & Hrest)].
      + exfalso. rewrite (emitted_inj _ _ _ _ Hem Hem1) in Hin.
        apply (attempt_elem_of _ _ _ _ _ Hat1) in Hin as [_ ->]. congruence.
      + destruct (publish_replies_spec _ _ _ _ _ Hrest) as (b' & evs2 & [= <-] & Hem2 & _).
        rewrite (emitted_inj _ _ _ _ Hem (emitted_trans _ _ _ _ _ Hem1 Hem2)) in *.
        assert (Htw : tweets evs1 = [(d, o)]).
        { destruct Hat1 as [_ [[_ ->] | ->]]; done. }
        rewrite tweets_app, Htw in *. cbn [app] in *.
        assert (Hlift : ∀ l x, l ≠ d → (l, x) ∈ (d, o) :: tweets evs2 →
                        (l, x) ∈ tweets evs2).
        { intros l x Hl [[= -> _]|H]%elem_of_cons; done. }
        destruct (publish_replies_abort ds failed later _ _ _ _ _ Hrest Hem2 Hnd)
          as (Hb & Hpub & Hpre & Hwho & Hframe).
        { apply Forall_forall. intros d' Hd'.
          assert (Hne : d' ≠ d) by (intros ->; apply Hd, elem_of_app; by left).
          rewrite Forall_forall in Hearlier.
          destruct (Hearlier d' Hd') as (x & Hx & Hax).
          unfold accepted in Hax. rewrite decide_False in Hax by done.
          apply bool_decide_eq_true in Hax as [i ->].
          exists i. by apply Hlift. }
        { intros i Hi.
          assert (Hne : failed ≠ d).
          { intros ->. apply Hd, elem_of_app. right. left. }
          assert (Hacc' : accepted d failed (Some i) = false) by (apply Hfail; by right).
          unfold accepted in Hacc'. rewrite decide_False in Hacc' by done.
          apply bool_decide_eq_false in Hacc'. apply Hacc'. by eexists. }
        injection Hb as ->. cbn. rewrite upd_same.
        split; [|split; [|split; [|split; [|done]]]].
        * constructor.
          -- rewrite Hframe by (intros Hin'; apply Hd, elem_of_app; by left).
             cbn. rewrite !upd_same. cbn. split; [done|].
             destruct o as [i|]; [|done]. exists i. split; [left|done].
          -- eapply Forall_impl; [exact Hpub|]. cbn. intros d' (Hst & i' & Hin' & Hid).
             split; [done|]. exists i'. split; [by right|done].
        * cbn. by apply prefix_cons.
        * apply Forall_app. split.
          -- destruct Hat1 as [Hat1 _]. eapply Forall_impl; [exact Hat1|].
             intros e -> l [= <-]. left.
          -- eapply Forall_impl; [exact Hwho|]. intros e He l Hl. right. by apply He.
        * intros l Hl. apply not_elem_of_cons in Hl as [Hne Hl].
          rewrite Hframe by done. cbn. by rewrite !upd_other, Hobj1. }
  destruct Hmain as (Hpub & Hpre & Hwho & Hframe & Hstatus).
  assert (Hout : ∀ l, l ∈ failed :: later → l ∉ earlier).
  { intros l Hl Hin. apply NoDup_app in Hnd as (_ & Hdisj & _). by apply (Hdisj l). }
  split; [exact Hpub|]. split; [exact Hpre|]. split.
  { apply (calls_at_most_once failed _ (earlier ++ [failed]) Hpre).
    replace (earlier ++ failed :: later) with ((earlier ++ [failed]) ++ later) in Hnd
      by (by rewrite <- app_assoc).
    by apply NoDup_app in Hnd as (? & _). }
  split; [exact Hwho|]. split.
  { eapply Forall_impl; [exact Hwho|]. intros e He l Hl Heq.
    specialize (He l Heq).
    replace (earlier ++ failed :: later) with ((earlier ++ [failed]) ++ later) in Hnd
      by (by rewrite <- app_assoc).
    apply NoDup_app in Hnd as (_ & Hdisj & _). by apply (Hdisj l). }
  split; [apply Hframe, Hout; left|]. split; [|exact Hstatus].
  apply Forall_forall. intros l Hl. apply Hframe, Hout. by right.
Qed.

End ThreadWalk.

(** ** [process_csv] groups the rows *)

Section CSVFacts.
Variable h : loc → XPost.t.
Variable now : string → datetime.

Import CSVProcessor.

Lemma sorted_idempotent {A : Type} (key : A → Z) (l : list A) :
  StronglySorted (key_le key) l → sorted key l = l.
Proof.
  induction 1 as [|x l Hl IH Hx]; [done|].
  cbn. rewrite IH. destruct l as [|y l]; [done|]. cbn.
  apply Forall_cons in Hx as [Hxy _]. unfold key_le in Hxy.
  by destruct (Z.leb_spec (key x) (key y)); [|lia].
Qed.

Lemma assoc_lookup_app {A : Type} k (l1 l2 : list (string * A)) :
  assoc_lookup k (l1 ++ l2)
  = match assoc_lookup k l1 with Some a => Some a | None => assoc_lookup k l2 end.
Proof.
  induction l1 as [|[n a] l1 IH]; [done|]. cbn. by destruct (String.eqb k n).
Qed.

Lemma assoc_lookup_None {A : Type} k (l : list (string * A)) :
  assoc_lookup k l = None ↔ k ∉ l.*1.
Proof.
  induction l as [|[n a] l IH]; cbn.
  - split; [intros _; apply not_elem_of_nil|done].
  - rewrite not_elem_of_cons, <- IH.
    destruct (String.eqb_spec k n) as [->|Hne]; [|tauto].
    split; [done|]. by intros [? _].
Qed.

Lemma assoc_lookup_map {A B : Type} (f : A → B) k (l : list (string * A)) :
  assoc_lookup k (map (λ kt, (kt.1, f kt.2)) l) = f <$> assoc_lookup k l.
Proof.
  induction l as [|[n a] l IH]; [done|]. cbn. by destruct (String.eqb k n).
Qed.

Lemma map_keys {A B : Type} (f : A → B) (l : list (string * A)) :
  (map (λ kt, (kt.1, f kt.2)) l).*1 = l.*1.
Proof. induction l as [|[n a] l IH]; [done|]. cbn. by rewrite IH. Qed.

Lemma append_to_keys tid post threads : (append_to tid post threads).*1 = threads.*1.
Proof.
  induction threads as [|[k th] threads IH]; [done|]. cbn.
  destruct (String.eqb tid k); cbn; [done|]. by rewrite IH.
Qed.

Lemma assoc_lookup_append_to k tid post threads :
  assoc_lookup k (append_to tid post threads)
  = if String.eqb k tid then append_member post <$> assoc_lookup k threads
    else assoc_lookup k threads.
Proof.
  induction threads as [|[n th] threads IH]; cbn; [by destruct (String.eqb k tid)|].
  destruct (String.eqb_spec tid n) as [->|Hne]; cbn.
  - destruct (String.eqb_spec k n) as [->|Hkn]; [done|]. done.
  - rewrite IH. destruct (String.eqb_spec k n) as [->|Hkn]; [|done].
    by destruct (String.eqb_spec n tid) as [->|_].
Qed.

Lemma truthy_Some (o : option string) :
  truthy o = true → ∃ tid, o = Some tid ∧ tid ≠ "".
Proof.
  destruct o as [tid|]; [|done]. cbn. intros H. exists tid. split; [done|].
  intros ->. done.
Qed.

Lemma members_of_snoc_same seen tid post :
  XPost.thread_id (h post) = Some tid →
  members_of h tid (seen ++ [post]) = members_of h tid seen ++ [post].
Proof.
  intros Hid. unfold members_of. by rewrite filter_app, filter_cons_True, filter_nil.
Qed.

Lemma members_of_snoc_other seen tid post :
  XPost.thread_id (h post) ≠ Some tid →
  members_of h tid (seen ++ [post]) = members_of h tid seen.
Proof.
  intros Hid. unfold members_of.
  by rewrite filter_app, filter_cons_False, filter_nil, app_nil_r.
Qed.

Lemma falsy_names post tid :
  truthy (XPost.thread_id (h post)) = false → tid ≠ "" →
  XPost.thread_id (h post) ≠ Some tid.
Proof.
  intros Htruthy Hne Hid. rewrite Hid in Htruthy. cbn in Htruthy.
  by destruct (String.eqb_spec tid "").
Qed.

Lemma file_row_grouped seen post acc :
  grouped h now seen acc → grouped h now (seen ++ [post]) (file_row h now post acc).
Proof.
  intros (Hposts & Hnodup & Hentries). unfold file_row. cbn zeta.
  destruct (truthy (XPost.thread_id (h post))) eqn:Htruthy.
  - destruct (truthy_Some _ Htruthy) as (tid0 & Hid & Hne). rewrite Hid.
    change (default "" (Some tid0)) with tid0.
    split; [|split].
    + cbn. unfold standalone_of. rewrite filter_app, filter_cons_False, filter_nil, app_nil_r;
        [done|]. by rewrite Htruthy.
    + cbn [snd]. rewrite append_to_keys.
      destruct (assoc_lookup tid0 acc.2) eqn:Hlook; [done|].
      rewrite fmap_app. cbn. apply NoDup_app. split; [done|].
      split; [|apply NoDup_singleton].
      intros k Hk ->%list_elem_of_singleton. by apply assoc_lookup_None in Hlook.
    + intros tid. cbn [snd]. rewrite assoc_lookup_append_to.
      specialize (Hentries tid) as Hentry.
      destruct (String.eqb_spec tid tid0) as [->|Hother].
      * destruct (assoc_lookup tid0 acc.2) as [th|] eqn:Hlook.
        -- rewrite Hlook. cbn in *. destruct Hentry as (_ & first & rest & Hmem & ->).
           split; [done|]. exists first, (rest ++ [post]).
           by rewrite members_of_snoc_same, Hmem.
        -- rewrite assoc_lookup_app, Hlook. cbn in *. rewrite String.eqb_refl. cbn.
           destruct Hentry as [?|Hmem]; [done|].
           split; [done|]. exists post, [].
           by rewrite members_of_snoc_same, Hmem.
      * assert (Hsame : assoc_lookup tid
                  match assoc_lookup tid0 acc.2 with
                  | Some _ => acc.2
                  | None => acc.2 ++ [(tid0, XThread.mk tid0 (XPost.thread_title (h post)) []
                                (XPost.scheduled_date (h post)) (XPost.timezone (h post))
                                PENDING (now tid0) (now tid0))]
                  end = assoc_lookup tid acc.2).
        { destruct (assoc_lookup tid0 acc.2); [done|].
          rewrite assoc_lookup_app. cbn.
          destruct (String.eqb_spec tid tid0) as [?|_]; [done|].
          by destruct (assoc_lookup tid acc.2). }
        rewrite Hsame. unfold entry in *.
        rewrite members_of_snoc_other by congruence. done.
  - split; [|split; [done|]].
    + cbn. unfold standalone_of. rewrite filter_app, filter_cons_True, filter_nil by done.
      by rewrite Hposts.
    + intros tid. cbn [snd]. specialize (Hentries tid) as Hentry. unfold entry in *.
      destruct (assoc_lookup tid acc.2) as [th|].
      * destruct Hentry as (Hne & first & rest & Hmem & ->).
        split; [done|]. exists first, rest.
        by rewrite members_of_snoc_other by by apply falsy_names.
      * destruct (decide (tid = "")) as [->|Hne]; [by left|].
        destruct Hentry as [?|Hmem]; [done|]. right.
        by rewrite members_of_snoc_other by by apply falsy_names.
Qed.

Lemma read_rows_grouped rows seen acc :
  grouped h now seen acc →
  ∃ acc', read_rows h now (Ok <$> rows) acc = Ok acc' ∧ grouped h now (seen ++ rows) acc'.
Proof.
  revert seen acc. induction rows as [|post rows IH]; intros seen acc Hacc.
  - exists acc. by rewrite app_nil_r.
  - cbn. destruct (IH (seen ++ [post]) _ (file_row_grouped _ post _ Hacc)) as (acc' & ? & ?).
    exists acc'. by rewrite <- app_assoc in *.
Qed.

Lemma read_rows_Ok created acc acc' :
  read_rows h now created acc = Ok acc' → ∃ rows, created = Ok <$> rows.
Proof.
  revert acc. induction created as [|[post|e] created IH]; intros acc; cbn.
  - by exists [].
  - intros [rows ->]%IH. by exists (post :: rows).
  - done.
Qed.

Lemma grouped_nil : grouped h now [] ([], []).
Proof. split; [done|]. split; [constructor|]. intros tid. by right. Qed.

(** X20.  All or nothing: when the file is missing, or when reading or
    converting any one row raises, [process_csv] gives no post and no
    thread, whatever the other rows hold. *)
Theorem process_csv_all_or_nothing (file_exists : bool)
    (before after : list (result loc)) (e : exn) (created : list (result loc)) :
  process_csv h now file_exists (before ++ Raise e :: after) = ([], [])
  ∧ process_csv h now false created = ([], []).
Proof.
  split; [|done]. unfold process_csv. destruct file_exists; [|done]. cbn.
  assert (∀ acc, ∃ e', read_rows h now (before ++ Raise e :: after) acc = Raise e')
    as Hraise.
  { induction before as [|[post|e0] before IH]; intros acc; cbn; by eauto. }
  by destruct (Hraise ([], [])) as [e' ->].
Qed.

(** X21.  When every row converts, [process_csv] returns as standalone posts
    exactly the rows without a (non-empty) thread identifier, in the order
    of the file, and the dictionary holds a thread exactly for the non-empty
    thread identifiers some row names: its title, run date and timezone are
    those of the first such row, its status is PENDING, and its members are
    all the rows that name it, sorted by position. *)
Theorem process_csv_groups_rows (rows : list loc) :
  let out := process_csv h now true (Ok <$> rows) in
  out.1 = standalone_of h rows
  ∧ NoDup out.2.*1
  ∧ ∀ tid, entry h now (sorted (λ p, position_key (h p))) rows tid (assoc_lookup tid out.2).
Proof.
  cbn zeta. unfold process_csv. cbn [negb].
  destruct (read_rows_grouped rows [] _ grouped_nil) as ([posts threads] & -> & Hg).
  destruct Hg as (Hposts & Hnodup & Hentries). cbn in *.
  split; [done|]. split; [by rewrite map_keys|].
  intros tid. rewrite assoc_lookup_map. specialize (Hentries tid).
  destruct (assoc_lookup tid threads) as [th|]; [|done]. cbn.
  destruct Hentries as (Hne & first & rest & Hmem & ->).
  split; [done|]. by exists first, rest.
Qed.

(** X22.  Every thread [process_csv] returns is ready for the engine: it is
    filed under its own, non-empty identifier, it has at least one member
    (so [schedule_thread] does not refuse it as empty), and its members are
    in the order in which [publish_thread] will walk them (sorting them again
    by position changes nothing). *)
Theorem process_csv_threads_ready (file_exists : bool) (created : list (result loc))
    (tid : string) (th : XThread.t) :
  assoc_lookup tid (process_csv h now file_exists created).2 = Some th →
  XThread.id th = tid ∧ tid ≠ ""
  ∧ XThread.posts th ≠ []
  ∧ XThread.status th = PENDING
  ∧ Forall (λ post, XPost.thread_id (h post) = Some tid) (XThread.posts th)
  ∧ sorted (λ p, position_key (h p)) (XThread.posts th) = XThread.posts th.
Proof.
  unfold process_csv. destruct file_exists; [|done]. cbn [negb].
  destruct (read_rows h now created ([], [])) as [[posts threads]|e] eqn:Hread; [|done].
  destruct (read_rows_Ok _ _ _ Hread) as [rows ->].
  destruct (read_rows_grouped rows [] _ grouped_nil) as (acc' & Hread' & Hg).
  rewrite Hread in Hread'. injection Hread' as <-.
  destruct Hg as (_ & _ & Hentries). cbn in *.
  rewrite assoc_lookup_map. specialize (Hentries tid).
  destruct (assoc_lookup tid threads) as [th0|]; [|done]. cbn.
  destruct Hentries as (Hne & first & rest & Hmem & ->). intros [= <-]. cbn -[sorted].
  split; [done|]. split; [done|].
  split; [intros Hnil; by apply sorted_nil_inv in Hnil|].
  split; [done|]. split.
  - rewrite sorted_perm, <- Hmem. apply Forall_forall. intros l Hl.
    by apply list_elem_of_filter in Hl as [? _].
  - apply sorted_idempotent, sorted_ascending.
Qed.

End CSVFacts.

(** * The engine on the sample data *)

(** C1.  A scheduled post (a scheduled thread) whose trigger is pending:
    [cancel_post] ([cancel_thread]) returns [False], the entity is still
    [SCHEDULED], the quota counter still counts its units, and its trigger is
    gone. *)
Example cancel_keeps_entity_scheduled :
  let s := sample_scheduled [] in
  XPost.status (post_objs s 1%nat) = SCHEDULED
  ∧ XThread.status (thread_objs s 1%nat) = SCHEDULED
  ∧ jobs s !! "post_a" = Some (mkJob publish_post_job 100 "a")
  ∧ jobs s !! "thread_t" = Some (mkJob publish_thread_job 50 "t")
  ∧ monthly_post_count s = 4
  ∧ (cancel_post "a" s).1 = Ok false
  ∧ XPost.status (post_objs (cancel_post "a" s).2 1%nat) = SCHEDULED
  ∧ monthly_post_count (cancel_post "a" s).2 = 4
  ∧ jobs (cancel_post "a" s).2 !! "post_a" = None
  ∧ (cancel_thread "t" s).1 = Ok false
  ∧ XThread.status (thread_objs (cancel_thread "t" s).2 1%nat) = SCHEDULED
  ∧ monthly_post_count (cancel_thread "t" s).2 = 4
  ∧ jobs (cancel_thread "t" s).2 !! "thread_t" = None.
Proof. vm_compute. repeat split. Qed.

(** C2, as stated, fails: the run date of post 6 (of thread 2) cannot be
    localised, [schedule_post] ([schedule_thread]) returns [False], and the
    entity is in the registry afterwards. *)
Lemma refused_admission_leaves_entity_registered :
  ¬ post_refusal_leaves_no_state (sample_init []) 6%nat
  ∧ ¬ thread_refusal_leaves_no_state (sample_init []) 2%nat.
Proof.
  split; intros H.
  - destruct H as (Hposts & _); [by vm_compute|].
    assert (Hin : posts (schedule_post 6%nat (sample_init [])).2 !! "late" = Some 6%nat)
      by (by vm_compute).
    rewrite Hposts in Hin. by vm_compute in Hin.
  - destruct H as (_ & Hthreads & _); [by vm_compute|].
    assert (Hin : threads (schedule_thread 2%nat (sample_init [])).2 !! "early" = Some 2%nat)
      by (by vm_compute).
    rewrite Hthreads in Hin. by vm_compute in Hin.
Qed.

(** The refused admission of post 6: the counter and the job store are as
    they were, and the post is registered under its identifier. *)
Lemma refused_admission_state_witness :
  let s := sample_init [] in
  let s' := (schedule_post 6%nat s).2 in
  (schedule_post 6%nat s).1 = Ok false
  ∧ monthly_post_count s' = monthly_post_count s
  ∧ jobs s' = jobs s
  ∧ trigger_ok scripted (XPost.scheduled_date (post_objs s 6%nat)) = false
  ∧ ∃ pid, XPost.id (post_objs s' 6%nat) = Some pid ∧ posts s' = <[pid := 6%nat]> (posts s).
Proof.
  intros s s'.
  assert (Hfalse : (schedule_post 6%nat s).1 = Ok false) by (by vm_compute).
  destruct (proj1 (refused_admission_state s) 6%nat Hfalse)
    as (Hcount & _ & Hjobs & _ & _ & _ & Hbooking).
  destruct Hbooking as (Hno & _ & Hreg); [by vm_compute|].
  by repeat split.
Defined.

(** The admission of post 1 and of thread 1 into an empty engine. *)
Lemma quota_counter_within_ceiling_witness :
  let s := sample_init [] in
  ((monthly_post_count s + 1 ≤ max_monthly_posts s)%Z
   ∧ monthly_post_count (schedule_post 1%nat s).2 = (monthly_post_count s + 1)%Z)
  ∧ ((monthly_post_count s + 3 ≤ max_monthly_posts s)%Z
     ∧ monthly_post_count (schedule_thread 1%nat s).2 = (monthly_post_count s + 3)%Z)
  ∧ (monthly_post_count
       (run_calls [SchedulePost 1%nat; ScheduleThread 1%nat; CancelPost "a";
                   Dispatch "thread_t" 60] s)
     ≤ max_monthly_posts
         (run_calls [SchedulePost 1%nat; ScheduleThread 1%nat; CancelPost "a";
                     Dispatch "thread_t" 60] s))%Z.
Proof.
  intros s.
  destruct (quota_counter_within_ceiling s) as (Hpost & Hthread & _ & Hcalls & _).
  split; [apply Hpost; by vm_compute|].
  split; [apply (Hthread 1%nat); by vm_compute|].
  apply Hcalls. by vm_compute.
Defined.

(** Positions 3, 1, 2 are walked as 1, 2, 3, and the thread is published
    when the X client accepts the three calls. *)
Lemma thread_published_in_position_order_witness :
  let s := sample_scheduled_thread [tweeted "101"; tweeted "102"; tweeted "103"] in
  let s' := (_publish_thread_job "t" s).2 in
  let evs := [EvTweet 4%nat "first" None None (tweeted "101"); EvSleep 2;
              EvTweet 5%nat "second" None (Some "101") (tweeted "102"); EvSleep 2;
              EvTweet 3%nat "third" None (Some "102") (tweeted "103")] in
  sorted (λ p, position_key (post_objs s p)) [3; 4; 5]%nat = [4; 5; 3]%nat
  ∧ map (λ p, position_key (post_objs s p)) [4; 5; 3]%nat = [1; 2; 3]%Z
  ∧ sorted (λ p, position_key (post_objs s p)) [5; 3; 4]%nat = [4; 5; 3]%nat
  ∧ emitted s s' evs
  ∧ (tweets evs).*1 = [4; 5; 3]%nat
  ∧ XThread.status (thread_objs s' 1%nat) = PUBLISHED.
Proof.
  intros s s' evs.
  split; [by vm_compute|]. split; [by vm_compute|].
  assert (Hreg : threads s !! "t" = Some 1%nat) by (by vm_compute).
  assert (Hne : XThread.posts (thread_objs s 1%nat) ≠ []) by (by vm_compute).
  assert (Hem : emitted s s' evs) by (by vm_compute).
  assert (Hfine : ¬ media_failed evs).
  { intros H. unfold media_failed, evs in H.
    repeat (apply Exists_cons in H as [(? & ? & ? & [=])|H]).
    by apply Exists_nil in H. }
  assert (Hcalls : calls_succeeded (tweets evs)).
  { split; [done|]. repeat constructor; by eexists. }
  destruct (thread_published_in_position_order s "t" 1%nat Hreg Hne)
    as (_ & _ & _ & Horder & evs' & Hem' & _ & _ & Hall & Hiff & _).
  rewrite <- (emitted_inj _ _ _ _ Hem Hem') in Hall, Hiff.
  split.
  { apply (Horder [5; 3; 4]%nat).
    - etrans; [apply perm_swap|]. apply perm_skip, perm_swap.
    - apply (bool_decide_unpack _). by vm_compute. }
  split; [exact Hem|]. split; [exact (Hall Hfine Hcalls)|].
  apply Hiff. by split.
Defined.

(** The second of the three members of thread 1: the X client accepts
    member 1 and refuses member 2. *)
Lemma first_failure_aborts_thread_witness :
  let s := sample_scheduled_thread
             [tweeted "101"; Raise (CollaboratorError "rate limit exceeded")] in
  let s' := (_publish_thread_job "t" s).2 in
  let evs := [EvTweet 4%nat "first" None None (tweeted "101"); EvSleep 2;
              EvTweet 5%nat "second" None (Some "101")
                (Raise (CollaboratorError "rate limit exceeded"))] in
  emitted s s' evs
  ∧ XPost.status (post_objs s' 4%nat) = PUBLISHED
  ∧ XPost.x_post_id (post_objs s' 4%nat) = Some "101"
  ∧ (tweets evs).*1 `prefix_of` [4; 5]%nat
  ∧ (length (filter (λ t, t.1 = 5%nat) (tweets evs)) ≤ 1)%nat
  ∧ Forall (λ e, event_who e ≠ Some 3%nat) evs
  ∧ post_objs s' 5%nat = post_objs s 5%nat
  ∧ post_objs s' 3%nat = post_objs s 3%nat
  ∧ XThread.status (thread_objs s' 1%nat) = FAILED.
Proof.
  intros s s' evs.
  assert (Hreg : threads s !! "t" = Some 1%nat) by (by vm_compute).
  assert (Hsorted : sorted (λ p, position_key (post_objs s p))
                      (XThread.posts (thread_objs s 1%nat)) = [4%nat] ++ 5%nat :: [3%nat])
    by (by vm_compute).
  assert (Hnd : NoDup ([4%nat] ++ 5%nat :: [3%nat])).
  { apply (bool_decide_unpack (NoDup [4; 5; 3]%nat)). by vm_compute. }
  assert (Hem : emitted s s' evs) by (by vm_compute).
  assert (Htw : tweets evs = [(4%nat, Some "101"); (5%nat, None)]) by (by vm_compute).
  assert (Hfirst : Forall (λ d, ∃ o, (d, o) ∈ tweets evs ∧ accepted 4%nat d o = true)
                     [4%nat]).
  { constructor; [|constructor]. exists (Some "101"). split; [rewrite Htw; left|done]. }
  assert (Hsecond : ∀ o, (5%nat, o) ∈ tweets evs → accepted 4%nat 5%nat o = false).
  { intros o. rewrite Htw.
    intros [[=]|[[= ->]|[]%elem_of_nil]%elem_of_cons]%elem_of_cons. done. }
  destruct (first_failure_aborts_thread s "t" 1%nat [4%nat] 5%nat [3%nat] evs
              Hreg Hsorted Hnd Hem Hfirst Hsecond)
    as (Hpub & Hpre & Honce & _ & Hnone & Hfailed & Hlater & Hstatus).
  apply Forall_cons in Hpub as [(Hst & i & Hin & Hid) _].
  apply Forall_cons in Hlater as [Hthird _].
  assert (i = "101") as ->.
  { rewrite Htw in Hin.
    by apply elem_of_cons in Hin as [[=]|[[=]|[]%elem_of_nil]%elem_of_cons]. }
  split; [exact Hem|]. split; [exact Hst|]. split; [exact Hid|].
  split; [exact Hpre|]. split; [exact Honce|]. split.
  { eapply Forall_impl; [exact Hnone|]. intros e He. apply He. left. }
  split; [exact Hfailed|]. split; [exact Hthird|exact Hstatus].
Defined.

(** Post ["a"] and thread ["t"], both scheduled with a pending trigger. *)
Lemma cancel_registered_returns_false_witness :
  let s := sample_scheduled [] in
  ((cancel_post "a" s).1 = Ok false
   ∧ jobs (cancel_post "a" s).2 = delete "post_a" (jobs s)
   ∧ post_objs (cancel_post "a" s).2 = post_objs s
   ∧ monthly_post_count (cancel_post "a" s).2 = monthly_post_count s)
  ∧ ((cancel_thread "t" s).1 = Ok false
     ∧ jobs (cancel_thread "t" s).2 = delete "thread_t" (jobs s)
     ∧ thread_objs (cancel_thread "t" s).2 = thread_objs s
     ∧ monthly_post_count (cancel_thread "t" s).2 = monthly_post_count s).
Proof.
  intros s.
  assert (Hpost : is_Some (posts s !! "a")) by (exists 1%nat; by vm_compute).
  assert (Hthread : is_Some (threads s !! "t")) by (exists 1%nat; by vm_compute).
  destruct (proj1 (cancel_registered_returns_false s "a") Hpost)
    as (_ & H1 & H2 & H3 & _ & _ & _ & H4).
  destruct (proj2 (cancel_registered_returns_false s "t") Hthread)
    as (_ & H5 & H6 & _ & H7 & _ & _ & H8).
  by repeat split.
Defined.


(** Post ["a"] fires at instant 150 and is published; ["zz"] was never
    registered. *)
Lemma cancel_post_unknown_or_fired_witness :
  let s := sample_scheduled_post [tweeted "900"] in
  let fired := (dispatch "post_a" 150 s).2 in
  XPost.status (post_objs fired 1%nat) = PUBLISHED
  ∧ cancel_post "zz" s = (Ok false, s)
  ∧ posts fired !! "a" = Some 1%nat
  ∧ jobs fired !! "post_a" = None
  ∧ cancel_post "a" fired = (Ok false, fired)
  ∧ (cancel_post "a" fired).1 = (cancel_post "zz" s).1.
Proof.
  intros s fired.
  assert (Hunknown : posts s !! "zz" = None) by (by vm_compute).
  assert (Hreg : posts s !! "a" = Some 1%nat) by (by vm_compute).
  assert (Hjob : jobs s !! "post_a" = Some (mkJob publish_post_job 100 "a"))
    by (by vm_compute).
  assert (Hdue : (run_date (mkJob publish_post_job 100 "a") ≤ 150)%Z) by (by vm_compute).
  destruct (cancel_post_unknown_or_fired s "zz") as (H1 & _).
  destruct (cancel_post_unknown_or_fired s "a") as (_ & _ & H3).
  destruct (H3 1%nat _ 150%Z Hreg Hjob Hdue) as (H4 & H5 & H6 & H7).
  split; [by vm_compute|]. split; [by apply H1|].
  split; [exact H4|]. split; [exact H5|]. split; [exact H6|].
  by apply H7.
Defined.

(** A content of 281 characters, and one of 5. *)
Lemma over_length_content_rejected_witness :
  XPost.new 0 (Some "a") over_length_content 100 "UTC" None None None None
    = Raise (ValueError "Content exceeds 280 characters")
  ∧ validate_content_length "hello" = Ok "hello"
  ∧ XPost.content (post_objs (schedule_post 1%nat (sample_init [])).2 1%nat) = "hello"
  ∧ (String.length
       (XPost.content (post_objs (schedule_post 1%nat (sample_init [])).2 1%nat))
     ≤ 280)%nat.
Proof.
  assert (Hlong : (280 < String.length over_length_content)%nat)
    by (vm_compute; lia).
  assert (Hshort : (String.length "hello" ≤ 280)%nat) by (vm_compute; lia).
  destruct (over_length_content_rejected (C:=scripted) over_length_content 0 (Some "a")
              100 "UTC" None None None None) as (H1 & _).
  destruct (over_length_content_rejected (C:=scripted) "hello" 0 (Some "a")
              100 "UTC" None None None None) as (_ & H2 & H3).
  split; [by apply H1|]. split; [by apply H2|].
  apply (H3 (sample_post "a" "hello" 100 None) (sample_init []) 1%nat); by vm_compute.
Defined.

(** Post 1 books identifier ["a"] for instant 100, post 2 books it again
    for instant 200. *)
Lemma reschedule_replaces_trigger_witness :
  let s := sample_init [] in
  let s1 := (schedule_post 1%nat s).2 in
  let s2 := (schedule_post 2%nat s1).2 in
  jobs s1 !! "post_a" = Some (mkJob publish_post_job 100 "a")
  ∧ jobs s2 = <["post_a" := mkJob publish_post_job 200 "a"]> (jobs s1)
  ∧ filter (λ kv, kv.1 = "post_a") (map_to_list (jobs s2))
    = [("post_a", mkJob publish_post_job 200 "a")]
  ∧ posts s2 !! "a" = Some 2%nat
  ∧ dispatch "post_a" 150 s2 = (Ok tt, s2)
  ∧ dispatch "post_a" 200 s2 = _publish_post_job "a" (set_jobs (delete "post_a") s2).
Proof.
  intros s s1 s2.
  assert (Hrun1 : schedule_post 1%nat s = (Ok true, s1)).
  { rewrite (surjective_pairing (schedule_post 1%nat s)). by f_equal. }
  assert (Hrun2 : schedule_post 2%nat s1 = (Ok true, s2)).
  { rewrite (surjective_pairing (schedule_post 2%nat s1)). by f_equal. }
  assert (Hid1 : XPost.id (post_objs s1 1%nat) = Some "a") by (by vm_compute).
  assert (Hid2 : XPost.id (post_objs s1 2%nat) = Some "a") by (by vm_compute).
  assert (Hpid : "a" ≠ "") by done.
  destruct (reschedule_replaces_trigger s 1%nat 2%nat "a" s1 s2 Hrun1 Hid1 Hid2 Hpid Hrun2)
    as (H1 & H2 & H3 & H4 & H5 & H6).
  split; [exact H1|]. split; [exact H2|]. split; [exact H3|]. split; [exact H4|].
  split; [apply H5; by vm_compute|]. apply H6. by vm_compute.
Defined.

(** * The rest of the code on the sample data *)

(** The admission of post 1 into an empty engine. *)
Lemma schedule_post_admits_witness :
  let s := sample_init [] in
  let s' := (schedule_post 1%nat s).2 in
  ∃ pid,
    XPost.id (post_objs s' 1%nat) = Some pid
    ∧ (get_post pid s').1 = Ok (Some 1%nat)
    ∧ XPost.status (post_objs s' 1%nat) = SCHEDULED
    ∧ jobs s' !! ("post_" +:+ pid) = Some (mkJob publish_post_job 100 pid)
    ∧ monthly_post_count s' = 1%Z.
Proof.
  intros s s'.
  assert (Hrun : schedule_post 1%nat s = (Ok true, s')).
  { rewrite (surjective_pairing (schedule_post 1%nat s)). by f_equal. }
  destruct (schedule_post_admits 1%nat s s' Hrun)
    as (pid & H1 & _ & _ & H4 & H5 & H6 & H7 & _).
  exists pid. split; [exact H1|]. split; [exact H4|]. split; [exact H5|].
  split; [exact H6|exact H7].
Defined.

(** Post 2 carries the identifier of post 1, which is registered. *)
Lemma reschedule_counts_again_witness :
  let s := sample_scheduled_post [] in
  let s' := (schedule_post 2%nat s).2 in
  dom (posts s') = dom (posts s)
  ∧ size (posts s') = size (posts s)
  ∧ monthly_post_count s' = (monthly_post_count s + 1)%Z.
Proof.
  intros s s'.
  assert (Hrun : schedule_post 2%nat s = (Ok true, s')).
  { rewrite (surjective_pairing (schedule_post 2%nat s)). by f_equal. }
  assert (Hid : XPost.id (post_objs s' 2%nat) = Some "a") by (by vm_compute).
  assert (Hreg : is_Some (posts s !! "a")) by (exists 1%nat; by vm_compute).
  exact (reschedule_counts_again 2%nat "a" s s' Hrun Hid Hreg).
Defined.

(** The admission of thread 1, of three members, into an empty engine. *)
Lemma schedule_thread_admits_witness :
  let s := sample_init [] in
  let s' := (schedule_thread 1%nat s).2 in
  (get_thread "t" s').1 = Ok (Some 1%nat)
  ∧ thread_objs s' 1%nat = XThread.set_status SCHEDULED sample_thread
  ∧ jobs s' !! "thread_t" = Some (mkJob publish_thread_job 50 "t")
  ∧ monthly_post_count s' = 3%Z
  ∧ post_objs s' = post_objs s.
Proof.
  intros s s'.
  assert (Hrun : schedule_thread 1%nat s = (Ok true, s')).
  { rewrite (surjective_pairing (schedule_thread 1%nat s)). by f_equal. }
  pose proof (schedule_thread_admits 1%nat s s' Hrun) as H. cbv zeta in H.
  destruct H as (_ & H2 & H3 & H4 & H5 & H6 & _).
  split; [exact H2|]. split; [exact H3|]. split; [exact H4|]. split; [exact H5|exact H6].
Defined.

(** Post 1 has a remote file, a local file that does not exist and one that
    does; the only file of post 2 cannot be fetched. *)
Lemma publish_post_request_witness :
  let s := media_init [tweeted "201"] in
  let evs1 := [EvMedia 1%nat "https://example.org/a.png" (Ok 7%Z);
               EvMedia 1%nat "/tmp/cat.png" (Ok 9%Z);
               EvTweet 1%nat "look" (Some [7; 9]%Z) None (tweeted "201")] in
  let evs2 := [EvMedia 2%nat "https://example.org/broken.png"
                 (Raise (CollaboratorError "404 Not Found"))] in
  emitted s (publish_post 1%nat s).2 evs1
  ∧ requests evs1 = [(1%nat, "look", Some [7; 9]%Z, None)]
  ∧ (∃ o, tweets evs1 = [(1%nat, o)] ∧ (publish_post 1%nat s).1 = Ok o)
  ∧ emitted s (publish_post 2%nat s).2 evs2
  ∧ requests evs2 = []
  ∧ (publish_post 2%nat s).1 = Ok None.
Proof.
  intros s evs1 evs2.
  assert (Hem1 : emitted s (publish_post 1%nat s).2 evs1) by (by vm_compute).
  assert (Hem2 : emitted s (publish_post 2%nat s).2 evs2) by (by vm_compute).
  assert (Hfine : ¬ media_failed evs1).
  { intros H. unfold media_failed, evs1 in H.
    repeat (apply Exists_cons in H as [(? & ? & ? & [=])|H]).
    by apply Exists_nil in H. }
  assert (Hbroken : media_failed evs2).
  { apply Exists_cons_hd. by eexists _, _, _. }
  destruct (publish_post_request 1%nat s evs1 Hem1) as [_ H1].
  destruct (publish_post_request 2%nat s evs2 Hem2) as [H2 _].
  destruct (H1 Hfine) as [Hreq1 Hout1]. destruct (H2 Hbroken) as [Hreq2 Hout2].
  split; [exact Hem1|]. split; [exact Hreq1|]. split; [exact Hout1|].
  split; [exact Hem2|]. split; [exact Hreq2|exact Hout2].
Defined.

(** The three members of thread 1 go out; each reply names the post before
    it. *)
Lemma thread_replies_chain_witness :
  let s := sample_scheduled_thread [tweeted "101"; tweeted "102"; tweeted "103"] in
  let evs := [EvTweet 4%nat "first" None None (tweeted "101"); EvSleep 2;
              EvTweet 5%nat "second" None (Some "101") (tweeted "102"); EvSleep 2;
              EvTweet 3%nat "third" None (Some "102") (tweeted "103")] in
  emitted s (publish_thread 1%nat s).2 evs
  ∧ (requests evs).*2 = [None; Some "101"; Some "102"].
Proof.
  intros s evs.
  assert (Hem : emitted s (publish_thread 1%nat s).2 evs) by (by vm_compute).
  split; [exact Hem|].
  etrans; [exact (thread_replies_chain 1%nat s evs Hem)|]. by vm_compute.
Defined.

(** Two pauses of two seconds for three members. *)
Lemma thread_requests_paced_witness :
  let s := sample_scheduled_thread [tweeted "101"; tweeted "102"; tweeted "103"] in
  let evs := [EvTweet 4%nat "first" None None (tweeted "101"); EvSleep 2;
              EvTweet 5%nat "second" None (Some "101") (tweeted "102"); EvSleep 2;
              EvTweet 3%nat "third" None (Some "102") (tweeted "103")] in
  paced true evs = true
  ∧ Forall (λ seconds, seconds = 2%Z) (sleeps evs)
  ∧ S (length (sleeps evs)) = 3%nat.
Proof.
  intros s evs.
  assert (Hem : emitted s (publish_thread 1%nat s).2 evs) by (by vm_compute).
  assert (Hres : (publish_thread 1%nat s).1 = Ok true) by (by vm_compute).
  destruct (thread_requests_paced 1%nat s evs Hem) as (H1 & H2 & H3).
  split; [exact H1|]. split; [exact H2|]. exact (H3 Hres).
Defined.

(** The members of thread 1, in the order of their positions, with the
    identifiers the X client gave them. *)
Lemma thread_success_publishes_members_witness :
  let s := sample_scheduled_thread [tweeted "101"; tweeted "102"; tweeted "103"] in
  let s1 := (publish_thread 1%nat s).2 in
  Forall2 (λ l t, t.1 = l ∧ is_Some t.2
                  ∧ XPost.status (post_objs s1 l) = PUBLISHED
                  ∧ XPost.x_post_id (post_objs s1 l) = t.2)
    [4; 5; 3]%nat
    [(4%nat, Some "101"); (5%nat, Some "102"); (3%nat, Some "103")].
Proof.
  intros s s1.
  assert (Hrun : publish_thread 1%nat s = (Ok true, s1)).
  { rewrite (surjective_pairing (publish_thread 1%nat s)). by f_equal. }
  assert (Hem : emitted s s1
            [EvTweet 4%nat "first" None None (tweeted "101"); EvSleep 2;
             EvTweet 5%nat "second" None (Some "101") (tweeted "102"); EvSleep 2;
             EvTweet 3%nat "third" None (Some "102") (tweeted "103")]) by (by vm_compute).
  assert (Hnd : NoDup (XThread.posts (thread_objs s 1%nat))).
  { apply (bool_decide_unpack (NoDup [3; 4; 5]%nat)). by vm_compute. }
  exact (thread_success_publishes_members 1%nat s s1 _ Hrun Hem Hnd).
Defined.

(** The X client refuses the first member of thread 1. *)
Lemma first_member_failure_stops_thread_witness :
  let s := sample_scheduled_thread [Raise (CollaboratorError "rate limit exceeded")] in
  let evs := [EvTweet 4%nat "first" None None
                (Raise (CollaboratorError "rate limit exceeded"))] in
  (publish_thread 1%nat s).1 = Ok false
  ∧ post_objs (publish_thread 1%nat s).2 = post_objs s
  ∧ sleeps evs = []
  ∧ Forall (λ e, event_who e = Some 4%nat) evs
  ∧ (length (requests evs) ≤ 1)%nat.
Proof.
  intros s evs.
  assert (Hsorted : sorted (λ p, position_key (post_objs s p))
                      (XThread.posts (thread_objs s 1%nat)) = 4%nat :: [5; 3]%nat)
    by (by vm_compute).
  assert (Hem : emitted s (publish_thread 1%nat s).2 evs) by (by vm_compute).
  assert (Htw : tweets evs = [(4%nat, None)]) by (by vm_compute).
  assert (Hnone : ∀ i : string, i ≠ "" → (4%nat, Some i) ∉ tweets evs).
  { intros i _. rewrite Htw. intros [[=]|[]%elem_of_nil]%elem_of_cons. }
  exact (first_member_failure_stops_thread 1%nat 4%nat [5; 3]%nat s evs Hsorted Hem Hnone).
Defined.

(** Thread object 3 has no member. *)
Lemma empty_thread_goes_nowhere_witness :
  let s := sample_init [] in
  schedule_thread 3%nat s = (Ok false, s) ∧ publish_thread 3%nat s = (Ok false, s).
Proof.
  intros s.
  assert (Hempty : XThread.posts (thread_objs s 3%nat) = []) by (by vm_compute).
  destruct (empty_thread_goes_nowhere 3%nat "" s Hempty) as (H1 & H2 & _).
  split; [exact H1|exact H2].
Defined.

(** An engine whose ceiling is zero. *)
Lemma process_csv_file_when_full_witness :
  let s := @init scripted sample_posts sample_threads 0 [] in
  process_csv_file [1; 4]%nat [1]%nat s = (Ok (mkReport true 0 0), s).
Proof.
  intros s.
  assert (Hfull : (max_monthly_posts s ≤ monthly_post_count s)%Z) by (by vm_compute).
  exact (process_csv_file_when_full [1; 4]%nat [1]%nat s Hfull).
Defined.

(** Three posts and one thread for a ceiling of two. *)
Lemma process_csv_file_first_come_witness :
  let s := @init scripted sample_posts sample_threads 2 [] in
  let s' := (process_csv_file [1; 4; 5]%nat [1]%nat s).2 in
  ∃ report,
    (process_csv_file [1; 4; 5]%nat [1]%nat s).1 = Ok report
    ∧ posts_scheduled report = 2%Z
    ∧ threads_scheduled report = 0%Z
    ∧ Forall (λ post, XPost.status (post_objs s' post) = SCHEDULED) [1; 4]%nat.
Proof.
  intros s s'.
  assert (Hok : Forall (λ post, trigger_ok scripted
                          (XPost.scheduled_date (post_objs s post)) = true) [1; 4; 5]%nat).
  { repeat constructor. }
  destruct (process_csv_file_first_come [1; 4; 5]%nat [1]%nat s Hok)
    as (report & k & Hres & Hposts & Hk & Hall & Hthreads).
  assert (Hk2 : k = 2%nat).
  { apply Nat2Z.inj. rewrite Hk. by vm_compute. }
  subst k. exists report. split; [exact Hres|]. split; [exact Hposts|].
  split; [apply Hthreads; by vm_compute|exact Hall].
Defined.

(** Rows 2 and 3 name thread ["t"], at positions 2 and 1. *)
Lemma process_csv_threads_ready_witness :
  let th := XThread.mk "t" (Some "A thread") [3; 2]%nat 10 "UTC" PENDING 0 0 in
  assoc_lookup "t" (CSVProcessor.process_csv csv_rows (λ _, 0%Z) true
                      [Ok 1%nat; Ok 2%nat; Ok 3%nat; Ok 4%nat]).2 = Some th
  ∧ XThread.posts th ≠ []
  ∧ Forall (λ post, XPost.thread_id (csv_rows post) = Some "t") (XThread.posts th)
  ∧ sorted (λ p, position_key (csv_rows p)) (XThread.posts th) = XThread.posts th.
Proof.
  intros th.
  assert (Hlook : assoc_lookup "t" (CSVProcessor.process_csv csv_rows (λ _, 0%Z) true
                    [Ok 1%nat; Ok 2%nat; Ok 3%nat; Ok 4%nat]).2 = Some th)
    by (by vm_compute).
  destruct (process_csv_threads_ready csv_rows (λ _, 0%Z) true _ "t" th Hlook)
    as (_ & _ & H3 & _ & H5 & H6).
  split; [exact Hlook|]. split; [exact H3|]. split; [exact H5|exact H6].
Defined.

(** The callback of post 1, accepted by the X client, and refused. *)
Lemma post_job_records_outcome_witness :
  let s := sample_scheduled_post [tweeted "101"] in
  let s' := (_publish_post_job "a" s).2 in
  let r := sample_scheduled_post [Raise (CollaboratorError "rate limit exceeded")] in
  let r' := (_publish_post_job "a" r).2 in
  XPost.x_post_id (post_objs s' 1%nat) = Some "101"
  ∧ XPost.status (post_objs s' 1%nat) = PUBLISHED
  ∧ XPost.x_post_id (post_objs r' 1%nat) = None
  ∧ XPost.status (post_objs r' 1%nat) = FAILED
  ∧ thread_objs s' = thread_objs s.
Proof.
  intros s s' r r'.
  assert (Hs : posts s !! "a" = Some 1%nat) by (by vm_compute).
  assert (Hr : posts r !! "a" = Some 1%nat) by (by vm_compute).
  pose proof (post_job_records_outcome "a" 1%nat s Hs) as H1. cbv zeta in H1.
  pose proof (post_job_records_outcome "a" 1%nat r Hr) as H2. cbv zeta in H2.
  destruct H1 as (o1 & Ho1 & Hobj1 & _ & Hto).
  destruct H2 as (o2 & Ho2 & Hobj2 & _).
  assert (o1 = Some "101") as -> by (vm_compute in Ho1; by injection Ho1).
  assert (o2 = None) as -> by (vm_compute in Ho2; by injection Ho2).
  fold s' in Hobj1, Hto. fold r' in Hobj2.
  split; [by rewrite Hobj1|]. split; [by rewrite Hobj1|].
  split; [by rewrite Hobj2|]. split; [by rewrite Hobj2|exact Hto].
Defined.
